(** * SignalBox LLM server: the tool-augmented conversation engine

    A shallow embedding of the server's agent service
    ([server/src/agent/agent.service.ts]), its Redis adapter
    ([common/redis/redis.service.ts]) and its rate-limit guard
    ([common/guards/rate-limit.guard.ts]), with the properties the
    specification states about them.

    Layout: the JavaScript values and built-ins the code relies on, the
    effect monad (state, exceptions, emitted events), the Redis adapter, the
    guard, the agent service; then the lemmas and theorems. *)

From Stdlib Require Import ZArith String Ascii DecimalString HexadecimalString.
From stdpp Require Import gmap strings list sorting.

Set Warnings "-register-all".
Open Scope Z_scope.

(* ================================================================== *)
(** * JavaScript values and built-ins *)
(* ================================================================== *)

Module Js.

(** The values that flow through the engine: what [JSON.parse] returns, what
    a tool returns, what the Redis client hands back.  Numbers are the
    integers (the engine never computes with fractions); strings are
    sequences of code units below 256.  An object is its list of own
    properties in property order. *)
Inductive jsval : Type :=
| VUndefined
| VNull
| VBool (b : bool)
| VNum (n : Z)
| VStr (s : string)
| VArr (items : list jsval)
| VObj (fields : list (string * jsval)).

(** [typeof v] *)
Definition typeof (v : jsval) : string :=
  match v with
  | VUndefined => "undefined"
  | VNull => "object"
  | VBool _ => "boolean"
  | VNum _ => "number"
  | VStr _ => "string"
  | VArr _ | VObj _ => "object"
  end.

(** [!!s] for a string *)
Definition str_truthy (s : string) : bool :=
  match s with EmptyString => false | _ => true end.

(** [!!v] *)
Definition truthy (v : jsval) : bool :=
  match v with
  | VUndefined | VNull => false
  | VBool b => b
  | VNum n => negb (n =? 0)
  | VStr s => str_truthy s
  | VArr _ | VObj _ => true
  end.

(** [!!o] for an optional string ([null] and [undefined] are [None]) *)
Definition opt_truthy (o : option string) : bool :=
  match o with Some s => str_truthy s | None => false end.

(** [o || d] for an optional string *)
Definition or_else (o : option string) (d : string) : string :=
  match o with
  | Some s => if str_truthy s then s else d
  | None => d
  end.

(** Own-property lookup in a property list. *)
Fixpoint assoc {A : Type} (k : string) (fs : list (string * A)) : option A :=
  match fs with
  | [] => None
  | (k', v) :: fs' => if String.eqb k k' then Some v else assoc k fs'
  end.

(** [o[k] = v] on a property list: an existing property keeps its place. *)
Fixpoint assoc_set {A : Type} (k : string) (v : A) (fs : list (string * A))
  : list (string * A) :=
  match fs with
  | [] => [(k, v)]
  | (k', v') :: fs' =>
      if String.eqb k k' then (k, v) :: fs' else (k', v') :: assoc_set k v fs'
  end.

(** [{...a, ...b}] on property lists *)
Definition spread {A : Type} (a b : list (string * A)) : list (string * A) :=
  fold_left (fun acc kv => assoc_set (fst kv) (snd kv) acc) b a.

(** [v.k] for a name [k] that is not an array index or [length] *)
Definition get_prop (v : jsval) (k : string) : jsval :=
  match v with
  | VObj fs => match assoc k fs with Some x => x | None => VUndefined end
  | _ => VUndefined
  end.

(** Decimal and hexadecimal rendering of integers ([Number.prototype.toString]
    with radix 10 and 16). *)
Definition dec (n : Z) : string :=
  DecimalString.NilZero.string_of_int (Z.to_int n).

Definition hex (n : Z) : string :=
  (if n <? 0 then "-" else "") +:+
  HexadecimalString.NilZero.string_of_uint (N.to_hex_uint (Z.to_N (Z.abs n))).

(** ** [JSON.stringify] *)

Definition hex_digit (n : N) : ascii :=
  match n with
  | 0 => "0" | 1 => "1" | 2 => "2" | 3 => "3" | 4 => "4" | 5 => "5" | 6 => "6"
  | 7 => "7" | 8 => "8" | 9 => "9" | 10 => "a" | 11 => "b" | 12 => "c"
  | 13 => "d" | 14 => "e" | _ => "f"
  end%N%char.

(** The double quote, code unit 34. *)
Definition dquote : ascii := "034"%char.

(** One code unit inside a quoted JSON string. *)
Definition escape_char (c : ascii) : string :=
  let n := N_of_ascii c in
  if (n =? 34)%N then String "\" (String dquote "")
  else if (n =? 92)%N then "\\"
  else if (n =? 8)%N then "\b"
  else if (n =? 12)%N then "\f"
  else if (n =? 10)%N then "\n"
  else if (n =? 13)%N then "\r"
  else if (n =? 9)%N then "\t"
  else if (n <? 32)%N then
    "\u00" +:+ String (hex_digit (n / 16)) (String (hex_digit (n mod 16)) "")
  else String c "".

Fixpoint escape (s : string) : string :=
  match s with
  | EmptyString => ""
  | String c s' => escape_char c +:+ escape s'
  end.

(** [QuoteJSONString] *)
Definition quote (s : string) : string :=
  String dquote (escape s +:+ String dquote "").

(** The members of an object under a replacer array [K]: one member per name
    of [K], in the order of [K], for the names the object has with a
    serializable value.  [ss] holds the serialized own properties. *)
Definition members_of (K : list string) (ss : list (string * option string))
  : list string :=
  omap (fun k =>
          match assoc k ss with
          | Some (Some s) => Some (quote k +:+ ":" +:+ s)
          | _ => None
          end) K.

(** The members of an object without a replacer: every own property with a
    serializable value, in property order. *)
Definition members_all (ss : list (string * option string)) : list string :=
  omap (fun ks =>
          match snd ks with
          | Some s => Some (quote (fst ks) +:+ ":" +:+ s)
          | None => None
          end) ss.

(** [SerializeJSONProperty]: [None] is JavaScript's [undefined] (the property
    is left out of an object and printed [null] in an array). *)
Fixpoint serialize (K : option (list string)) (v : jsval) : option string :=
  match v with
  | VUndefined => None
  | VNull => Some "null"
  | VBool true => Some "true"
  | VBool false => Some "false"
  | VNum n => Some (dec n)
  | VStr s => Some (quote s)
  | VArr items =>
      Some ("[" +:+
            String.concat ","
              (map (fun x => match serialize K x with
                             | Some s => s
                             | None => "null"
                             end) items) +:+ "]")
  | VObj fields =>
      let ss := map (fun kv => (fst kv, serialize K (snd kv))) fields in
      Some ("{" +:+
            String.concat ","
              (match K with
               | Some names => members_of names ss
               | None => members_all ss
               end) +:+ "}")
  end.

(** [JSON.stringify(v)] *)
Definition JSON_stringify (v : jsval) : option string := serialize None v.

(** [JSON.stringify(v, names)] with an array of names as replacer: the
    property list is the array without its repeated names. *)
Definition JSON_stringify_with (v : jsval) (names : list string)
  : option string :=
  serialize (Some (remove_dups names)) v.

(** [Object.keys(v)]; [None] is the [TypeError] on [null] and [undefined]. *)
Definition Object_keys (v : jsval) : option (list string) :=
  match v with
  | VUndefined | VNull => None
  | VBool _ | VNum _ => Some []
  | VStr s => Some (map (fun i => dec (Z.of_nat i)) (seq 0 (String.length s)))
  | VArr items => Some (map (fun i => dec (Z.of_nat i)) (seq 0 (length items)))
  | VObj fields => Some (map fst fields)
  end.

(** [names.sort()]: ascending by code units. *)
Definition sort (names : list string) : list string :=
  merge_sort String.le names.

(** ** 32-bit integers and [parseInt] *)

(** [ToInt32] *)
Definition to_int32 (z : Z) : Z := (z + 2 ^ 31) mod 2 ^ 32 - 2 ^ 31.

Definition is_ws (c : ascii) : bool :=
  let n := N_of_ascii c in
  ((n =? 32) || (n =? 9) || (n =? 10) || (n =? 11) || (n =? 12) || (n =? 13)
   || (n =? 160))%N.

Fixpoint skip_ws (s : string) : string :=
  match s with
  | String c s' => if is_ws c then skip_ws s' else s
  | EmptyString => s
  end.

(** The value of a digit in a radix, if it is one. *)
Definition digit_val (radix : Z) (c : ascii) : option Z :=
  let n := Z.of_N (N_of_ascii c) in
  let d := if (48 <=? n) && (n <=? 57) then n - 48
           else if (97 <=? n) && (n <=? 122) then n - 87
           else if (65 <=? n) && (n <=? 90) then n - 55
           else 99 in
  if d <? radix then Some d else None.

(** The longest prefix of digits, read left to right. *)
Fixpoint digits_prefix (radix : Z) (acc : option Z) (s : string) : option Z :=
  match s with
  | EmptyString => acc
  | String c s' =>
      match digit_val radix c with
      | Some d =>
          digits_prefix radix
            (Some (match acc with Some a => a * radix + d | None => d end)) s'
      | None => acc
      end
  end.

(** [parseInt(s, radix)]; a radix of [None] is the one-argument call, which
    reads a [0x] prefix as hexadecimal.  [None] is [NaN]. *)
Definition parseInt (s : string) (radix : option Z) : option Z :=
  let s1 := skip_ws s in
  let '(sign, s2) :=
    match s1 with
    | String "-" r => (-1, r)
    | String "+" r => (1, r)
    | _ => (1, s1)
    end in
  let '(r, s3) :=
    match radix, s2 with
    | None, String "0" (String "x" r) => (16, r)
    | None, String "0" (String "X" r) => (16, r)
    | None, _ => (10, s2)
    | Some r, _ => (r, s2)
    end in
  match digits_prefix r None s3 with
  | Some n => Some (sign * n)
  | None => None
  end.

(** [a < b] and [a <= b] on numbers where [b] may be [NaN]. *)
Definition lt_num (a : Z) (b : option Z) : bool :=
  match b with Some b' => a <? b' | None => false end.

End Js.
Export Js.

(* ================================================================== *)
(** * Effects: exceptions, emitted events, the world *)
(* ================================================================== *)

(** What a [throw] carries. *)
Inductive JsError : Type :=
| GenericError (message : string)
| TypeError (message : string)
| APIError (code : option string) (status : option Z) (message : string)
| HttpException (status : Z) (retryAfter : Z).

Definition error_message (e : JsError) : string :=
  match e with
  | GenericError m | TypeError m | APIError _ _ m => m
  | HttpException _ _ => "Http Exception"
  end.

Inductive result (A : Type) : Type :=
| Ok (a : A)
| Throw (e : JsError).
Arguments Ok {A} a.
Arguments Throw {A} e.

(** [StreamingUpdate] of [dto/agent.dto.ts]; the timestamp, a reading of
    the wall clock, is left out. *)
Inductive UpdateType : Type :=
| k_status | k_thinking | k_tool_start | k_tool_progress | k_tool_complete
| k_content | k_content_stream | k_complete
| k_reasoning_start | k_reasoning_progress | k_reasoning_complete.

Global Instance UpdateType_eq_dec : EqDecision UpdateType.
Proof. solve_decision. Defined.

Module StreamingUpdate.
Record Reasoning : Type := {
    tokens : option Z;
    effort : option string
  }.

Record t : Type := {
    type : UpdateType;
    content : option jsval;
    toolName : option string;
    toolDescription : option string;
    data : option jsval;
    reasoning : option Reasoning
  }.
End StreamingUpdate.

(** An event with a type and a content only. *)
Definition update (t : UpdateType) (c : jsval) : StreamingUpdate.t :=
  {| StreamingUpdate.type := t; StreamingUpdate.content := Some c;
     StreamingUpdate.toolName := None; StreamingUpdate.toolDescription := None;
     StreamingUpdate.data := None; StreamingUpdate.reasoning := None |}.

(** A value held by the Redis server: an integer-encoded string, a string, or
    a value that the client hands back as something else than a string. *)
Inductive rval : Type :=
| RInt (n : Z)
| RStr (s : string)
| RRaw (v : jsval).

(** The remote Redis: its keys with their optional expiry instants (in
    seconds), and the commands to come that fail ([true] fails the command;
    past the end of the list every command is served). *)
Record RedisServer : Type := {
  kv : gmap string (rval * option Z);
  outages : list bool
}.

(** What a request can read and change outside its own variables. *)
Record World : Type := {
  now : Z;                              (* the clock, in seconds *)
  remote : RedisServer;
  completions : nat;                    (* completion requests issued *)
  executions : list (string * jsval);   (* tool executions, latest first *)
  responseHeaders : list (string * string)
}.

Definition with_remote (r : RedisServer) (w : World) : World :=
  {| now := now w; remote := r; completions := completions w;
     executions := executions w; responseHeaders := responseHeaders w |}.

(** A computation: it reads and changes the world, emits events, and
    returns or throws. *)
Record run (A : Type) : Type := Run {
  emitted : list StreamingUpdate.t;
  outcome : result A;
  world : World
}.
Arguments Run {A} emitted outcome world.
Arguments emitted {A} r.
Arguments outcome {A} r.
Arguments world {A} r.

Definition M (A : Type) : Type := World -> run A.

Definition ret {A} (a : A) : M A := fun w => Run [] (Ok a) w.

Definition throw {A} (e : JsError) : M A := fun w => Run [] (Throw e) w.

Definition bind {A B} (m : M A) (f : A -> M B) : M B :=
  fun w =>
    match m w with
    | Run ev (Ok a) w1 =>
        match f a w1 with
        | Run ev' o w2 => Run (ev ++ ev') o w2
        end
    | Run ev (Throw e) w1 => Run ev (Throw e) w1
    end.

(** [try { m } catch (e) { h e }] *)
Definition try_catch {A} (m : M A) (h : JsError -> M A) : M A :=
  fun w =>
    match m w with
    | Run ev (Ok a) w1 => Run ev (Ok a) w1
    | Run ev (Throw e) w1 =>
        match h e w1 with
        | Run ev' o w2 => Run (ev ++ ev') o w2
        end
    end.

(** [yield u] *)
Definition yield (u : StreamingUpdate.t) : M unit :=
  fun w => Run [u] (Ok tt) w.

Definition get_world : M World := fun w => Run [] (Ok w) w.

Definition modify (f : World -> World) : M unit :=
  fun w => Run [] (Ok tt) (f w).

Definition lift_result {A} (r : result A) : M A :=
  match r with Ok a => ret a | Throw e => throw e end.

Declare Scope eff_scope.
Delimit Scope eff_scope with eff.
Notation "x <- m ;; k" := (bind m (fun x => k))
  (at level 100, m at next level, right associativity) : eff_scope.
Notation "m ;;; k" := (bind m (fun _ => k))
  (at level 100, right associativity) : eff_scope.
Open Scope eff_scope.

(** [for (const x of xs) { body x }] threading the loop's variables [s]. *)
Fixpoint for_each {A S} (body : A -> S -> M S) (xs : list A) (s : S) : M S :=
  match xs with
  | [] => ret s
  | x :: xs' => s' <- body x s ;; for_each body xs' s'
  end.

(** [Promise.all([a, b])]: both requests are issued; the first rejection, if
    any, is the outcome. *)
Definition promise_all2 {A B} (a : M A) (b : M B) : M (A * B) :=
  fun w =>
    match a w with
    | Run eva oa wa =>
        match b wa with
        | Run evb ob wb =>
            Run (eva ++ evb)
                (match oa, ob with
                 | Ok x, Ok y => Ok (x, y)
                 | Throw e, _ => Throw e
                 | Ok _, Throw e => Throw e
                 end)
                wb
        end
    end.

(* ================================================================== *)
(** * The Redis client and [RedisService] (common/redis/redis.service.ts) *)
(* ================================================================== *)

Module Upstash.

(** The entry of a key that has not expired at instant [t]. *)
Definition live (t : Z) (m : gmap string (rval * option Z)) (k : string)
  : option (rval * option Z) :=
  match m !! k with
  | Some (v, Some e) => if e <=? t then None else Some (v, Some e)
  | Some (v, None) => Some (v, None)
  | None => None
  end.

(** One command sent to the server: it fails when the server is in an
    outage, and otherwise acts on the keys at the current instant. *)
Definition command {A}
  (f : Z -> gmap string (rval * option Z) ->
       result (A * gmap string (rval * option Z))) : M A :=
  fun w =>
    match outages (remote w) with
    | true :: rest =>
        Run [] (Throw (GenericError "fetch failed"))
            (with_remote {| kv := kv (remote w); outages := rest |} w)
    | o =>
        match f (now w) (kv (remote w)) with
        | Ok (a, m') =>
            Run [] (Ok a) (with_remote {| kv := m'; outages := tail o |} w)
        | Throw e =>
            Run [] (Throw e)
                (with_remote {| kv := kv (remote w); outages := tail o |} w)
        end
    end.

(** What [get] hands back for a stored value. *)
Definition reply (v : rval) : jsval :=
  match v with
  | RInt n => VStr (dec n)
  | RStr s => VStr s
  | RRaw x => x
  end.

Definition ping : M unit := command (fun _ m => Ok (tt, m)).

Definition get (key : string) : M jsval :=
  command (fun t m =>
    match live t m key with
    | Some (v, _) => Ok (reply v, m)
    | None => Ok (VNull, m)
    end).

Definition set (key value : string) : M unit :=
  command (fun _ m => Ok (tt, <[key := (RStr value, None)]> m)).

Definition setex (key : string) (ttlSeconds : Z) (value : string) : M unit :=
  command (fun t m =>
    if ttlSeconds <=? 0 then Throw (GenericError "ERR invalid expire time")
    else Ok (tt, <[key := (RStr value, Some (t + ttlSeconds))]> m)).

Definition del (key : string) : M unit :=
  command (fun _ m => Ok (tt, delete key m)).

(** The integer a stored value stands for, if it is one. *)
Definition as_integer (v : rval) : option Z :=
  match v with
  | RInt n => Some n
  | RStr s =>
      match parseInt s (Some 10) with
      | Some n => if String.eqb (dec n) s then Some n else None
      | None => None
      end
  | RRaw _ => None
  end.

Definition incr (key : string) : M Z :=
  command (fun t m =>
    match live t m key with
    | Some (v, e) =>
        match as_integer v with
        | Some n => Ok (n + 1, <[key := (RInt (n + 1), e)]> m)
        | None => Throw (GenericError "ERR value is not an integer")
        end
    | None => Ok (1, <[key := (RInt 1, None)]> m)
    end).

Definition expire (key : string) (ttlSeconds : Z) : M unit :=
  command (fun t m =>
    match live t m key with
    | Some (v, _) =>
        if ttlSeconds <=? 0 then Ok (tt, delete key m)
        else Ok (tt, <[key := (v, Some (t + ttlSeconds))]> m)
    | None => Ok (tt, m)
    end).

Definition ttl (key : string) : M Z :=
  command (fun t m =>
    match live t m key with
    | Some (_, Some e) => Ok (e - t, m)
    | Some (_, None) => Ok (-1, m)
    | None => Ok (-2, m)
    end).

Definition exists_ (key : string) : M Z :=
  command (fun t m =>
    match live t m key with
    | Some _ => Ok (1, m)
    | None => Ok (0, m)
    end).

End Upstash.

Module RedisService.

Inductive Redis : Type := UpstashClient.

Record t : Type := {
  isEnabled : bool;
  redis : option Redis
}.

(** [!this.isEnabled || !this.redis] *)
Definition off (rs : t) : bool :=
  negb (isEnabled rs) || negb (bool_decide (is_Some (redis rs))).

(** [onModuleInit]: the service a configuration yields; the connection is
    tested with a ping. *)
Definition onModuleInit (configService : gmap string string) : M t :=
  let url := configService !! "UPSTASH_REDIS_REST_URL" in
  let token := configService !! "UPSTASH_REDIS_REST_TOKEN" in
  if negb (opt_truthy url) || negb (opt_truthy token) then
    ret {| isEnabled := false; redis := None |}
  else
    try_catch
      (Upstash.ping ;;; ret {| isEnabled := true; redis := Some UpstashClient |})
      (fun _ => ret {| isEnabled := false; redis := None |}).

(** The keys: [`rate_limit:${identifier}`], [`blocked:${identifier}`] and
    [`tool_result:${toolName}:${argsHash}`]. *)
Definition rate_key (identifier : string) : string :=
  "rate_limit:" +:+ identifier.

Definition block_key (identifier : string) : string :=
  "blocked:" +:+ identifier.

Definition tool_key (toolName argsHash : string) : string :=
  "tool_result:" +:+ toolName +:+ ":" +:+ argsHash.

Arguments rate_key : simpl never.
Arguments block_key : simpl never.
Arguments tool_key : simpl never.

Section Methods.
Context (JSON_parse : string -> option jsval) (this : t).

  (** The methods log an error before they rethrow it; the log is not
      modelled, so [try { m } catch (e) { log; throw e }] is [m]. *)

Definition get (key : string) : M jsval :=
    if off this then ret VNull else Upstash.get key.

Definition set (key value : string) (ttlSeconds : option Z) : M unit :=
    if off this then ret tt
    else match ttlSeconds with
         | Some n => if n =? 0 then Upstash.set key value
                     else Upstash.setex key n value
         | None => Upstash.set key value
         end.

Definition del (key : string) : M unit :=
    if off this then ret tt else Upstash.del key.

Definition incr (key : string) : M Z :=
    if off this then ret 0 else Upstash.incr key.

Definition expire (key : string) (ttlSeconds : Z) : M unit :=
    if off this then ret tt else Upstash.expire key ttlSeconds.

Definition ttl (key : string) : M Z :=
    if off this then ret 0 else Upstash.ttl key.

Definition exists_ (key : string) : M bool :=
    if off this then ret false
    else (result <- Upstash.exists_ key ;; ret (result =? 1)).

  (** Rate limiting *)

Definition incrementRateLimit (identifier : string) (windowSeconds : Z)
    : M (Z * bool) :=
    if off this then ret (0, true)
    else
      let key := rate_key identifier in
      count <- Upstash.incr key ;;
      let isFirstRequest := count =? 1 in
      (if isFirstRequest then Upstash.expire key windowSeconds else ret tt) ;;;
      ret (count, isFirstRequest).

  (** The count read back is [None] when [parseInt] gives [NaN]. *)
Definition getRateLimitInfo (identifier : string) : M (option Z * Z) :=
    if off this then ret (Some 0, 0)
    else
      let key := rate_key identifier in
      ct <- promise_all2 (Upstash.get key) (Upstash.ttl key) ;;
      let '(count, ttl) := ct in
      ret (match count with
           | VStr s => if str_truthy s then parseInt s (Some 10) else Some 0
           | _ => Some 0
           end,
           ttl).

Definition setBlock (identifier : string) (durationSeconds : Z) : M unit :=
    if off this then ret tt
    else Upstash.setex (block_key identifier) durationSeconds "1".

Definition isBlocked (identifier : string) : M bool :=
    if off this then ret false
    else
      try_catch
        (result <- Upstash.exists_ (block_key identifier) ;;
         ret (result =? 1))
        (fun _ => ret false).

Definition getBlockInfo (identifier : string) : M (bool * Z) :=
    if off this then ret (false, 0)
    else
      try_catch
        (let key := block_key identifier in
         et <- promise_all2 (Upstash.exists_ key) (Upstash.ttl key) ;;
         let '(exists_, ttl) := et in
         ret (exists_ =? 1, ttl))
        (fun _ => ret (false, 0)).

  (** Caches *)

  (** [s.startsWith(p)] *)
Definition startsWith (s p : string) : bool := String.prefix p s.

  (** The read path shared by [getCachedResponse] and [getCachedToolResult],
      which differ in the key they read and in their log lines only. *)
Definition read_cached (cacheKey : string) : M jsval :=
    try_catch
      (cached <- Upstash.get cacheKey ;;
       if negb (truthy cached) then ret VNull
       else
         match cached with
         | VStr cachedString =>
             if String.eqb cachedString "[object Object]"
                || startsWith cachedString "[object "
             then Upstash.del cacheKey ;;; ret VNull
             else
               match JSON_parse cachedString with
               | Some v => ret v
               | None => Upstash.del cacheKey ;;; ret VNull
               end
         | _ => Upstash.del cacheKey ;;; ret VNull
         end)
      (fun _ => ret VNull).

Definition getCachedResponse (cacheKey : string) : M jsval :=
    if off this then ret VNull else read_cached cacheKey.

  (** The write path shared by [setCachedResponse] and
      [setCachedToolResult]. *)
Definition write_cached (cacheKey : string) (data : jsval) (ttlSeconds : Z)
    : M unit :=
    try_catch
      (match JSON_stringify data with
       | Some serializedData =>
           if String.eqb serializedData "[object Object]" then ret tt
           else Upstash.setex cacheKey ttlSeconds serializedData
       | None => ret tt
       end)
      (fun _ => ret tt).

Definition setCachedResponse (cacheKey : string) (data : jsval)
    (ttlSeconds : Z) : M unit :=
    if off this then ret tt else write_cached cacheKey data ttlSeconds.

Definition getCachedToolResult (toolName argsHash : string) : M jsval :=
    if off this then ret VNull else read_cached (tool_key toolName argsHash).

Definition setCachedToolResult (toolName argsHash : string) (result : jsval)
    (ttlSeconds : Z) : M unit :=
    if off this then ret tt
    else write_cached (tool_key toolName argsHash) result ttlSeconds.

End Methods.

(** [hash = ((hash << 5) - hash) + char; hash = hash & hash] *)
Definition hash_step (hash : Z) (char : ascii) : Z :=
  to_int32 (to_int32 (Z.shiftl hash 5) - hash + Z.of_N (N_of_ascii char)).

Definition simpleHash (str : string) : string :=
  hex (Z.abs (fold_left hash_step (list_ascii_of_string str) 0)).

(** [generateToolCacheKey]; it throws when [Object.keys] does, and when
    [JSON.stringify] gives [undefined], on which [simpleHash] reads
    [length]. *)
Definition generateToolCacheKey (toolName : string) (args : jsval)
  : result string :=
  match Object_keys args with
  | None => Throw (TypeError "Cannot convert undefined or null to object")
  | Some names =>
      match JSON_stringify_with args (sort names) with
      | Some argsString => Ok (simpleHash argsString)
      | None => Throw (TypeError "Cannot read properties of undefined")
      end
  end.

End RedisService.

(* ================================================================== *)
(** * [RateLimitGuard] (common/guards/rate-limit.guard.ts) *)
(* ================================================================== *)

Module RateLimitGuard.

Inductive header : Type :=
| HStr (s : string)
| HList (l : list string).

(** The parts of an Express request that the guard reads. *)
Record Request : Type := {
  x_forwarded_for : option header;
  x_real_ip : option string;
  ip : option string;
  remoteAddress : option string
}.

Record RateLimitResult : Type := {
  allowed : bool;
  blocked : bool;
  remaining : Z;
  resetTime : Z;
  blockExpiresAt : option Z
}.

(** The guard after its constructor has run: the fields hold the integers
    read from the configuration. *)
Record t : Type := {
  redisService : RedisService.t;
  enabled : bool;
  maxRequests : Z;
  windowSeconds : Z;
  blockDurationSeconds : Z
}.

(** [s.split(',')[0]] *)
Fixpoint before_comma (s : string) : string :=
  match s with
  | EmptyString => ""
  | String c s' =>
      if Ascii.eqb c ","%char then "" else String c (before_comma s')
  end.

(** [a || b] on optional strings *)
Definition or_opt (a b : option string) : option string :=
  if opt_truthy a then a else b.

Definition getClientIdentifier (request : Request) : string :=
  let forwarded := x_forwarded_for request in
  let ip :=
    match forwarded with
    | Some (HStr s) =>
        if str_truthy s then Some (before_comma s)
        else or_opt (x_real_ip request)
               (or_opt (ip request)
                  (or_opt (remoteAddress request) (Some "unknown")))
    | Some (HList l) => head l
    | None =>
        or_opt (x_real_ip request)
          (or_opt (ip request)
             (or_opt (remoteAddress request) (Some "unknown")))
    end in
  "ip:" +:+ match ip with Some s => s | None => "undefined" end.

(** [Math.ceil(a / 1000)] *)
Definition ceil_div_1000 (a : Z) : Z := - ((- a) / 1000).

Section Methods.
Context (this : t).

  (** [Date.now()], in milliseconds *)
Definition Date_now : M Z := w <- get_world ;; ret (now w * 1000).

Definition checkRateLimit (identifier : string) : M RateLimitResult :=
    blockInfo <- RedisService.getBlockInfo (redisService this) identifier ;;
    let '(isBlocked, ttl) := blockInfo in
    if isBlocked then
      t0 <- Date_now ;;
      ret {| allowed := false; blocked := true; remaining := 0;
             resetTime := t0 + ttl * 1000;
             blockExpiresAt := Some (ttl * 1000) |}
    else
      ci <- RedisService.incrementRateLimit (redisService this) identifier
              (windowSeconds this) ;;
      let '(count, isFirstRequest) := ci in
      let allowed := count <=? maxRequests this in
      let remaining := Z.max 0 (maxRequests this - count) in
      resetTime <-
        (if isFirstRequest then
           t0 <- Date_now ;; ret (t0 + windowSeconds this * 1000)
         else
           rateLimitInfo <-
             RedisService.getRateLimitInfo (redisService this) identifier ;;
           t0 <- Date_now ;; ret (t0 + snd rateLimitInfo * 1000)) ;;
      ret {| allowed := allowed; blocked := false; remaining := remaining;
             resetTime := resetTime; blockExpiresAt := None |}.

Definition TOO_MANY_REQUESTS : Z := 429.

  (** [response.set({...})]; the reset instant is kept in milliseconds
      rather than rendered as an ISO date. *)
Definition set_headers (result : RateLimitResult) : M unit :=
    modify (fun w =>
      {| now := now w; remote := remote w; completions := completions w;
         executions := executions w;
         responseHeaders :=
           [("X-RateLimit-Limit", dec (maxRequests this));
            ("X-RateLimit-Remaining", dec (remaining result));
            ("X-RateLimit-Reset", dec (resetTime result))] |}).

  (** [canActivate]: [true] admits the request, a thrown [HttpException]
      rejects it. *)
Definition canActivate (request : Request) : M bool :=
    if negb (enabled this) then ret true
    else
      let identifier := getClientIdentifier request in
      try_catch
        (result <- checkRateLimit identifier ;;
         if blocked result then
           throw (HttpException TOO_MANY_REQUESTS
                    (ceil_div_1000
                       (match blockExpiresAt result with
                        | Some b => b
                        | None => 0
                        end)))
         else if negb (allowed result) then
           RedisService.setBlock (redisService this) identifier
             (blockDurationSeconds this) ;;;
           throw (HttpException TOO_MANY_REQUESTS (blockDurationSeconds this))
         else
           set_headers result ;;; ret true)
        (fun error =>
           match error with
           | HttpException _ _ => throw error
           | _ => ret true   (* fail open *)
           end).

End Methods.

End RateLimitGuard.

(* ================================================================== *)
(** * [AgentService] (agent/agent.service.ts) *)
(* ================================================================== *)

Module ToolCall.
  (** [ChatCompletionMessageToolCall]: [{id, type: 'function',
      function: {name, arguments}}] *)
Record t : Type := {
    id : string;
    name : string;
    arguments : string
  }.
End ToolCall.

Module Message.
  (** [ConversationMessage] and [ChatCompletionMessageParam] have the same
      fields once the timestamp is left out.  A content of [None] is
      [null] or [undefined]. *)
Record t : Type := {
    role : string;
    content : option string;
    tool_calls : option (list ToolCall.t);
    tool_call_id : option string
  }.
End Message.

Module Memory.
Record t : Type := {
    key : string;
    value : string;
    category : option string
  }.
End Memory.

Module AgentRequest.
Record t : Type := {
    message : string;
    conversationHistory : option (list Message.t);
    sessionId : option string;
    userIp : option string;
    memories : option (list Memory.t)
  }.
End AgentRequest.

Module AgentResponse.
Record t : Type := {
    message : string;
    conversationHistory : list Message.t;
    sessionId : string;
    toolCalls : option (list ToolCall.t);
    completed : bool
  }.
End AgentResponse.

Module Tool.
  (** [Tool] of [tools/tool.interface.ts].  [execute] is given the number
      of executions made so far, so that two runs on the same arguments may
      differ. *)
Record t : Type := {
    name : string;
    description : string;
    execute : nat -> jsval -> result jsval
  }.
End Tool.

Module OpenAI.
  (** The message of the first choice of a completion. *)
Record Completion : Type := {
    content : option string;
    tool_calls : option (list ToolCall.t)
  }.

Record ToolCallDelta : Type := {
    index : option nat;
    id : option string;
    fn_name : option string;
    fn_arguments : option string
  }.

Record Delta : Type := {
    d_content : option string;
    d_tool_calls : option (list ToolCallDelta)
  }.

Record Usage : Type := {
    completion_tokens : option Z;
    reasoning_tokens : option Z
  }.

  (** [delta] is [chunk.choices[0]?.delta]. *)
Record Chunk : Type := {
    delta : option Delta;
    usage : option Usage
  }.

  (** A streamed completion: the chunks it delivers, and the error that
      ends it, if one does. *)
Record Stream : Type := {
    chunks : list Chunk;
    failure : option JsError
  }.

  (** The client.  Each request is answered from its sequence number and
      its message list; the other parameters are fixed by configuration. *)
Record t : Type := {
    create : nat -> list Message.t -> result Completion;
    create_stream : nat -> list Message.t -> result Stream
  }.
End OpenAI.

Module AgentService.

Record t : Type := {
  openai : option OpenAI.t;
  configService : gmap string string;
  toolRegistry : gmap string Tool.t;
  redisService : RedisService.t;
  systemPrompt : string;
  isReasoningModel : bool;
  reasoningEffort : string;
  cacheEnabled : bool;
  cacheTtlSeconds : Z;
  toolCacheEnabled : bool;
  toolCacheTtlSeconds : Z
}.

(** [configService.get(key, dflt)] *)
Definition config_get (cfg : gmap string string) (key dflt : string) : string :=
  default dflt (cfg !! key).

(** Whether [onModuleInit] creates the client: [!apiKey] leaves it [null]. *)
Definition has_credential (cfg : gmap string string) : bool :=
  opt_truthy (cfg !! "OPENAI_API_KEY").

(** What a request returns: a response built by this request, or the object
    read from the response cache with the session id replaced. *)
Inductive Reply : Type :=
| Fresh (r : AgentResponse.t)
| FromCache (fields : list (string * jsval)).

(** What [processConversationWithTools] returns. *)
Record FinalMessage : Type := {
  content : string;
  toolResults : option (list (string * jsval))
}.

Definition GUIDANCE : string :=
  "Configure your API key to enable responses (set OPENAI_API_KEY).".

Definition MAX_TOOL_CALLS : string :=
  "I reached the maximum number of tool calls.".

(** ** Values as JSON *)

Definition opt_str (o : option string) : jsval :=
  match o with Some s => VStr s | None => VUndefined end.

Definition toolcall_js (c : ToolCall.t) : jsval :=
  VObj [("id", VStr (ToolCall.id c)); ("type", VStr "function");
        ("function", VObj [("name", VStr (ToolCall.name c));
                           ("arguments", VStr (ToolCall.arguments c))])].

Definition opt_calls_js (o : option (list ToolCall.t)) : jsval :=
  match o with Some l => VArr (map toolcall_js l) | None => VUndefined end.

Definition message_js (m : Message.t) : jsval :=
  VObj [("role", VStr (Message.role m));
        ("content", match Message.content m with
                    | Some s => VStr s
                    | None => VNull
                    end);
        ("tool_calls", opt_calls_js (Message.tool_calls m));
        ("tool_call_id", opt_str (Message.tool_call_id m))].

Definition response_js (r : AgentResponse.t) : jsval :=
  VObj [("message", VStr (AgentResponse.message r));
        ("conversationHistory",
         VArr (map message_js (AgentResponse.conversationHistory r)));
        ("sessionId", VStr (AgentResponse.sessionId r));
        ("toolCalls", opt_calls_js (AgentResponse.toolCalls r));
        ("completed", VBool (AgentResponse.completed r))].

(** [{...v}]: the own enumerable properties of a value. *)
Definition spread_val (v : jsval) : list (string * jsval) :=
  match v with
  | VObj fs => fs
  | VArr items => imap (fun i x => (dec (Z.of_nat i), x)) items
  | VStr s =>
      imap (fun i c => (dec (Z.of_nat i), VStr (String c "")))
        (list_ascii_of_string s)
  | _ => []
  end.

(** [Object.keys(o).length > 0 ? o : undefined] *)
Definition nonempty_or_undefined (o : list (string * jsval))
  : option (list (string * jsval)) :=
  match o with [] => None | _ => Some o end.

(** ** Conversion of the history *)

(** [history.map(...)]: a [data] role becomes [assistant]. *)
Definition preprocess (msg : Message.t) : Message.t :=
  if String.eqb (Message.role msg) "data" then
    {| Message.role := "assistant"; Message.content := Message.content msg;
       Message.tool_calls := Message.tool_calls msg;
       Message.tool_call_id := Message.tool_call_id msg |}
  else msg.

(** The predicate of [preprocessedHistory.filter(...)]. *)
Definition keep (msg : Message.t) : bool :=
  if String.eqb (Message.role msg) "user" || String.eqb (Message.role msg) "tool"
  then opt_truthy (Message.content msg)
  else if String.eqb (Message.role msg) "assistant" then
    opt_truthy (Message.content msg)
    || match Message.tool_calls msg with
       | Some calls => (0 <? Z.of_nat (length calls))
       | None => false
       end
  else true.

(** The body of [filteredHistory.map(...)]; an unknown role throws. *)
Definition to_openai (msg : Message.t) : result Message.t :=
  let role := Message.role msg in
  if String.eqb role "user" then
    Ok {| Message.role := "user"; Message.content := Message.content msg;
          Message.tool_calls := None; Message.tool_call_id := None |}
  else if String.eqb role "assistant" then
    Ok {| Message.role := "assistant";
          Message.content :=
            if opt_truthy (Message.content msg) then Message.content msg
            else None;
          Message.tool_calls := Message.tool_calls msg;
          Message.tool_call_id := None |}
  else if String.eqb role "tool" then
    Ok {| Message.role := "tool"; Message.content := Message.content msg;
          Message.tool_calls := None;
          Message.tool_call_id := Message.tool_call_id msg |}
  else if String.eqb role "system" then
    Ok {| Message.role := "system"; Message.content := Message.content msg;
          Message.tool_calls := None; Message.tool_call_id := None |}
  else Throw (GenericError ("Unknown or invalid message role: " +:+ role)).

(** [xs.map(f)] for an [f] that may throw: the first throw ends it. *)
Fixpoint map_result {A B} (f : A -> result B) (xs : list A) : result (list B) :=
  match xs with
  | [] => Ok []
  | x :: xs' =>
      match f x with
      | Ok y =>
          match map_result f xs' with
          | Ok ys => Ok (y :: ys)
          | Throw e => Throw e
          end
      | Throw e => Throw e
      end
  end.

Definition convertConversationToOpenAI (history : list Message.t)
  : result (list Message.t) :=
  let preprocessedHistory := map preprocess history in
  let filteredHistory := List.filter keep preprocessedHistory in
  map_result to_openai filteredHistory.

(** [simpleHash], as in [RedisService]. *)
Definition simpleHash (str : string) : string :=
  hex (Z.abs (fold_left RedisService.hash_step (list_ascii_of_string str) 0)).

(** [generateCacheKey]; the history is hashed through its JSON text. *)
Definition generateCacheKey (request : AgentRequest.t) : string :=
  let messageHash := simpleHash (AgentRequest.message request) in
  let historyHash :=
    match AgentRequest.conversationHistory request with
    | Some h =>
        simpleHash (default "" (JSON_stringify (VArr (map message_js h))))
    | None => "0"
    end in
  "agent_response:" +:+ messageHash +:+ ":" +:+ historyHash.

Definition user_message (text : string) : Message.t :=
  {| Message.role := "user"; Message.content := Some text;
     Message.tool_calls := None; Message.tool_call_id := None |}.

Definition system_message (text : string) : Message.t :=
  {| Message.role := "system"; Message.content := Some text;
     Message.tool_calls := None; Message.tool_call_id := None |}.

Definition tool_message (text : option string) (call_id : string) : Message.t :=
  {| Message.role := "tool"; Message.content := text;
     Message.tool_calls := None; Message.tool_call_id := Some call_id |}.

(** [{ error: `Unknown tool: ${toolName}` }] *)
Definition unknown_tool (toolName : string) : jsval :=
  VObj [("error", VStr ("Unknown tool: " +:+ toolName))].

(** The result recorded when parsing the arguments or running the tool
    throws. *)
Definition execution_error (toolName call_id : string) (e : JsError) : jsval :=
  VObj [("error", VStr ("Error executing " +:+ toolName +:+ ": "
                        +:+ error_message e));
        ("toolName", VStr toolName);
        ("toolCallId", VStr call_id)].

(** [toolResult && typeof toolResult === 'object' && !toolResult.error] *)
Definition cacheable (toolResult : jsval) : bool :=
  truthy toolResult && String.eqb (typeof toolResult) "object"
  && negb (truthy (get_prop toolResult "error")).

(** The message shown for an error caught by an entry point. *)
Definition error_text (error : JsError) : string :=
  match error with
  | APIError code status _ =>
      if bool_decide (code = Some "overloaded_error") then
        "The service is currently overloaded. Please try again in a few moments."
      else if bool_decide (status = Some 400) then
        "I'm sorry, I couldn't process that. There seems to be an issue with the information provided."
      else
        "I apologize, but I encountered an error processing your request. Please try again."
  | _ =>
      "I apologize, but I encountered an error processing your request. Please try again."
  end.

Section Methods.
  (** The host: [JSON.parse] ([None] is its [SyntaxError]); the system
      prompt with its placeholders filled in, which reads the wall clock;
      a fresh session id, which reads the clock and a random number; the
      text of [prompts/mock.json] ([None] when it cannot be read); the
      humanized thinking time. *)
Context (JSON_parse : string -> option jsval)
          (replacePlaceholders : string -> option (list Memory.t) -> string)
          (generateSessionId : World -> string)
          (mockFile : option string)
          (durationText : string).
Context (this : t).

Definition parse_json (s : string) : M jsval :=
    match JSON_parse s with
    | Some v => ret v
    | None => throw (GenericError "Unexpected token in JSON")
    end.

  (** [request.sessionId || this.generateSessionId()] *)
Definition session_of (request : AgentRequest.t) : M string :=
    if opt_truthy (AgentRequest.sessionId request)
    then ret (default "" (AgentRequest.sessionId request))
    else (w <- get_world ;; ret (generateSessionId w)).

  (** [tool.execute({ ...toolArgs, userIp })], recorded in the world. *)
Definition run_tool (tool : Tool.t) (toolName : string) (toolArgs : jsval)
    (userIp : option string) : M jsval :=
    let args := VObj (assoc_set "userIp" (opt_str userIp) (spread_val toolArgs)) in
    w <- get_world ;;
    modify (fun w =>
      {| now := now w; remote := remote w; completions := completions w;
         executions := (toolName, args) :: executions w;
         responseHeaders := responseHeaders w |}) ;;;
    lift_result (Tool.execute tool (length (executions w)) args).

  (** The cache lookup of a tool call: [null] when caching is off, when the
      key cannot be derived, and on a miss. *)
Definition lookup_tool_cache (toolName : string) (toolArgs : jsval)
    : M jsval :=
    if toolCacheEnabled this then
      try_catch
        (argsHash <- lift_result
                       (RedisService.generateToolCacheKey toolName toolArgs) ;;
         RedisService.getCachedToolResult JSON_parse (redisService this)
           toolName argsHash)
        (fun _ => ret VNull)
    else ret VNull.

  (** The write-through of a result, for the results that qualify. *)
Definition store_tool_cache (toolName : string) (toolArgs toolResult : jsval)
    : M unit :=
    if toolCacheEnabled this && cacheable toolResult then
      try_catch
        (argsHash <- lift_result
                       (RedisService.generateToolCacheKey toolName toolArgs) ;;
         RedisService.setCachedToolResult (redisService this) toolName argsHash
           toolResult (toolCacheTtlSeconds this))
        (fun _ => ret tt)
    else ret tt.

  (** One turn of the loop of [executeToolCalls]. *)
Definition executeToolCall (userIp : option string) (toolCall : ToolCall.t)
    (results : list (string * jsval)) : M (list (string * jsval)) :=
    let toolName := ToolCall.name toolCall in
    match toolRegistry this !! toolName with
    | None =>
        ret (assoc_set (ToolCall.id toolCall) (unknown_tool toolName) results)
    | Some tool =>
        try_catch
          (toolArgs <- parse_json (ToolCall.arguments toolCall) ;;
           cached <- lookup_tool_cache toolName toolArgs ;;
           if truthy cached then
             ret (assoc_set (ToolCall.id toolCall) cached results)
           else
             toolResult <- run_tool tool toolName toolArgs userIp ;;
             store_tool_cache toolName toolArgs toolResult ;;;
             ret (assoc_set (ToolCall.id toolCall) toolResult results))
          (fun error =>
             ret (assoc_set (ToolCall.id toolCall)
                    (execution_error toolName (ToolCall.id toolCall) error)
                    results))
    end.

Definition executeToolCalls (toolCalls : list ToolCall.t)
    (userIp : option string) : M (list (string * jsval)) :=
    for_each (executeToolCall userIp) toolCalls [].

  (** The [tool] messages pushed after a turn: one per call, carrying
      [JSON.stringify(currentToolResults[toolCall.id])]. *)
Definition tool_messages (toolCalls : list ToolCall.t)
    (currentToolResults : list (string * jsval)) : list Message.t :=
    map (fun toolCall =>
           tool_message
             (JSON_stringify
                (default VUndefined
                   (assoc (ToolCall.id toolCall) currentToolResults)))
             (ToolCall.id toolCall))
        toolCalls.

  (** A completion request, counted in the world. *)
Definition request_completion {A} (f : nat -> list Message.t -> result A)
    (messages : list Message.t) : M A :=
    w <- get_world ;;
    modify (fun w =>
      {| now := now w; remote := remote w; completions := S (completions w);
         executions := executions w;
         responseHeaders := responseHeaders w |}) ;;;
    lift_result (f (completions w) messages).

  (** [currentMessages.filter(m => m.role === 'assistant').pop()] *)
Definition last_assistant (currentMessages : list Message.t)
    : option Message.t :=
    last (List.filter (fun m => String.eqb (Message.role m) "assistant")
            currentMessages).

  (** The loop of [processConversationWithTools].  [iterations] only changes
      by the increment that ends the body, so the loop is written on the
      number of turns left, [maxIterations - iterations]. *)
Fixpoint conversation_loop (client : OpenAI.t) (userIp : option string)
    (left : nat) (currentMessages : list Message.t)
    (toolResults : list (string * jsval)) : M FinalMessage :=
    match left with
    | O =>
        let lastAssistantMessage := last_assistant currentMessages in
        ret {| content :=
                 match lastAssistantMessage with
                 | Some {| Message.content := Some s |} => s
                 | _ => MAX_TOOL_CALLS
                 end;
               toolResults := nonempty_or_undefined toolResults |}
    | S left' =>
        assistantMessage <-
          request_completion (OpenAI.create client) currentMessages ;;
        match OpenAI.tool_calls assistantMessage with
        | None | Some [] =>
            ret {| content :=
                     or_else (OpenAI.content assistantMessage)
                       "I couldn't process your request.";
                   toolResults := nonempty_or_undefined toolResults |}
        | Some toolCalls =>
            currentToolResults <- executeToolCalls toolCalls userIp ;;
            conversation_loop client userIp left'
              (currentMessages
               ++ [{| Message.role := "assistant";
                      Message.content := OpenAI.content assistantMessage;
                      Message.tool_calls := Some toolCalls;
                      Message.tool_call_id := None |}]
               ++ tool_messages toolCalls currentToolResults)
              (spread toolResults currentToolResults)
        end
    end.

Definition processConversationWithTools (messages : list Message.t)
    (userIp : option string) : M FinalMessage :=
    match openai this with
    | None => ret {| content := GUIDANCE; toolResults := None |}
    | Some client =>
        let maxIterations := 5 in
        conversation_loop client userIp (Z.to_nat maxIterations) messages []
    end.

  (** The history as the entry points see it after the user message has
      been pushed onto the array the request carries. *)
Definition pushed_history (request : AgentRequest.t) : list Message.t :=
    default [] (AgentRequest.conversationHistory request)
    ++ [user_message (AgentRequest.message request)].

  (** [request.conversationHistory || []] read in the error handler, after
      the push. *)
Definition history_after_push (request : AgentRequest.t) : list Message.t :=
    match AgentRequest.conversationHistory request with
    | Some h => h ++ [user_message (AgentRequest.message request)]
    | None => []
    end.

  (** The request as [generateCacheKey] reads it at the end of
      [processRequest]: the history array it carries, if it carries one, is
      the array the messages were pushed onto. *)
Definition request_after (request : AgentRequest.t)
    (conversationHistory : list Message.t) : AgentRequest.t :=
    match AgentRequest.conversationHistory request with
    | Some _ =>
        {| AgentRequest.message := AgentRequest.message request;
           AgentRequest.conversationHistory := Some conversationHistory;
           AgentRequest.sessionId := AgentRequest.sessionId request;
           AgentRequest.userIp := AgentRequest.userIp request;
           AgentRequest.memories := AgentRequest.memories request |}
    | None => request
    end.

Definition processRequest (request : AgentRequest.t) : M Reply :=
    match openai this with
    | None =>
        sessionId <- session_of request ;;
        ret (Fresh
               {| AgentResponse.message := GUIDANCE;
                  AgentResponse.conversationHistory :=
                    default [] (AgentRequest.conversationHistory request);
                  AgentResponse.sessionId := sessionId;
                  AgentResponse.toolCalls := None;
                  AgentResponse.completed := true |})
    | Some _ =>
        sessionId <- session_of request ;;
        cachedResponse <-
          (if cacheEnabled this then
             RedisService.getCachedResponse JSON_parse (redisService this)
               (generateCacheKey request)
           else ret VNull) ;;
        if cacheEnabled this && truthy cachedResponse then
          ret (FromCache
                 (assoc_set "sessionId" (VStr sessionId)
                    (spread_val cachedResponse)))
        else
          try_catch
            (let conversationHistory := pushed_history request in
             let systemPromptWithContext :=
               replacePlaceholders (systemPrompt this)
                 (AgentRequest.memories request) in
             converted <-
               lift_result (convertConversationToOpenAI conversationHistory) ;;
             let messages :=
               system_message systemPromptWithContext :: converted in
             finalMessage <-
               processConversationWithTools messages
                 (AgentRequest.userIp request) ;;
             let conversationHistory :=
               conversationHistory
               ++ [{| Message.role := "assistant";
                      Message.content := Some (content finalMessage);
                      Message.tool_calls := None;
                      Message.tool_call_id := None |}]
               ++ match toolResults finalMessage with
                  | Some rs =>
                      map (fun r => tool_message (JSON_stringify (snd r)) (fst r))
                        rs
                  | None => []
                  end in
             let response :=
               {| AgentResponse.message :=
                    or_else (Some (content finalMessage))
                      "I apologize, but I couldn't process your request.";
                  AgentResponse.conversationHistory := conversationHistory;
                  AgentResponse.sessionId := sessionId;
                  AgentResponse.toolCalls := None;
                  AgentResponse.completed := true |} in
             (if cacheEnabled this then
                RedisService.setCachedResponse (redisService this)
                  (generateCacheKey (request_after request conversationHistory))
                  (response_js response) (cacheTtlSeconds this)
              else ret tt) ;;;
             ret (Fresh response))
            (fun error =>
               sessionId' <- session_of request ;;
               ret (Fresh
                      {| AgentResponse.message := error_text error;
                         AgentResponse.conversationHistory :=
                           history_after_push request;
                         AgentResponse.sessionId := sessionId';
                         AgentResponse.toolCalls := None;
                         AgentResponse.completed := false |}))
    end.

  (** ** The streaming path *)

  (** The variables of one streamed turn. *)
Record Turn : Type := {
    t_content : string;
    t_tool_calls : list (option ToolCall.t);   (* an array that may have holes *)
    reasoningTokens : Z;
    completionTokens : Z;
    reasoningComplete : bool
  }.

  (** [a[i] = x] on an array that may have holes: past the end, the array
      grows. *)
Definition array_set {A} (i : nat) (x : A) (a : list (option A))
    : list (option A) :=
    if decide (i < length a)%nat then <[i := Some x]> a
    else a ++ replicate (i - length a) None ++ [Some x].

  (** One entry of [delta.tool_calls]. *)
Definition on_tool_call_delta (calls : list (option ToolCall.t))
    (toolCall : OpenAI.ToolCallDelta) : list (option ToolCall.t) :=
    match OpenAI.index toolCall with
    | None => calls
    | Some i =>
        match mjoin (calls !! i) with
        | None =>
            array_set i
              {| ToolCall.id := or_else (OpenAI.id toolCall) "";
                 ToolCall.name := or_else (OpenAI.fn_name toolCall) "";
                 ToolCall.arguments := or_else (OpenAI.fn_arguments toolCall) "" |}
              calls
        | Some existing =>
            if opt_truthy (OpenAI.fn_arguments toolCall) then
              <[i := Some {| ToolCall.id := ToolCall.id existing;
                             ToolCall.name := ToolCall.name existing;
                             ToolCall.arguments :=
                               ToolCall.arguments existing
                               +:+ default "" (OpenAI.fn_arguments toolCall) |}]>
                calls
            else calls
        end
    end.

Definition reasoning_event (t : UpdateType) (text : string) (tokens : option Z)
    : StreamingUpdate.t :=
    {| StreamingUpdate.type := t; StreamingUpdate.content := Some (VStr text); StreamingUpdate.toolName := None;
       StreamingUpdate.toolDescription := None; StreamingUpdate.data := None;
       StreamingUpdate.reasoning := Some {| StreamingUpdate.tokens := tokens;
                            StreamingUpdate.effort := Some (reasoningEffort this) |} |}.

  (** The body of [for await (const chunk of response)]. *)
Definition on_chunk (chunk : OpenAI.Chunk) (turn : Turn) : M Turn :=
    let delta_content := d_content ← OpenAI.delta chunk; OpenAI.d_content d_content in
    let newReasoningTokens :=
      default 0 (u ← OpenAI.usage chunk; OpenAI.reasoning_tokens u) in
    turn1 <-
      (if isReasoningModel this && negb (newReasoningTokens =? 0)
          && (reasoningTokens turn <? newReasoningTokens)
       then
         yield (reasoning_event k_reasoning_progress "Thinking..."
                  (Some newReasoningTokens)) ;;;
         ret {| t_content := t_content turn;
                t_tool_calls := t_tool_calls turn;
                reasoningTokens := newReasoningTokens;
                completionTokens := completionTokens turn;
                reasoningComplete := reasoningComplete turn |}
       else ret turn) ;;
    turn2 <-
      (if isReasoningModel this && opt_truthy delta_content
          && negb (reasoningComplete turn1)
       then
         yield (reasoning_event k_reasoning_complete
                  ("Thought for " +:+ durationText)
                  (Some (reasoningTokens turn1))) ;;;
         ret {| t_content := t_content turn1;
                t_tool_calls := t_tool_calls turn1;
                reasoningTokens := reasoningTokens turn1;
                completionTokens := completionTokens turn1;
                reasoningComplete := true |}
       else ret turn1) ;;
    turn3 <-
      (if opt_truthy delta_content then
         yield (update k_content_stream (VStr (default "" delta_content))) ;;;
         ret {| t_content := t_content turn2 +:+ default "" delta_content;
                t_tool_calls := t_tool_calls turn2;
                reasoningTokens := reasoningTokens turn2;
                completionTokens := completionTokens turn2;
                reasoningComplete := reasoningComplete turn2 |}
       else ret turn2) ;;
    let calls :=
      match d ← OpenAI.delta chunk; OpenAI.d_tool_calls d with
      | Some deltas => fold_left on_tool_call_delta deltas (t_tool_calls turn3)
      | None => t_tool_calls turn3
      end in
    let tokens := default 0 (u ← OpenAI.usage chunk; OpenAI.completion_tokens u) in
    ret {| t_content := t_content turn3;
           t_tool_calls := calls;
           reasoningTokens := reasoningTokens turn3;
           completionTokens :=
             if tokens =? 0 then completionTokens turn3 else tokens;
           reasoningComplete := reasoningComplete turn3 |}.

  (** The closing [content] event of the streaming path; [toolResults] is
      never filled in on this path, so its [data] holds [undefined]. *)
Definition final_content (text : string) : StreamingUpdate.t :=
    {| StreamingUpdate.type := k_content; StreamingUpdate.content := Some (VStr text);
       StreamingUpdate.toolName := None; StreamingUpdate.toolDescription := None;
       StreamingUpdate.data := Some (VObj [("toolResults", VUndefined)]); StreamingUpdate.reasoning := None |}.

Definition tool_complete (toolName text call_id : string) (result : jsval)
    : StreamingUpdate.t :=
    {| StreamingUpdate.type := k_tool_complete; StreamingUpdate.content := Some (VStr text);
       StreamingUpdate.toolName := Some toolName; StreamingUpdate.toolDescription := None;
       StreamingUpdate.data := Some (VObj [(call_id, result)]); StreamingUpdate.reasoning := None |}.

  (** One turn of the loop over the tool calls of a streamed turn; a hole in
      the array throws when its [function] is read. *)
Definition streamToolCall (userIp : option string)
    (entry : option ToolCall.t) (currentToolResults : list (string * jsval))
    : M (list (string * jsval)) :=
    match entry with
    | None =>
        throw (TypeError "Cannot read properties of undefined (reading 'function')")
    | Some toolCall =>
        let toolName := ToolCall.name toolCall in
        let tool := toolRegistry this !! toolName in
        yield {| StreamingUpdate.type := k_tool_start; StreamingUpdate.content := None;
                 StreamingUpdate.toolName := Some toolName;
                 StreamingUpdate.toolDescription := Tool.description <$> tool;
                 StreamingUpdate.data := None; StreamingUpdate.reasoning := None |} ;;;
        match tool with
        | None =>
            let errorResult := unknown_tool toolName in
            yield (tool_complete toolName ("Error: Unknown tool " +:+ toolName)
                     (ToolCall.id toolCall) errorResult) ;;;
            ret (assoc_set (ToolCall.id toolCall) errorResult currentToolResults)
        | Some tool =>
            try_catch
              (toolArgs <- parse_json (ToolCall.arguments toolCall) ;;
               cached <- lookup_tool_cache toolName toolArgs ;;
               result <-
                 (if truthy cached then ret cached
                  else
                    result <- run_tool tool toolName toolArgs userIp ;;
                    store_tool_cache toolName toolArgs result ;;;
                    ret result) ;;
               yield (tool_complete toolName "Processing completed successfully."
                        (ToolCall.id toolCall) result) ;;;
               ret (assoc_set (ToolCall.id toolCall) result currentToolResults))
              (fun error =>
                 let errorResult :=
                   execution_error toolName (ToolCall.id toolCall) error in
                 yield (tool_complete toolName
                          ("Error executing " +:+ toolName +:+ ": "
                           +:+ error_message error)
                          (ToolCall.id toolCall) errorResult) ;;;
                 ret (assoc_set (ToolCall.id toolCall) errorResult
                        currentToolResults))
        end
    end.

Definition new_turn : Turn :=
    {| t_content := ""; t_tool_calls := []; reasoningTokens := 0;
       completionTokens := 0; reasoningComplete := false |}.

  (** The loop of [processConversationWithToolsStream], on the number of
      turns left as in [conversation_loop]. *)
Fixpoint stream_loop (client : OpenAI.t) (userIp : option string)
    (left : nat) (currentMessages : list Message.t) : M unit :=
    match left with
    | O => yield (final_content MAX_TOOL_CALLS)
    | S left' =>
        (if isReasoningModel this then
           yield (reasoning_event k_reasoning_start "Thinking..." None)
         else ret tt) ;;;
        response <-
          request_completion (OpenAI.create_stream client) currentMessages ;;
        assistantMessage <-
          for_each on_chunk (OpenAI.chunks response) new_turn ;;
        match OpenAI.failure response with
        | Some e => throw e
        | None =>
            match t_tool_calls assistantMessage with
            | [] =>
                yield (final_content
                         (or_else (Some (t_content assistantMessage))
                            "I couldn't process your request."))
            | calls =>
                currentToolResults <-
                  for_each (streamToolCall userIp) calls [] ;;
                let toolCalls := omap (fun c => c) calls in
                stream_loop client userIp left'
                  (currentMessages
                   ++ [{| Message.role := "assistant";
                          Message.content :=
                            if str_truthy (t_content assistantMessage)
                            then Some (t_content assistantMessage) else None;
                          Message.tool_calls := Some toolCalls;
                          Message.tool_call_id := None |}]
                   ++ tool_messages toolCalls currentToolResults)
            end
        end
    end.

  (** [iterations < maxIterations] for the [maxIterations] that [parseInt]
      gives: with [NaN] the test fails at once. *)
Definition turns_allowed (maxIterations : option Z) : nat :=
    match maxIterations with
    | Some m => Z.to_nat m
    | None => O
    end.

Definition maxIterations_stream : option Z :=
    parseInt (config_get (configService this) "MAX_ITERATIONS" "5") None.

Definition processConversationWithToolsStream (messages : list Message.t)
    (userIp : option string) : M unit :=
    match openai this with
    | None => yield (update k_content (VStr GUIDANCE))
    | Some client =>
        stream_loop client userIp (turns_allowed maxIterations_stream) messages
    end.

Definition FALLBACK_MOCK : string :=
    "I'm a mock response! The system is currently in mock mode for testing. This would normally be a real AI response.".

  (** What the mock path streams for one message: the characters of a
      string, the items of an array; nothing for a value without a
      [length] (a content that is an object is read as having none). *)
Definition pieces (messageToStream : jsval) : list jsval :=
    match messageToStream with
    | VStr s => map (fun c => VStr (String c "")) (list_ascii_of_string s)
    | VArr items => items
    | _ => []
    end.

  (** [msg.role !== 'user' && msg.content]; reading a property of [null] or
      [undefined] throws. *)
Definition mock_keep (msg : jsval) : result bool :=
    match msg with
    | VNull | VUndefined =>
        Throw (TypeError "Cannot read properties of null (reading 'role')")
    | _ =>
        Ok (match get_prop msg "role" with
            | VStr r => negb (String.eqb r "user")
            | _ => true
            end
            && truthy (get_prop msg "content"))
    end.

Fixpoint mock_filter (msgs : list jsval) : result (list jsval) :=
    match msgs with
    | [] => Ok []
    | msg :: rest =>
        match mock_keep msg with
        | Throw e => Throw e
        | Ok b =>
            match mock_filter rest with
            | Throw e => Throw e
            | Ok kept => Ok (if b then get_prop msg "content" :: kept else kept)
            end
        end
    end.

Definition newline : string := String "010"%char "".

  (** The loop over [messagesToStream]. *)
Fixpoint mock_stream (first : bool) (messagesToStream : list jsval) : M unit :=
    match messagesToStream with
    | [] => ret tt
    | messageToStream :: rest =>
        (if first then ret tt
         else yield (update k_content_stream
                       (VStr (newline +:+ newline +:+ "---" +:+ newline
                              +:+ newline)))) ;;;
        for_each (fun char (_ : unit) => yield (update k_content_stream char))
          (pieces messageToStream) tt ;;;
        mock_stream false rest
    end.

Definition processMockResponse (request : AgentRequest.t) : M unit :=
    let mockData :=
      match mockFile with
      | Some text =>
          match JSON_parse text with
          | Some v => v
          | None => VObj [("message", VStr FALLBACK_MOCK)]
          end
      | None => VObj [("message", VStr FALLBACK_MOCK)]
      end in
    match mockData with
    | VNull | VUndefined =>
        throw (TypeError
                 "Cannot read properties of null (reading 'conversationHistory')")
    | _ =>
        assistantMessages <-
          match get_prop mockData "conversationHistory" with
          | VArr msgs => lift_result (mock_filter msgs)
          | _ => ret []
          end ;;
        let messagesToStream :=
          match rev assistantMessages with
          | [] => [VStr FALLBACK_MOCK]
          | l => l
          end in
        mock_stream true messagesToStream ;;;
        yield (update k_complete (VStr "Mock conversation completed successfully"))
    end.

Definition processRequestStream (request : AgentRequest.t) : M unit :=
    try_catch
      (match openai this with
       | None =>
           yield (update k_content (VStr GUIDANCE)) ;;;
           yield (update k_complete (VStr GUIDANCE))
       | Some _ =>
           if String.eqb
                (config_get (configService this) "MOCK_RESPONSES_ENABLED" "false")
                "true"
           then processMockResponse request
           else
             sessionId <- session_of request ;;
             let conversationHistory := pushed_history request in
             let systemPromptWithContext :=
               replacePlaceholders (systemPrompt this)
                 (AgentRequest.memories request) in
             converted <-
               lift_result (convertConversationToOpenAI conversationHistory) ;;
             processConversationWithToolsStream
               (system_message systemPromptWithContext :: converted)
               (AgentRequest.userIp request) ;;;
             yield (update k_complete
                      (VStr "Conversation completed successfully"))
       end)
      (fun error =>
         yield {| StreamingUpdate.type := k_complete;
                  StreamingUpdate.content := Some (VStr (error_text error));
                  StreamingUpdate.toolName := None; StreamingUpdate.toolDescription := None;
                  StreamingUpdate.data := Some (VObj [("error", VStr (error_message error))]);
                  StreamingUpdate.reasoning := None |}).

End Methods.
End AgentService.


(* ================================================================== *)
(** * Notions used to state the properties *)
(* ================================================================== *)

Module Notions.

(** A value with every property erased whose name is not in [K], at any
    depth. *)
Fixpoint restrict (K : list string) (v : jsval) : jsval :=
  match v with
  | VArr items => VArr (map (restrict K) items)
  | VObj fields =>
      VObj (flat_map
              (fun kv =>
                 if bool_decide (fst kv ∈ K)
                 then [(fst kv, restrict K (snd kv))] else [])
              fields)
  | _ => v
  end.

(** The message with its role set to [assistant]. *)
Definition as_assistant (m : Message.t) : Message.t :=
  {| Message.role := "assistant"; Message.content := Message.content m;
     Message.tool_calls := Message.tool_calls m;
     Message.tool_call_id := Message.tool_call_id m |}.

(** Whether a message carries a non-empty list of tool calls. *)
Definition has_tool_calls (m : Message.t) : bool :=
  match Message.tool_calls m with
  | Some (_ :: _) => true
  | _ => false
  end.

(** A server that serves every command to come. *)
Definition healthy (w : World) : Prop := outages (remote w) = [].

(** The world with its clock set to [t]. *)
Definition at_time (t : Z) (w : World) : World :=
  {| now := t; remote := remote w; completions := completions w;
     executions := executions w; responseHeaders := responseHeaders w |}.

(** The guard serving the same request at the given instants, one after the
    other: the outcomes, and the world left. *)
Fixpoint serve (g : RateLimitGuard.t) (request : RateLimitGuard.Request)
  (times : list Z) (w : World) : list (result bool) * World :=
  match times with
  | [] => ([], w)
  | t :: times' =>
      let r := RateLimitGuard.canActivate g request (at_time t w) in
      let '(outs, w') := serve g request times' (world r) in
      (outcome r :: outs, w')
  end.

(** The rejection of the guard. *)
Definition too_many (retryAfter : Z) : result bool :=
  Throw (HttpException 429 retryAfter).

(** The headers an admitted request gets. *)
Definition admitted_headers (g : RateLimitGuard.t) (count reset : Z)
  : list (string * string) :=
  [("X-RateLimit-Limit", dec (RateLimitGuard.maxRequests g));
   ("X-RateLimit-Remaining",
    dec (Z.max 0 (RateLimitGuard.maxRequests g - count)));
   ("X-RateLimit-Reset", dec reset)].

(** What the guard decides at instant [t] on a healthy server, from what
    the block key and the counter key of the client hold. *)
Definition decision (g : RateLimitGuard.t) (t : Z)
  (block counter : option (rval * option Z)) : result bool :=
  let over :=
    if RateLimitGuard.blockDurationSeconds g <=? 0 then Ok true
    else too_many (RateLimitGuard.blockDurationSeconds g) in
  match block with
  | Some (_, Some e) => too_many (e - t)
  | Some (_, None) => too_many (-1)
  | None =>
      match counter with
      | None => if 1 <=? RateLimitGuard.maxRequests g then Ok true else over
      | Some (v, _) =>
          match Upstash.as_integer v with
          | Some n =>
              if n + 1 <=? RateLimitGuard.maxRequests g then Ok true else over
          | None => Ok true
          end
      end
  end.

(** The world after a completion request, and after the execution of a
    tool. *)
Definition after_completion (w : World) : World :=
  {| now := now w; remote := remote w; completions := S (completions w);
     executions := executions w; responseHeaders := responseHeaders w |}.

Definition after_execution (toolName : string) (args : jsval) (w : World)
  : World :=
  {| now := now w; remote := remote w; completions := completions w;
     executions := (toolName, args) :: executions w;
     responseHeaders := responseHeaders w |}.

(** The argument a tool is run with: [{ ...toolArgs, userIp }]. *)
Definition tool_input (toolArgs : jsval) (userIp : option string) : jsval :=
  VObj (assoc_set "userIp" (AgentService.opt_str userIp)
          (AgentService.spread_val toolArgs)).

(** The event that announces a tool call. *)
Definition tool_start (toolName : string) (description : option string)
  : StreamingUpdate.t :=
  {| StreamingUpdate.type := k_tool_start; StreamingUpdate.content := None;
     StreamingUpdate.toolName := Some toolName;
     StreamingUpdate.toolDescription := description;
     StreamingUpdate.data := None; StreamingUpdate.reasoning := None |}.

(** Events none of which is a [complete] event. *)
Definition no_complete (events : list StreamingUpdate.t) : Prop :=
  Forall (fun u => StreamingUpdate.type u <> k_complete) events.

(** A computation that emits no [complete] event. *)
Definition silent {A} (m : M A) : Prop :=
  forall w, no_complete (emitted (m w)).

(** A computation that, when it returns, has emitted exactly one [complete]
    event, as its last event, and when it throws has emitted none. *)
Definition completes_or_throws {A} (m : M A) : Prop :=
  forall w,
    match outcome (m w) with
    | Ok _ =>
        exists before last,
          emitted (m w) = before ++ [last]
          /\ StreamingUpdate.type last = k_complete
          /\ no_complete before
    | Throw _ => no_complete (emitted (m w))
    end.

(** A computation that issues no completion request. *)
Definition no_completion {A} (m : M A) : Prop :=
  forall w, completions (world (m w)) = completions w.


(** A computation that always returns. *)
Definition returns {A} (m : M A) : Prop :=
  forall w, exists a, outcome (m w) = Ok a.

(** A client that asks for a tool at every turn: buffered, each completion
    carries a non-empty list of tool calls. *)
Definition always_calls_tools (client : OpenAI.t) : Prop :=
  forall n messages,
    exists completion toolCall toolCalls,
      OpenAI.create client n messages = Ok completion
      /\ OpenAI.tool_calls completion = Some (toolCall :: toolCalls).

(** The transcript that the buffered loop holds after [turns] turns that all
    ask for tools, and the world those turns leave: each turn appends the
    assistant message of its completion and one tool message per call.
    [None] when a request fails, when a turn asks for no tool or when the
    execution of the calls throws. *)
Fixpoint transcript_after (JSON_parse : string -> option jsval)
  (this : AgentService.t) (client : OpenAI.t) (userIp : option string)
  (turns : nat) (messages : list Message.t) (w : World)
  : option (list Message.t * World) :=
  match turns with
  | O => Some (messages, w)
  | S turns' =>
      match OpenAI.create client (completions w) messages with
      | Ok completion =>
          match OpenAI.tool_calls completion with
          | Some (toolCall :: toolCalls) =>
              let r :=
                AgentService.executeToolCalls JSON_parse this
                  (toolCall :: toolCalls) userIp (after_completion w) in
              match outcome r with
              | Ok currentToolResults =>
                  transcript_after JSON_parse this client userIp turns'
                    (messages
                     ++ [{| Message.role := "assistant";
                            Message.content := OpenAI.content completion;
                            Message.tool_calls := Some (toolCall :: toolCalls);
                            Message.tool_call_id := None |}]
                     ++ AgentService.tool_messages (toolCall :: toolCalls)
                          currentToolResults)
                    (world r)
              | Throw _ => None
              end
          | _ => None
          end
      | Throw _ => None
      end
  end.

(** Streamed, each completion is delivered whole and the tool calls
    gathered from its chunks are a non-empty array without holes. *)
Definition always_streams_tools (durationText : string)
  (this : AgentService.t) (client : OpenAI.t) : Prop :=
  forall n messages,
    exists stream,
      OpenAI.create_stream client n messages = Ok stream
      /\ OpenAI.failure stream = None
      /\ forall w,
           exists turn,
             outcome (for_each (AgentService.on_chunk durationText this)
                        (OpenAI.chunks stream) AgentService.new_turn w)
             = Ok turn
             /\ AgentService.t_tool_calls turn <> []
             /\ Forall is_Some (AgentService.t_tool_calls turn).

(** A computation that never throws the rejection of the guard. *)
Definition never_rejects {A} (m : M A) : Prop :=
  forall w s r, outcome (m w) <> Throw (HttpException s r).

(** What the increment of the counter returns, from what the counter
    holds. *)
Definition increment_outcome (counter : option (rval * option Z))
  : result (Z * bool) :=
  match counter with
  | None => Ok (1, true)
  | Some (v, _) =>
      match Upstash.as_integer v with
      | Some n => Ok (n + 1, n + 1 =? 1)
      | None => Throw (GenericError "ERR value is not an integer")
      end
  end.

(** The corrupt-serialization sentinel and its kin. *)
Definition sentinel (s : string) : bool :=
  String.eqb s "[object Object]" || RedisService.startsWith s "[object ".

(** A value handed back by the store that a cache read purges: anything but
    a string, a sentinel, a text that [JSON.parse] rejects. *)
Definition corrupt (JSON_parse : string -> option jsval) (cached : jsval)
  : bool :=
  match cached with
  | VStr s => sentinel s || negb (bool_decide (is_Some (JSON_parse s)))
  | _ => true
  end.

(** What a key holds for a reader at the instant of [w]. *)
Definition stored (w : World) (key : string) : option jsval :=
  match Upstash.live (now w) (kv (remote w)) key with
  | Some (v, _) => Some (Upstash.reply v)
  | None => None
  end.

(** A run that misses and leaves the keys as they were. *)
Definition misses_keeping (w : World) (r : run jsval) : Prop :=
  outcome r = Ok VNull /\ kv (remote (world r)) = kv (remote w).

(** A run that misses and deletes the key. *)
Definition misses_purging (w : World) (key : string) (r : run jsval) : Prop :=
  outcome r = Ok VNull
  /\ kv (remote (world r)) = delete key (kv (remote w)).

(** The read path of a cache, on the key it reads. *)
Definition read_path (JSON_parse : string -> option jsval) (w : World)
  (key : string) (r : run jsval) : Prop :=
  (stored w key = None -> misses_keeping w r)
  /\ (forall cached, stored w key = Some cached ->
       truthy cached = false -> misses_keeping w r)
  /\ (forall cached, stored w key = Some cached ->
       truthy cached = true -> corrupt JSON_parse cached = true ->
       misses_purging w key r)
  /\ (forall s parsed, stored w key = Some (VStr s) ->
       str_truthy s = true -> sentinel s = false ->
       JSON_parse s = Some parsed ->
       outcome r = Ok parsed /\ kv (remote (world r)) = kv (remote w)).

End Notions.

(* ================================================================== *)
(** * Sample values on which the properties are run *)
(* ================================================================== *)

Module Samples.

(** ** A reader for JSON texts

    It reads the JSON grammar with integer numbers; a number with a fraction
    or an exponent, and a [\u] escape above 255, are outside the values
    modelled and are not read.  The fuel bounds the nesting and the number of
    items. *)

Definition expect (lit s : string) : option string :=
  if String.prefix lit s
  then Some (String.substring (String.length lit)
               (String.length s - String.length lit) s)
  else None.

(** The body of a string, after its opening quote. *)
Fixpoint read_string (s : string) : option (string * string) :=
  match s with
  | EmptyString => None
  | String c s' =>
      if Ascii.eqb c dquote then Some ("", s')
      else if (N_of_ascii c <? 32)%N then None
      else if Ascii.eqb c "\"%char then
        match s' with
        | String e s'' =>
            let plain (x : ascii) :=
              match read_string s'' with
              | Some (t, r) => Some (String x t, r)
              | None => None
              end in
            if Ascii.eqb e dquote then plain dquote
            else if Ascii.eqb e "\"%char then plain "\"%char
            else if Ascii.eqb e "/"%char then plain "/"%char
            else if Ascii.eqb e "b"%char then plain "008"%char
            else if Ascii.eqb e "f"%char then plain "012"%char
            else if Ascii.eqb e "n"%char then plain "010"%char
            else if Ascii.eqb e "r"%char then plain "013"%char
            else if Ascii.eqb e "t"%char then plain "009"%char
            else if Ascii.eqb e "u"%char then
              match s'' with
              | String "0" (String "0" (String h (String l r))) =>
                  match digit_val 16 h, digit_val 16 l, read_string r with
                  | Some hv, Some lv, Some (t, r') =>
                      Some (String (ascii_of_N (Z.to_N (hv * 16 + lv))) t, r')
                  | _, _, _ => None
                  end
              | _ => None
              end
            else None
        | EmptyString => None
        end
      else
        match read_string s' with
        | Some (t, r) => Some (String c t, r)
        | None => None
        end
  end.

(** The digits that start a text, and the rest. *)
Fixpoint read_digits (s : string) : string * string :=
  match s with
  | String c s' =>
      match digit_val 10 c with
      | Some _ => let '(d, r) := read_digits s' in (String c d, r)
      | None => ("", s)
      end
  | EmptyString => ("", "")
  end.

Definition read_number (s : string) : option (jsval * string) :=
  let '(sign, s1) :=
    match s with String "-" r => (-1, r) | _ => (1, s) end in
  let '(d, r) := read_digits s1 in
  match d, r with
  | EmptyString, _ => None
  | String "0" (String _ _), _ => None
  | _, String "." _ | _, String "e" _ | _, String "E" _ => None
  | _, _ =>
      match parseInt d (Some 10) with
      | Some n => Some (VNum (sign * n), r)
      | None => None
      end
  end.

Fixpoint read_value (fuel : nat) (s : string) : option (jsval * string) :=
  match fuel with
  | O => None
  | S fuel' =>
      match skip_ws s with
      | String "n" _ =>
          match expect "null" (skip_ws s) with
          | Some r => Some (VNull, r) | None => None end
      | String "t" _ =>
          match expect "true" (skip_ws s) with
          | Some r => Some (VBool true, r) | None => None end
      | String "f" _ =>
          match expect "false" (skip_ws s) with
          | Some r => Some (VBool false, r) | None => None end
      | String "[" r =>
          match skip_ws r with
          | String "]" r' => Some (VArr [], r')
          | _ => read_items fuel' r []
          end
      | String "{" r =>
          match skip_ws r with
          | String "}" r' => Some (VObj [], r')
          | _ => read_members fuel' r []
          end
      | String c r =>
          if Ascii.eqb c dquote then
            match read_string r with
            | Some (t, r') => Some (VStr t, r')
            | None => None
            end
          else read_number (String c r)
      | EmptyString => None
      end
  end
with read_items (fuel : nat) (s : string) (acc : list jsval)
  : option (jsval * string) :=
  match fuel with
  | O => None
  | S fuel' =>
      match read_value fuel' s with
      | Some (v, r) =>
          match skip_ws r with
          | String "," r' => read_items fuel' r' (acc ++ [v])
          | String "]" r' => Some (VArr (acc ++ [v]), r')
          | _ => None
          end
      | None => None
      end
  end
with read_members (fuel : nat) (s : string) (acc : list (string * jsval))
  : option (jsval * string) :=
  match fuel with
  | O => None
  | S fuel' =>
      match skip_ws s with
      | String c r =>
          if Ascii.eqb c dquote then
            match read_string r with
            | Some (k, r1) =>
                match skip_ws r1 with
                | String ":" r2 =>
                    match read_value fuel' r2 with
                    | Some (v, r3) =>
                        match skip_ws r3 with
                        | String "," r4 =>
                            read_members fuel' r4 (assoc_set k v acc)
                        | String "}" r4 => Some (VObj (assoc_set k v acc), r4)
                        | _ => None
                        end
                    | None => None
                    end
                | _ => None
                end
            | None => None
            end
          else None
      | EmptyString => None
      end
  end.

(** [JSON.parse] on the texts this reader reads. *)
Definition JSON_parse (s : string) : option jsval :=
  match read_value (S (String.length s)) s with
  | Some (v, r) =>
      match skip_ws r with
      | EmptyString => Some v
      | _ => None
      end
  | None => None
  end.

(** A connected [RedisService], and one whose store is not configured. *)
Definition redis_on : RedisService.t :=
  {| RedisService.isEnabled := true;
     RedisService.redis := Some RedisService.UpstashClient |}.

Definition redis_off : RedisService.t :=
  {| RedisService.isEnabled := false; RedisService.redis := None |}.

(** A world at instant [t] whose server holds [m] and will fail the
    commands that [o] says. *)
Definition world_at (t : Z) (m : gmap string (rval * option Z))
  (o : list bool) : World :=
  {| now := t; remote := {| kv := m; outages := o |}; completions := 0;
     executions := []; responseHeaders := [] |}.

(** A guard with a maximum of [n] requests per window of [w] seconds and
    blocks of [b] seconds, on a connected store. *)
Definition guard (n w b : Z) : RateLimitGuard.t :=
  {| RateLimitGuard.redisService := redis_on; RateLimitGuard.enabled := true;
     RateLimitGuard.maxRequests := n; RateLimitGuard.windowSeconds := w;
     RateLimitGuard.blockDurationSeconds := b |}.

(** A request that arrives from [addr] without proxy headers. *)
Definition request_from (addr : string) : RateLimitGuard.Request :=
  {| RateLimitGuard.x_forwarded_for := None; RateLimitGuard.x_real_ip := None;
     RateLimitGuard.ip := Some addr; RateLimitGuard.remoteAddress := None |}.

(** The host of the examples. *)
Definition replacePlaceholders (prompt : string) (_ : option (list Memory.t))
  : string := prompt.

Definition generateSessionId (w : World) : string :=
  "session_" +:+ dec (now w * 1000) +:+ "_k3j9x2m1q".

(** A tool that answers, one that reports an error of its provider, and
    the registry that holds them. *)
Definition convert_currency : Tool.t :=
  {| Tool.name := "convert_currency"; Tool.description := "Convert currency";
     Tool.execute := fun n _ =>
       Ok (VObj [("convertedAmount", VNum 92); ("quote", VNum (Z.of_nat n))]) |}.

Definition lookup_rate : Tool.t :=
  {| Tool.name := "lookup_rate"; Tool.description := "Look up a rate";
     Tool.execute := fun _ _ => Ok (VObj [("error", VStr "rate unavailable")]) |}.

Definition registry : gmap string Tool.t :=
  {[ "convert_currency" := convert_currency; "lookup_rate" := lookup_rate ]}.

(** An agent service over a client (or none) and a configuration, with the
    tool cache on for ten minutes. *)
Definition agent (client : option OpenAI.t) (cfg : gmap string string)
  : AgentService.t :=
  {| AgentService.openai := client; AgentService.configService := cfg;
     AgentService.toolRegistry := registry;
     AgentService.redisService := redis_on;
     AgentService.systemPrompt := "You are SignalBox.";
     AgentService.isReasoningModel := false;
     AgentService.reasoningEffort := "medium";
     AgentService.cacheEnabled := false; AgentService.cacheTtlSeconds := 300;
     AgentService.toolCacheEnabled := true;
     AgentService.toolCacheTtlSeconds := 600 |}.

Definition ask (text : string) : AgentRequest.t :=
  {| AgentRequest.message := text; AgentRequest.conversationHistory := None;
     AgentRequest.sessionId := Some "s1"; AgentRequest.userIp := None;
     AgentRequest.memories := None |}.

Definition call (call_id toolName arguments : string) : ToolCall.t :=
  {| ToolCall.id := call_id; ToolCall.name := toolName;
     ToolCall.arguments := arguments |}.

(** A client that asks for the same tool call at every turn, with the text
    [text] beside it, buffered or streamed in one chunk. *)
Definition insistent (text : option string) (c : ToolCall.t) : OpenAI.t :=
  {| OpenAI.create := fun _ _ =>
       Ok {| OpenAI.content := text; OpenAI.tool_calls := Some [c] |};
     OpenAI.create_stream := fun _ _ =>
       Ok {| OpenAI.chunks :=
               [{| OpenAI.delta :=
                     Some {| OpenAI.d_content := text;
                             OpenAI.d_tool_calls :=
                               Some [{| OpenAI.index := Some O;
                                        OpenAI.id := Some (ToolCall.id c);
                                        OpenAI.fn_name := Some (ToolCall.name c);
                                        OpenAI.fn_arguments :=
                                          Some (ToolCall.arguments c) |}] |};
                   OpenAI.usage := None |}];
             OpenAI.failure := None |} |}.

Definition sample_data : Message.t :=
  {| Message.role := "data"; Message.content := Some "chart";
     Message.tool_calls := None; Message.tool_call_id := None |}.

Definition sample_empty_user : Message.t :=
  {| Message.role := "user"; Message.content := Some "";
     Message.tool_calls := None; Message.tool_call_id := None |}.

Definition sample_empty_assistant : Message.t :=
  {| Message.role := "assistant"; Message.content := None;
     Message.tool_calls := Some []; Message.tool_call_id := None |}.

End Samples.
Export Notions.
Export Samples.

From Stdlib Require Import DecimalPos.

(* ================================================================== *)
(** * Further notions *)
(* ================================================================== *)

Module Digits.

(** The number a row of decimal digits stands for, read from the left
    after the digits that gave [acc]. *)
Fixpoint digits_value (acc : Z) (d : Decimal.uint) : Z :=
  match d with
  | Decimal.Nil => acc
  | Decimal.D0 l => digits_value (acc * 10 + 0) l
  | Decimal.D1 l => digits_value (acc * 10 + 1) l
  | Decimal.D2 l => digits_value (acc * 10 + 2) l
  | Decimal.D3 l => digits_value (acc * 10 + 3) l
  | Decimal.D4 l => digits_value (acc * 10 + 4) l
  | Decimal.D5 l => digits_value (acc * 10 + 5) l
  | Decimal.D6 l => digits_value (acc * 10 + 6) l
  | Decimal.D7 l => digits_value (acc * 10 + 7) l
  | Decimal.D8 l => digits_value (acc * 10 + 8) l
  | Decimal.D9 l => digits_value (acc * 10 + 9) l
  end.

End Digits.
Export Digits.

Module Hashing.

(** The polynomial in 31 of the code units of a text, most significant
    first, over the integers: [s[0]*31^(n-1) + ... + s[n-1]]. *)
Definition polynomial_31 (str : string) : Z :=
  fold_left (fun acc c => 31 * acc + Z.of_N (N_of_ascii c))
    (list_ascii_of_string str) 0.

End Hashing.
Export Hashing.

Module MoreSamples.

(** A client whose every request is rejected with [e]. *)
Definition failing (e : JsError) : OpenAI.t :=
  {| OpenAI.create := fun _ _ => Throw e;
     OpenAI.create_stream := fun _ _ => Throw e |}.

(** The agent service of the examples with the response cache on for five
    minutes and the tool cache off. *)
Definition caching_agent (client : option OpenAI.t) : AgentService.t :=
  {| AgentService.openai := client; AgentService.configService := ∅;
     AgentService.toolRegistry := registry;
     AgentService.redisService := redis_on;
     AgentService.systemPrompt := "You are SignalBox.";
     AgentService.isReasoningModel := false;
     AgentService.reasoningEffort := "medium";
     AgentService.cacheEnabled := true; AgentService.cacheTtlSeconds := 300;
     AgentService.toolCacheEnabled := false;
     AgentService.toolCacheTtlSeconds := 600 |}.

(** A tool that throws. *)
Definition broken_tool : Tool.t :=
  {| Tool.name := "convert_currency"; Tool.description := "Convert currency";
     Tool.execute := fun _ _ => Throw (GenericError "socket hang up") |}.

End MoreSamples.
Export MoreSamples.

Module MoreNotions.

(** The roles of the completion API, and the roles the conversion takes:
    those and [data]. *)
Definition api_role (role : string) : bool :=
  String.eqb role "user" || String.eqb role "assistant"
  || String.eqb role "tool" || String.eqb role "system".

Definition convertible_role (role : string) : bool :=
  api_role role || String.eqb role "data".

End MoreNotions.
Export MoreNotions.

(* ================================================================== *)
(** * The tool registry ([tools/tool-registry.service.ts]) *)
(* ================================================================== *)

Module ToolRegistry.

(** [Map<string, Tool>]: the entries in insertion order. *)
Definition t : Type := list (string * Tool.t).

(** [for (const tool of tools) this.tools.set(tool.name, tool)] *)
Definition registerTools (tools : list Tool.t) (this : t) : t :=
  fold_left (fun m tool => assoc_set (Tool.name tool) tool m) tools this.

(** The constructor registers the two tools it is given. *)
Definition create (convertCurrencyTool memoryTool : Tool.t) : t :=
  registerTools [convertCurrencyTool; memoryTool] [].

Definition getTool (this : t) (name : string) : option Tool.t :=
  assoc name this.

(** [Array.from(this.tools.values())] *)
Definition getAllTools (this : t) : list Tool.t := map snd this.

End ToolRegistry.

(* ================================================================== *)
(** * Reasoning models ([AgentService.isReasoningModelName]) *)
(* ================================================================== *)

Module ReasoningModels.

(** [s.includes(sub)] *)
Fixpoint includes (s sub : string) : bool :=
  String.prefix sub s
  || match s with
     | String _ s' => includes s' sub
     | EmptyString => false
     end.

Definition reasoningModels : list string :=
  ["o1"; "o1-mini"; "o1-preview"; "o3"; "o3-mini"; "o4-mini"].

(** [reasoningModels.some(m => modelName.includes(m))] *)
Definition isReasoningModelName (modelName : string) : bool :=
  existsb (fun reasoningModel => includes modelName reasoningModel)
    reasoningModels.

(** The flag [onModuleInit] computes from the configuration. *)
Definition isReasoningModel (cfg : gmap string string) : bool :=
  isReasoningModelName (AgentService.config_get cfg "OPENAI_MODEL" "gpt-4o").

End ReasoningModels.

(* ================================================================== *)
(** * The filter of rate-limit rejections
      ([common/filters/rate-limit-exception.filter.ts]) *)
(* ================================================================== *)

Module RateLimitExceptionFilter.

(** The body sent, in the format of an agent response. *)
Record AgentBody : Type := {
  message : string;
  conversationHistory : list Message.t;
  sessionId : string;
  completed : bool;
  rateLimited : bool;
  retryAfter : Z
}.

Record HttpResponse : Type := {
  status : Z;
  headers : list (string * string);
  body : AgentBody
}.

(** The message of the guard's rejection, which is also the default message
    of the filter. *)
Definition HIGH_TRAFFIC : string :=
  "I'm currently experiencing high traffic and need to limit requests. Please try again in a few minutes. Your patience is appreciated!".

(** [catch]: an exception with status 429 is answered in the agent format;
    any other is thrown again.  [retryAfter || 300] reads [0] as absent. *)
Definition catch (exception : JsError) : M HttpResponse :=
  match exception with
  | HttpException status retryAfter =>
      if status =? 429 then
        w <- get_world ;;
        let retry := if retryAfter =? 0 then 300 else retryAfter in
        ret {| status := 429;
               headers := [("Retry-After", dec retry);
                           ("Content-Type", "application/json")];
               body := {| message := HIGH_TRAFFIC;
                          conversationHistory := [];
                          sessionId := "rate-limited-" +:+ dec (now w * 1000);
                          completed := true;
                          rateLimited := true;
                          retryAfter := retry |} |}
      else throw exception
  | _ => throw exception
  end.

(** A request as the controller's route sees it: the guard first, the
    handler if the guard admits, the filter on what is thrown. *)
Definition guarded {A} (g : RateLimitGuard.t) (request : RateLimitGuard.Request)
  (handler : M A) : M (A + HttpResponse) :=
  try_catch
    (RateLimitGuard.canActivate g request ;;; a <- handler ;; ret (inl a))
    (fun e => r <- catch e ;; ret (inr r)).

End RateLimitExceptionFilter.

(* ================================================================== *)
(** * The memory tool ([tools/memory-tool.service.ts]) *)
(* ================================================================== *)

Module MemoryToolService.

(** [String(v)], as a template literal applies it. *)
Fixpoint to_string (v : jsval) : string :=
  match v with
  | VUndefined => "undefined"
  | VNull => "null"
  | VBool true => "true"
  | VBool false => "false"
  | VNum n => dec n
  | VStr s => s
  | VArr items =>
      String.concat ","
        (map (fun x => match x with
                       | VUndefined | VNull => ""
                       | _ => to_string x
                       end) items)
  | VObj _ => "[object Object]"
  end.

Definition name : string := "save_to_memory".

Definition REQUIRED : string :=
  "Both key and value are required for saving to memory.".

(** [execute]; [timestamp] is [new Date().toISOString()]. *)
Definition execute (timestamp : string) (args : jsval) : result jsval :=
  match args with
  | VUndefined | VNull =>
      Throw (TypeError "Cannot destructure property 'key' of 'args'")
  | _ =>
      let key := get_prop args "key" in
      let value := get_prop args "value" in
      let category := get_prop args "category" in
      if negb (truthy key) || negb (truthy value) then
        Throw (GenericError REQUIRED)
      else
        Ok (VObj
              [("success", VBool true);
               ("message",
                VStr ("Successfully saved to memory: " +:+ to_string key));
               ("memoryItem",
                VObj [("key", key); ("value", value);
                      ("category",
                       if truthy category then category else VStr "general");
                      ("timestamp", VStr timestamp)])])
  end.

(** The tool, over the clock of the host. *)
Definition tool (clock : nat -> string) : Tool.t :=
  {| Tool.name := name;
     Tool.description :=
       "Save important information about the user, their preferences, travel history, or context to memory for future reference. Use this when you learn something important about the user that would be helpful to remember in future conversations.";
     Tool.execute := fun n args => execute (clock n) args |}.

End MemoryToolService.

(* ================================================================== *)
(** * The rate cache of the currency service
      ([currency/currency.service.ts]) *)
(* ================================================================== *)

Module CurrencyService.

(** [CacheEntry]; a [ttl] of [None] is [NaN], which the configuration
    gives when [EXCHANGE_RATE_CACHE_TTL] is not a number.  Instants and
    lifetimes are in milliseconds. *)
Record CacheEntry : Type := {
  data : jsval;
  timestamp : Z;
  ttl : option Z
}.

(** The cache, [Map<string, CacheEntry>], is a [gmap string CacheEntry]. *)

Definition cacheTTL (cfg : gmap string string) : option Z :=
  parseInt (AgentService.config_get cfg "EXCHANGE_RATE_CACHE_TTL" "3600000")
    None.

(** [now > entry.timestamp + entry.ttl] *)
Definition expired (now : Z) (entry : CacheEntry) : bool :=
  match ttl entry with
  | Some l => timestamp entry + l <? now
  | None => false
  end.

Definition getFromCache (now : Z) (cache : gmap string CacheEntry) (key : string)
  : jsval * gmap string CacheEntry :=
  match cache !! key with
  | None => (VNull, cache)
  | Some entry =>
      if expired now entry then (VNull, delete key cache)
      else (data entry, cache)
  end.

Definition setCache (now : Z) (cacheTTL : option Z) (cache : gmap string CacheEntry)
  (key : string) (data : jsval)
  : gmap string CacheEntry :=
  <[key := {| data := data; timestamp := now; ttl := cacheTTL |}]> cache.

Definition cleanupCache (now : Z) (cache : gmap string CacheEntry)
  : gmap string CacheEntry :=
  filter (fun kv => expired now (snd kv) = false) cache.

Definition is_upper (c : ascii) : bool :=
  let n := N_of_ascii c in ((65 <=? n) && (n <=? 90))%N.

(** [validateCurrencyCode] *)
Definition validateCurrencyCode (code : string) : result unit :=
  if negb (str_truthy code) then
    Throw (GenericError "Currency code is required")
  else if negb (Nat.eqb (String.length code) 3) then
    Throw (GenericError
             "Currency code must be exactly 3 characters (ISO 4217)")
  else if negb (forallb is_upper (list_ascii_of_string code)) then
    Throw (GenericError "Currency code must be 3 uppercase letters")
  else Ok tt.

End CurrencyService.

Module MockNotions.

(** The text an event carries, if it carries one. *)
Definition event_text (u : StreamingUpdate.t) : string :=
  match StreamingUpdate.content u with
  | Some (VStr s) => s
  | _ => ""
  end.

(** The texts of a row of events, end to end. *)
Definition events_text (events : list StreamingUpdate.t) : string :=
  foldr (fun u rest => event_text u +:+ rest) "" events.

(** The separator the mock path streams between two messages. *)
Definition SEPARATOR : string :=
  AgentService.newline +:+ AgentService.newline +:+ "---"
  +:+ AgentService.newline +:+ AgentService.newline.

(** The messages with the separator before each but the first. *)
Fixpoint spelled (first : bool) (texts : list string) : string :=
  match texts with
  | [] => ""
  | text :: rest =>
      (if first then "" else SEPARATOR) +:+ text +:+ spelled false rest
  end.

End MockNotions.
Export MockNotions.

Module StreamNotions.

(** The text a chunk adds to the message of its turn. *)
Definition chunk_text (chunk : OpenAI.Chunk) : string :=
  default "" (d ← OpenAI.delta chunk; OpenAI.d_content d).

(** The texts of the chunks of a turn, end to end. *)
Definition chunks_text (chunks : list OpenAI.Chunk) : string :=
  foldr (fun chunk rest => chunk_text chunk +:+ rest) "" chunks.

(** A chunk that carries no piece of a tool call. *)
Definition plain (chunk : OpenAI.Chunk) : Prop :=
  (d ← OpenAI.delta chunk; OpenAI.d_tool_calls d) = None.

(** The [complete] event of the error path. *)
Definition error_complete (e : JsError) : StreamingUpdate.t :=
  {| StreamingUpdate.type := k_complete;
     StreamingUpdate.content := Some (VStr (AgentService.error_text e));
     StreamingUpdate.toolName := None;
     StreamingUpdate.toolDescription := None;
     StreamingUpdate.data := Some (VObj [("error", VStr (error_message e))]);
     StreamingUpdate.reasoning := None |}.

(** A client that answers every request with the text [text] and no tool
    call, buffered or streamed in the chunks [pieces]. *)
Definition answering (text : string) (pieces : list string) : OpenAI.t :=
  {| OpenAI.create := fun _ _ =>
       Ok {| OpenAI.content := Some text; OpenAI.tool_calls := None |};
     OpenAI.create_stream := fun _ _ =>
       Ok {| OpenAI.chunks :=
               map (fun piece =>
                      {| OpenAI.delta :=
                           Some {| OpenAI.d_content := Some piece;
                                   OpenAI.d_tool_calls := None |};
                         OpenAI.usage := None |}) pieces;
             OpenAI.failure := None |} |}.

End StreamNotions.
Export StreamNotions.


(* ================================================================== *)
(** * Lemmas about values and [JSON.stringify] *)
(* ================================================================== *)

(** Induction on a value, with the hypothesis on every item of an array and
    on every property of an object. *)
Lemma jsval_induction (P : jsval -> Prop) :
  P VUndefined -> P VNull -> (forall b, P (VBool b)) -> (forall n, P (VNum n)) ->
  (forall s, P (VStr s)) ->
  (forall items, Forall P items -> P (VArr items)) ->
  (forall fields, Forall (fun kv => P (snd kv)) fields -> P (VObj fields)) ->
  forall v, P v.
Proof.
  intros HU HN HB HZ HS HA HO.
  fix IH 1. intros [ | | b | n | s | items | fields ].
  - exact HU.
  - exact HN.
  - apply HB.
  - apply HZ.
  - apply HS.
  - apply HA. induction items as [|x xs IHxs]; constructor; [apply IH | exact IHxs].
  - apply HO. induction fields as [|[k x] xs IHxs]; constructor;
      [apply IH | exact IHxs].
Qed.

Lemma assoc_map_snd {A B} (f : A -> B) k (fs : list (string * A)) :
  assoc k (map (fun kv => (fst kv, f (snd kv))) fs) = f <$> assoc k fs.
Proof.
  induction fs as [|[k' v] fs IH]; simpl; [done|].
  destruct (String.eqb k k'); [done | apply IH].
Qed.

Lemma assoc_Some_elem {A} k (v : A) fs : assoc k fs = Some v -> (k, v) ∈ fs.
Proof.
  induction fs as [|[k' v'] fs IH]; simpl; [done|].
  destruct (String.eqb_spec k k') as [->|Hne].
  - intros [= ->]. left.
  - intros H. right. auto.
Qed.

Lemma assoc_None_keys {A} k (fs : list (string * A)) :
  assoc k fs = None <-> k ∉ map fst fs.
Proof.
  induction fs as [|[k' v'] fs IH]; simpl.
  - split; [intros _; apply not_elem_of_nil | done].
  - destruct (String.eqb_spec k k') as [->|Hne].
    + split; [done | intros H; exfalso; apply H; left].
    + rewrite IH, not_elem_of_cons. tauto.
Qed.

(** In an object without repeated names, a property is found under its
    name. *)
Lemma assoc_elem_NoDup {A} k (v : A) fs :
  NoDup (map fst fs) -> (k, v) ∈ fs -> assoc k fs = Some v.
Proof.
  induction fs as [|[k' v'] fs IH]; simpl; intros Hnd Hin.
  - by apply elem_of_nil in Hin.
  - apply NoDup_cons in Hnd as [Hk' Hnd].
    apply elem_of_cons in Hin as [[= <- <-]|Hin].
    + by rewrite String.eqb_refl.
    + destruct (String.eqb_spec k k') as [->|Hne]; [|by apply IH].
      exfalso. apply Hk'. apply list_elem_of_fmap. by exists (k', v).
Qed.

(** Property order does not matter to lookup, for objects without repeated
    names. *)
Lemma assoc_Permutation {A} k (o1 o2 : list (string * A)) :
  NoDup (map fst o1) -> o1 ≡ₚ o2 -> assoc k o1 = assoc k o2.
Proof.
  intros Hnd Hp.
  assert (Hnd2 : NoDup (map fst o2)).
  { by rewrite <- (Permutation_map fst Hp). }
  destruct (assoc k o1) as [v|] eqn:E1.
  - symmetry. apply assoc_elem_NoDup; [done|].
    rewrite <- Hp. by apply assoc_Some_elem.
  - destruct (assoc k o2) as [v|] eqn:E2; [|done].
    assert ((k, v) ∈ o1) as Hin by (rewrite Hp; by apply assoc_Some_elem).
    by rewrite (assoc_elem_NoDup _ _ _ Hnd Hin) in E1.
Qed.

Lemma omap_ext_in {A B} (f g : A -> option B) (l : list A) :
  (forall x, x ∈ l -> f x = g x) -> omap f l = omap g l.
Proof.
  intros H. apply list_omap_ext.
  induction l as [|x l IH]; constructor.
  - apply H. left.
  - apply IH. intros y Hy. apply H. by right.
Qed.

(** Two objects that agree, once serialized, on the names of the replacer
    have the same members. *)
Lemma members_of_ext K ss1 ss2 :
  (forall k, k ∈ K -> assoc k ss1 = assoc k ss2) ->
  members_of K ss1 = members_of K ss2.
Proof.
  intros H. unfold members_of. apply omap_ext_in.
  intros k Hk. by rewrite (H k Hk).
Qed.

Lemma assoc_restrict_fields K k fields :
  k ∈ K ->
  assoc k (flat_map
             (fun kv => if bool_decide (fst kv ∈ K)
                        then [(fst kv, restrict K (snd kv))] else [])
             fields)
  = restrict K <$> assoc k fields.
Proof.
  intros Hk. induction fields as [|[k' v] fs IH]; simpl; [done|].
  case_bool_decide as Hk'; simpl.
  - destruct (String.eqb k k'); [done | apply IH].
  - destruct (String.eqb_spec k k') as [->|_]; [done | apply IH].
Qed.

(** The serialization under a replacer does not see the properties whose
    names the replacer lacks. *)
Lemma serialize_restrict K' K v :
  (forall k, k ∈ K' -> k ∈ K) ->
  serialize (Some K') (restrict K v) = serialize (Some K') v.
Proof.
  intros Hsub. induction v as [ | | b | n | s | items IH | fields IH ]
    using jsval_induction; try reflexivity.
  - simpl. rewrite map_map.
    replace (map (fun x => match serialize (Some K') (restrict K x) with
                           | Some s => s
                           | None => "null"
                           end) items)
      with (map (fun x => match serialize (Some K') x with
                          | Some s => s
                          | None => "null"
                          end) items); [done|].
    induction IH as [|x xs Hx _ IHxs]; simpl; [done|].
    by rewrite Hx, IHxs.
  - simpl.
    rewrite (members_of_ext K' _
               (map (fun kv => (fst kv, serialize (Some K') (snd kv))) fields));
      [done|].
    intros k Hk.
    rewrite !assoc_map_snd, (assoc_restrict_fields K k fields (Hsub k Hk)).
    induction IH as [|[k' x] xs Hx _ IHxs]; simpl; [done|].
    destruct (String.eqb k k'); simpl in *; [by rewrite Hx | apply IHxs].
Qed.

(** Sorting forgets the order the names came in. *)
Lemma sort_Permutation (l1 l2 : list string) : l1 ≡ₚ l2 -> Js.sort l1 = Js.sort l2.
Proof.
  intros Hp. unfold Js.sort.
  apply (Sorted_unique String.le); try apply Sorted_merge_sort; try apply _.
  by rewrite !merge_sort_Permutation.
Qed.

(* ================================================================== *)
(** * Running the effects *)
(* ================================================================== *)

Lemma bind_run {A B} (m : M A) (f : A -> M B) w :
  bind m f w
  = match m w with
    | Run ev (Ok a) w1 =>
        match f a w1 with
        | Run ev' o w2 => Run (ev ++ ev') o w2
        end
    | Run ev (Throw e) w1 => Run ev (Throw e) w1
    end.
Proof. reflexivity. Qed.

Lemma try_catch_run {A} (m : M A) (h : JsError -> M A) w :
  try_catch m h w
  = match m w with
    | Run ev (Ok a) w1 => Run ev (Ok a) w1
    | Run ev (Throw e) w1 =>
        match h e w1 with
        | Run ev' o w2 => Run (ev ++ ev') o w2
        end
    end.
Proof. reflexivity. Qed.

Lemma request_completion_run {A} (f : nat -> list Message.t -> result A)
  messages w :
  AgentService.request_completion f messages w
  = Run [] (f (completions w) messages) (after_completion w).
Proof.
  unfold AgentService.request_completion, bind, get_world, modify, lift_result.
  simpl. by destruct (f (completions w) messages).
Qed.

Lemma run_tool_run tool toolName toolArgs userIp w :
  AgentService.run_tool tool toolName toolArgs userIp w
  = Run [] (Tool.execute tool (length (executions w))
              (tool_input toolArgs userIp))
      (after_execution toolName (tool_input toolArgs userIp) w).
Proof.
  unfold AgentService.run_tool, bind, get_world, modify, lift_result.
  simpl. by destruct (Tool.execute tool _ _).
Qed.


(* ================================================================== *)
(** * The tool cache key *)
(* ================================================================== *)

(** The key of an argument object is the hash of its serialization under
    its own sorted names. *)
Lemma generateToolCacheKey_object toolName fields :
  RedisService.generateToolCacheKey toolName (VObj fields)
  = Ok (RedisService.simpleHash
          ("{" +:+
           String.concat ","
             (members_of (remove_dups (Js.sort (map fst fields)))
                (map (fun kv =>
                        (fst kv,
                         serialize
                           (Some (remove_dups (Js.sort (map fst fields))))
                           (snd kv)))
                     fields)) +:+ "}")).
Proof. reflexivity. Qed.

Lemma elem_of_sorted_names k (names : list string) :
  k ∈ remove_dups (Js.sort names) <-> k ∈ names.
Proof.
  rewrite elem_of_remove_dups. unfold Js.sort.
  by rewrite merge_sort_Permutation.
Qed.

(** Two objects with the same names, in any order, whose values under each
    name agree up to the properties that no top-level name names, have the
    same members under the replacer. *)
Lemma cache_key_agree toolName (o1 o2 : list (string * jsval)) :
  map fst o1 ≡ₚ map fst o2 ->
  Forall (fun k => restrict (map fst o1) <$> assoc k o1
                   = restrict (map fst o1) <$> assoc k o2) (map fst o1) ->
  RedisService.generateToolCacheKey toolName (VObj o1)
  = RedisService.generateToolCacheKey toolName (VObj o2).
Proof.
  intros Hkeys Hvals.
  rewrite !generateToolCacheKey_object.
  rewrite <- (sort_Permutation _ _ Hkeys).
  set (K := remove_dups (Js.sort (map fst o1))).
  rewrite (members_of_ext K _
             (map (fun kv => (fst kv, serialize (Some K) (snd kv))) o2));
    [done|].
  intros k Hk.
  assert (Hk' : k ∈ map fst o1) by (by apply elem_of_sorted_names).
  rewrite !assoc_map_snd.
  rewrite Forall_forall in Hvals. specialize (Hvals k Hk').
  assert (Hsub : forall k', k' ∈ K -> k' ∈ map fst o1)
    by (intros k'; apply elem_of_sorted_names).
  destruct (assoc k o1) as [v1|], (assoc k o2) as [v2|]; simpl in *;
    try discriminate; [|done].
  injection Hvals as Hvals.
  by rewrite <- (serialize_restrict K (map fst o1) v1 Hsub),
             <- (serialize_restrict K (map fst o1) v2 Hsub), Hvals.
Qed.

(** The order in which the properties were inserted does not change the
    key. *)
Lemma generateToolCacheKey_insertion_order toolName (o1 o2 : list (string * jsval)) :
  NoDup (map fst o1) -> o1 ≡ₚ o2 ->
  RedisService.generateToolCacheKey toolName (VObj o1)
  = RedisService.generateToolCacheKey toolName (VObj o2).
Proof.
  intros Hnd Hp. apply cache_key_agree.
  - by apply Permutation_map.
  - apply Forall_forall. intros k _. by rewrite (assoc_Permutation k o1 o2).
Qed.

(** C10. [generateToolCacheKey] is a function of its arguments that returns
    a key for every argument object, and the same key for two argument
    objects [o1] and [o2] that have the same top-level names, in whatever
    order they were inserted, and under each name values that are equal once
    every property (at any depth) whose name is not a top-level name is
    erased: such properties take no part in the hash.  Equal values are the
    particular case of the first half of the claim. *)
Theorem generateToolCacheKey_stable toolName (o1 o2 : list (string * jsval)) :
  map fst o1 ≡ₚ map fst o2 ->
  Forall (fun k => restrict (map fst o1) <$> assoc k o1
                   = restrict (map fst o1) <$> assoc k o2) (map fst o1) ->
  exists key,
    RedisService.generateToolCacheKey toolName (VObj o1) = Ok key
    /\ RedisService.generateToolCacheKey toolName (VObj o2) = Ok key.
Proof.
  intros Hkeys Hvals.
  rewrite <- (cache_key_agree toolName o1 o2 Hkeys Hvals).
  rewrite generateToolCacheKey_object. eauto.
Qed.

(** Two argument objects that differ in insertion order and in a nested
    property that no top-level name names. *)
Lemma generateToolCacheKey_stable_witness :
  exists key,
    RedisService.generateToolCacheKey "convert_currency"
      (VObj [("to", VStr "EUR");
             ("amount", VObj [("value", VNum 100); ("to", VNum 1)])]) = Ok key
    /\ RedisService.generateToolCacheKey "convert_currency"
         (VObj [("amount", VObj [("to", VNum 1); ("value", VNum 7)]);
                ("to", VStr "EUR")]) = Ok key.
Proof.
  apply (generateToolCacheKey_stable "convert_currency"
           [("to", VStr "EUR");
            ("amount", VObj [("value", VNum 100); ("to", VNum 1)])]
           [("amount", VObj [("to", VNum 1); ("value", VNum 7)]);
            ("to", VStr "EUR")]).
  - simpl. apply perm_swap.
  - repeat constructor.
Defined.

(** The same pair, evaluated: both get the key of [{"amount":{"to":1},"to":"EUR"}]. *)
Example generateToolCacheKey_nested_collision :
  RedisService.generateToolCacheKey "convert_currency"
    (VObj [("amount", VObj [("value", VNum 100)])])
  = RedisService.generateToolCacheKey "convert_currency"
      (VObj [("amount", VObj [("value", VNum 7)])])
  /\ JSON_stringify_with (VObj [("amount", VObj [("value", VNum 100)])])
       ["amount"] = Some ("{" +:+ quote "amount" +:+ ":{}}").
Proof. split; vm_compute; reflexivity. Qed.


(* ================================================================== *)
(** * Conversion of the history *)
(* ================================================================== *)

Section Conversion.
Import AgentService.

Lemma map_result_app {A B} (f : A -> result B) (xs ys : list A) out :
  map_result f (xs ++ ys) = Ok out ->
  exists o1 o2,
    map_result f xs = Ok o1 /\ map_result f ys = Ok o2 /\ out = o1 ++ o2.
Proof.
  revert out. induction xs as [|x xs IH]; simpl; intros out H.
  - exists [], out. auto.
  - destruct (f x) as [y|e]; [|discriminate].
    destruct (map_result f (xs ++ ys)) as [o|e] eqn:E; [|discriminate].
    injection H as <-.
    destruct (IH o eq_refl) as (o1 & o2 & -> & -> & ->).
    exists (y :: o1), o2. auto.
Qed.

(** The conversion treats the messages one by one, in order. *)
Lemma convert_app h1 h2 out :
  convertConversationToOpenAI (h1 ++ h2) = Ok out ->
  exists o1 o2,
    convertConversationToOpenAI h1 = Ok o1
    /\ convertConversationToOpenAI h2 = Ok o2
    /\ out = o1 ++ o2.
Proof.
  unfold convertConversationToOpenAI.
  rewrite map_app, List.filter_app. apply map_result_app.
Qed.

Lemma convert_data m :
  Message.role m = "data" ->
  convertConversationToOpenAI [m] = convertConversationToOpenAI [as_assistant m].
Proof.
  intros Hr. unfold convertConversationToOpenAI; simpl.
  unfold preprocess at 1 2. rewrite Hr. reflexivity.
Qed.

Lemma convert_user_tool_empty m :
  Message.role m = "user" \/ Message.role m = "tool" ->
  opt_truthy (Message.content m) = false ->
  convertConversationToOpenAI [m] = Ok [].
Proof.
  intros Hr Hc. unfold convertConversationToOpenAI; simpl.
  unfold preprocess, keep.
  destruct Hr as [Hr|Hr]; rewrite Hr; simpl; rewrite Hr, Hc; reflexivity.
Qed.

Lemma convert_assistant m :
  Message.role m = "assistant" ->
  convertConversationToOpenAI [m] = Ok []
  <-> opt_truthy (Message.content m) = false /\ has_tool_calls m = false.
Proof.
  intros Hr. unfold convertConversationToOpenAI; simpl.
  unfold preprocess, keep, has_tool_calls. rewrite Hr; simpl. rewrite Hr; simpl.
  destruct (opt_truthy (Message.content m)) eqn:Hc; simpl.
  - unfold to_openai. rewrite Hr; simpl. split; [discriminate | intros [? _]; discriminate].
  - destruct (Message.tool_calls m) as [[|c cs]|]; simpl.
    + tauto.
    + unfold to_openai. rewrite Hr; simpl.
      split; [discriminate | intros [_ ?]; discriminate].
    + tauto.
Qed.

Lemma convert_system m :
  Message.role m = "system" ->
  convertConversationToOpenAI [m]
  = Ok [{| Message.role := "system"; Message.content := Message.content m;
           Message.tool_calls := None; Message.tool_call_id := None |}].
Proof.
  intros Hr. unfold convertConversationToOpenAI; simpl.
  unfold preprocess, keep. rewrite Hr; simpl. rewrite Hr; simpl.
  unfold to_openai. rewrite Hr. reflexivity.
Qed.

(** C7. In a history that is converted, every message [m] contributes, in
    its place, what it contributes alone ([v]), and: a [data] message
    contributes what it would with the [assistant] role; a [user] or [tool]
    message with empty content contributes nothing; an [assistant] message
    contributes nothing if and only if it has neither content nor a
    non-empty list of tool calls; a [system] message contributes itself,
    role and content unchanged. *)
Theorem convertConversationToOpenAI_filters h1 m h2 out :
  convertConversationToOpenAI (h1 ++ m :: h2) = Ok out ->
  exists o1 v o2,
    convertConversationToOpenAI h1 = Ok o1
    /\ convertConversationToOpenAI [m] = Ok v
    /\ convertConversationToOpenAI h2 = Ok o2
    /\ out = o1 ++ v ++ o2
    /\ (Message.role m = "data" ->
        convertConversationToOpenAI [as_assistant m] = Ok v)
    /\ (Message.role m = "user" \/ Message.role m = "tool" ->
        opt_truthy (Message.content m) = false -> v = [])
    /\ (Message.role m = "assistant" ->
        (v = [] <-> opt_truthy (Message.content m) = false
                    /\ has_tool_calls m = false))
    /\ (Message.role m = "system" ->
        v = [{| Message.role := "system"; Message.content := Message.content m;
                Message.tool_calls := None; Message.tool_call_id := None |}]).
Proof.
  intros H.
  destruct (convert_app h1 (m :: h2) out H) as (o1 & o' & H1 & H' & ->).
  destruct (convert_app [m] h2 o' H') as (v & o2 & Hv & H2 & ->).
  exists o1, v, o2. split_and!; try done.
  - intros Hr. by rewrite <- (convert_data m Hr).
  - intros Hr Hc. rewrite (convert_user_tool_empty m Hr Hc) in Hv. by injection Hv.
  - intros Hr. rewrite <- (convert_assistant m Hr), Hv.
    split; [by intros -> | by intros [= ->]].
  - intros Hr. rewrite (convert_system m Hr) in Hv. by injection Hv.
Qed.

(** A history with a [data] message, an empty [user] message, an empty
    [assistant] message and a [system] message. *)
Lemma convertConversationToOpenAI_filters_witness :
  exists o1 v o2,
    convertConversationToOpenAI [sample_data; sample_empty_user] = Ok o1
    /\ convertConversationToOpenAI [sample_empty_assistant] = Ok v
    /\ convertConversationToOpenAI [system_message "be brief"] = Ok o2
    /\ [as_assistant sample_data; system_message "be brief"] = o1 ++ v ++ o2
    /\ (Message.role sample_empty_assistant = "data" ->
        convertConversationToOpenAI [as_assistant sample_empty_assistant] = Ok v)
    /\ (Message.role sample_empty_assistant = "user"
        \/ Message.role sample_empty_assistant = "tool" ->
        opt_truthy (Message.content sample_empty_assistant) = false -> v = [])
    /\ (Message.role sample_empty_assistant = "assistant" ->
        (v = [] <-> opt_truthy (Message.content sample_empty_assistant) = false
                    /\ has_tool_calls sample_empty_assistant = false))
    /\ (Message.role sample_empty_assistant = "system" ->
        v = [{| Message.role := "system";
                Message.content := Message.content sample_empty_assistant;
                Message.tool_calls := None; Message.tool_call_id := None |}]).
Proof.
  apply (convertConversationToOpenAI_filters
           [sample_data; sample_empty_user] sample_empty_assistant
           [system_message "be brief"]).
  reflexivity.
Defined.

End Conversion.


(* ================================================================== *)
(** * Cache reads *)
(* ================================================================== *)

Section CacheReads.
Context (JSON_parse : string -> option jsval).

(** The read path on a healthy server, by what the key holds. *)
Lemma read_cached_path (w : World) (cacheKey : string) :
  healthy w ->
  read_path JSON_parse w cacheKey (RedisService.read_cached JSON_parse cacheKey w).
Proof.
  destruct w as [t [m o] c x h]. unfold healthy; simpl. intros ->.
  unfold read_path, stored, misses_keeping, misses_purging,
    RedisService.read_cached, try_catch, bind, Upstash.get, Upstash.del,
    Upstash.command; simpl.
  destruct (Upstash.live t m cacheKey) as [[v e]|] eqn:El; simpl.
  - split_and!.
    + discriminate.
    + intros cached [= <-] Ht. rewrite Ht. simpl. done.
    + intros cached [= <-] Ht Hc. rewrite Ht. simpl.
      destruct (Upstash.reply v) as [ | | b | n | s | items | fields ];
        simpl in *; try done.
      unfold sentinel in Hc.
      destruct (String.eqb s "[object Object]"
                || RedisService.startsWith s "[object "); simpl in *; [done|].
      destruct (JSON_parse s) as [p|]; simpl in *; done.
    + intros s parsed Hv Hs Hn Hp. injection Hv as Hv. rewrite Hv. simpl.
      rewrite Hs. simpl. unfold sentinel in Hn. rewrite Hn, Hp. simpl. done.
  - split_and!; try done; intros; discriminate.
Qed.

(** C6, as the code has it.  On a connected service and a healthy server,
    for the full-response cache and for the tool-result cache alike: a
    missing key is a miss; a stored value that is falsy (the empty string,
    or a non-string such as [0]) is a miss and the key is kept; a truthy
    stored value that is not a string, or is the sentinel or starts with
    "[object ", or is not parseable as JSON, is a miss and the key is
    deleted; otherwise the parsed value is returned. *)
Theorem cache_read_paths (this : RedisService.t) (w : World)
  (cacheKey toolName argsHash : string) :
  RedisService.off this = false ->
  healthy w ->
  read_path JSON_parse w cacheKey
    (RedisService.getCachedResponse JSON_parse this cacheKey w)
  /\ read_path JSON_parse w (RedisService.tool_key toolName argsHash)
       (RedisService.getCachedToolResult JSON_parse this toolName argsHash w).
Proof.
  intros Hon Hw.
  unfold RedisService.getCachedResponse, RedisService.getCachedToolResult.
  rewrite Hon. split; by apply read_cached_path.
Qed.

End CacheReads.

(** The read paths on a server seeded with the sentinel. *)
Lemma cache_read_paths_witness :
  read_path Samples.JSON_parse
    (world_at 0 {[ "agent_response:1f:0" := (RStr "[object Object]", None) ]} [])
    "agent_response:1f:0"
    (RedisService.getCachedResponse Samples.JSON_parse redis_on
       "agent_response:1f:0"
       (world_at 0 {[ "agent_response:1f:0" := (RStr "[object Object]", None) ]} []))
  /\ read_path Samples.JSON_parse
       (world_at 0 {[ "agent_response:1f:0" := (RStr "[object Object]", None) ]} [])
       (RedisService.tool_key "convert_currency" "1f")
       (RedisService.getCachedToolResult Samples.JSON_parse redis_on
          "convert_currency" "1f"
          (world_at 0 {[ "agent_response:1f:0" := (RStr "[object Object]", None) ]} [])).
Proof.
  apply (cache_read_paths Samples.JSON_parse redis_on
           (world_at 0 {[ "agent_response:1f:0" := (RStr "[object Object]", None) ]} [])
           "agent_response:1f:0" "convert_currency" "1f");
    reflexivity.
Defined.

(** The check of the specification: seed the store with the sentinel, read,
    and the read misses and the key is gone. *)
Example sentinel_is_purged :
  let w := world_at 0 {[ "k" := (RStr "[object Object]", None) ]} [] in
  let r := RedisService.getCachedResponse Samples.JSON_parse redis_on "k" w in
  outcome r = Ok VNull /\ kv (remote (world r)) !! "k" = None.
Proof. split; reflexivity. Qed.

(** A stored text that is parseable comes back parsed. *)
Example cached_text_is_parsed :
  let w := world_at 0 {[ "k" := (RStr "[1,2]", None) ]} [] in
  let r := RedisService.getCachedResponse Samples.JSON_parse redis_on "k" w in
  outcome r = Ok (VArr [VNum 1; VNum 2])
  /\ kv (remote (world r)) !! "k" = Some (RStr "[1,2]", None).
Proof. split; reflexivity. Qed.

(** C6 as stated fails on the empty string: it is a string that is not
    parseable as JSON, yet the read leaves the key in the store. *)
Lemma empty_string_is_not_purged :
  Samples.JSON_parse "" = None
  /\ outcome
       (RedisService.getCachedResponse Samples.JSON_parse redis_on "k"
          (world_at 0 {[ "k" := (RStr "", None) ]} [])) = Ok VNull
  /\ kv (remote
           (world
              (RedisService.getCachedResponse Samples.JSON_parse redis_on "k"
                 (world_at 0 {[ "k" := (RStr "", None) ]} []))))
     !! "k" = Some (RStr "", None).
Proof. split_and!; reflexivity. Qed.

(** Nor is a stored value that is not a string when it is falsy. *)
Example falsy_non_string_is_not_purged :
  let w := world_at 0 {[ "tool_result:t:h" := (RRaw (VNum 0), None) ]} [] in
  let r := RedisService.getCachedToolResult Samples.JSON_parse redis_on "t" "h" w in
  outcome r = Ok VNull
  /\ kv (remote (world r)) = kv (remote w).
Proof. split; reflexivity. Qed.



(* ================================================================== *)
(** * The store and the rate-limit guard *)
(* ================================================================== *)

Lemma live_insert_eq t (m : gmap string (rval * option Z)) k v e :
  Upstash.live t (<[k := (v, e)]> m) k
  = match e with
    | Some e' => if e' <=? t then None else Some (v, e)
    | None => Some (v, None)
    end.
Proof. unfold Upstash.live. rewrite lookup_insert_eq. by destruct e. Qed.

Lemma live_insert_ne t (m : gmap string (rval * option Z)) k k' x :
  k ≠ k' -> Upstash.live t (<[k := x]> m) k' = Upstash.live t m k'.
Proof. intros H. unfold Upstash.live. by rewrite lookup_insert_ne. Qed.

Lemma live_lookup t (m m' : gmap string (rval * option Z)) k :
  m !! k = m' !! k -> Upstash.live t m k = Upstash.live t m' k.
Proof. unfold Upstash.live. by intros ->. Qed.

Lemma live_None_lookup t (m : gmap string (rval * option Z)) k :
  m !! k = None -> Upstash.live t m k = None.
Proof. unfold Upstash.live. by intros ->. Qed.

Lemma ceil_div_1000_mul (a : Z) : RateLimitGuard.ceil_div_1000 (a * 1000) = a.
Proof.
  unfold RateLimitGuard.ceil_div_1000.
  rewrite <- Z.mul_opp_l, Z.div_mul by lia. lia.
Qed.

Lemma rate_key_inj a b : RedisService.rate_key a = RedisService.rate_key b -> a = b.
Proof. unfold RedisService.rate_key. apply String.app_inj. Qed.

Lemma block_key_inj a b :
  RedisService.block_key a = RedisService.block_key b -> a = b.
Proof. unfold RedisService.block_key. apply String.app_inj. Qed.

Lemma rate_key_block_key a b : RedisService.rate_key a ≠ RedisService.block_key b.
Proof. discriminate. Qed.

(** The keys of two clients, and the two keys of a client, are distinct. *)
Ltac distinct_keys :=
  first
    [ apply rate_key_block_key
    | apply not_eq_sym, rate_key_block_key
    | let H := fresh in intros H; apply rate_key_inj in H; congruence
    | let H := fresh in intros H; apply block_key_inj in H; congruence ].

(** Unfolding of the guard and of the store methods it calls. *)
Ltac unfold_guard :=
  unfold RateLimitGuard.canActivate, RateLimitGuard.checkRateLimit,
    RedisService.getBlockInfo, RedisService.incrementRateLimit,
    RedisService.getRateLimitInfo, RedisService.setBlock,
    RateLimitGuard.set_headers, RateLimitGuard.Date_now.

Ltac unfold_eff :=
  unfold try_catch, promise_all2, bind, ret, throw, modify, get_world,
    Upstash.exists_, Upstash.ttl, Upstash.get, Upstash.incr, Upstash.expire,
    Upstash.setex, Upstash.del, Upstash.command.

Section Guard.
Import RateLimitGuard.
Context (this : RateLimitGuard.t) (request : Request).
Hypothesis (Henabled : enabled this = true).
Hypothesis (Hon : RedisService.off (redisService this) = false).

#[local] Abbreviation rk := (RedisService.rate_key (getClientIdentifier request)).
#[local] Abbreviation bk := (RedisService.block_key (getClientIdentifier request)).
#[local] Abbreviation N := (maxRequests this).
#[local] Abbreviation W := (windowSeconds this).
#[local] Abbreviation B := (blockDurationSeconds this).

(** A blocked client is rejected with the seconds its block has left, and
    nothing is written. *)
Lemma canActivate_blocked t m c x h v e :
  Upstash.live t m bk = Some (v, Some e) ->
  canActivate this request
    {| now := t; remote := {| kv := m; outages := [] |}; completions := c;
       executions := x; responseHeaders := h |}
  = Run [] (too_many (e - t))
      {| now := t; remote := {| kv := m; outages := [] |}; completions := c;
         executions := x; responseHeaders := h |}.
Proof.
  intros Hb. unfold_guard. rewrite Henabled, Hon. unfold_eff.
  repeat (progress (simpl; rewrite ?Hb)).
  by rewrite ceil_div_1000_mul.
Qed.

(** The first request of a window sets the counter to one, with the window
    as its time to live. *)
Lemma canActivate_first t m c x h :
  0 < W -> 0 < B ->
  Upstash.live t m bk = None ->
  Upstash.live t m rk = None ->
  canActivate this request
    {| now := t; remote := {| kv := m; outages := [] |}; completions := c;
       executions := x; responseHeaders := h |}
  = if 1 <=? N then
      Run [] (Ok true)
        {| now := t;
           remote := {| kv := <[rk := (RInt 1, Some (t + W))]> m; outages := [] |};
           completions := c; executions := x;
           responseHeaders := admitted_headers this 1 (t * 1000 + W * 1000) |}
    else
      Run [] (too_many B)
        {| now := t;
           remote := {| kv := <[bk := (RStr "1", Some (t + B))]>
                                (<[rk := (RInt 1, Some (t + W))]> m);
                        outages := [] |};
           completions := c; executions := x; responseHeaders := h |}.
Proof.
  intros HW HB Hb Hc. unfold_guard. rewrite Henabled, Hon. unfold_eff.
  repeat (progress (simpl; rewrite ?Hb, ?Hc, ?live_insert_eq)).
  destruct (W <=? 0) eqn:EW; [lia|].
  destruct (B <=? 0) eqn:EB; [lia|].
  repeat (progress (simpl; rewrite ?Hb, ?Hc, ?live_insert_eq, ?insert_insert_eq)).
  destruct (1 <=? N); simpl; rewrite ?EB; reflexivity.
Qed.

(** A later request of the window adds one to the counter and leaves its
    time to live as it is. *)
Lemma canActivate_next t m c x h n e :
  0 < B -> 1 <= n ->
  Upstash.live t m bk = None ->
  Upstash.live t m rk = Some (RInt n, Some e) ->
  canActivate this request
    {| now := t; remote := {| kv := m; outages := [] |}; completions := c;
       executions := x; responseHeaders := h |}
  = if n + 1 <=? N then
      Run [] (Ok true)
        {| now := t;
           remote := {| kv := <[rk := (RInt (n + 1), Some e)]> m; outages := [] |};
           completions := c; executions := x;
           responseHeaders :=
             admitted_headers this (n + 1) (t * 1000 + (e - t) * 1000) |}
    else
      Run [] (too_many B)
        {| now := t;
           remote := {| kv := <[bk := (RStr "1", Some (t + B))]>
                                (<[rk := (RInt (n + 1), Some e)]> m);
                        outages := [] |};
           completions := c; executions := x; responseHeaders := h |}.
Proof.
  intros HB Hn Hb Hc. unfold_guard. rewrite Henabled, Hon. unfold_eff.
  assert (He : (e <=? t) = false).
  { unfold Upstash.live in Hc. destruct (m !! rk) as [[v [e'|]]|]; try done.
    destruct (e' <=? t) eqn:E; [done|]. by injection Hc as _ <-. }
  repeat (progress (simpl; rewrite ?Hb, ?Hc)).
  destruct (n + 1 =? 1) eqn:E1; [lia|].
  destruct (B <=? 0) eqn:EB; [lia|].
  repeat (progress (simpl; rewrite ?Hb, ?Hc, ?live_insert_eq, ?He)).
  destruct (n + 1 <=? N); simpl; rewrite ?EB; reflexivity.
Qed.

(** The store methods of the guard on a healthy server. *)

Lemma getBlockInfo_healthy identifier t m c x h :
  RedisService.getBlockInfo (redisService this) identifier
    {| now := t; remote := {| kv := m; outages := [] |}; completions := c;
       executions := x; responseHeaders := h |}
  = Run []
      (Ok (match Upstash.live t m (RedisService.block_key identifier) with
           | Some (_, Some e) => (true, e - t)
           | Some (_, None) => (true, -1)
           | None => (false, -2)
           end))
      {| now := t; remote := {| kv := m; outages := [] |}; completions := c;
         executions := x; responseHeaders := h |}.
Proof.
  unfold RedisService.getBlockInfo. rewrite Hon. unfold_eff.
  destruct (Upstash.live t m (RedisService.block_key identifier))
    as [[v [e|]]|] eqn:Hb; repeat (progress (simpl; rewrite ?Hb)); done.
Qed.

Lemma incrementRateLimit_healthy identifier t m c x h :
  exists m',
    RedisService.incrementRateLimit (redisService this) identifier W
      {| now := t; remote := {| kv := m; outages := [] |}; completions := c;
         executions := x; responseHeaders := h |}
    = Run []
        (increment_outcome
           (Upstash.live t m (RedisService.rate_key identifier)))
        {| now := t; remote := {| kv := m'; outages := [] |}; completions := c;
           executions := x; responseHeaders := h |}.
Proof.
  unfold RedisService.incrementRateLimit. rewrite Hon. unfold_eff.
  unfold increment_outcome.
  destruct (Upstash.live t m (RedisService.rate_key identifier))
    as [[v e]|] eqn:Hc; repeat (progress (simpl; rewrite ?Hc)).
  - destruct (Upstash.as_integer v) as [n|]; simpl; [|eauto].
    destruct (n + 1 =? 1); simpl; [|eauto].
    rewrite live_insert_eq.
    destruct e as [e'|]; simpl.
    + destruct (e' <=? t); simpl; [eauto|]. destruct (W <=? 0); simpl; eauto.
    + destruct (W <=? 0); simpl; eauto.
  - rewrite live_insert_eq. destruct (W <=? 0); simpl; eauto.
Qed.

Lemma getRateLimitInfo_healthy identifier t m c x h :
  exists info,
    RedisService.getRateLimitInfo (redisService this) identifier
      {| now := t; remote := {| kv := m; outages := [] |}; completions := c;
         executions := x; responseHeaders := h |}
    = Run [] (Ok info)
        {| now := t; remote := {| kv := m; outages := [] |}; completions := c;
           executions := x; responseHeaders := h |}.
Proof.
  unfold RedisService.getRateLimitInfo. rewrite Hon. unfold_eff.
  destruct (Upstash.live t m (RedisService.rate_key identifier))
    as [[v [e|]]|] eqn:Hc; repeat (progress (simpl; rewrite ?Hc)); eauto.
Qed.

Lemma setBlock_healthy identifier d t m c x h :
  RedisService.setBlock (redisService this) identifier d
    {| now := t; remote := {| kv := m; outages := [] |}; completions := c;
       executions := x; responseHeaders := h |}
  = if d <=? 0 then
      Run [] (Throw (GenericError "ERR invalid expire time"))
        {| now := t; remote := {| kv := m; outages := [] |}; completions := c;
           executions := x; responseHeaders := h |}
    else
      Run [] (Ok tt)
        {| now := t;
           remote := {| kv := <[RedisService.block_key identifier
                                := (RStr "1", Some (t + d))]> m;
                        outages := [] |};
           completions := c; executions := x; responseHeaders := h |}.
Proof.
  unfold RedisService.setBlock. rewrite Hon. unfold_eff. simpl.
  by destruct (d <=? 0).
Qed.

(** On a healthy server the decision is a function of what the two keys of
    the client hold. *)
Lemma canActivate_decides t m c x h :
  outcome (canActivate this request
             {| now := t; remote := {| kv := m; outages := [] |};
                completions := c; executions := x; responseHeaders := h |})
  = decision this t (Upstash.live t m bk) (Upstash.live t m rk).
Proof.
  unfold canActivate, checkRateLimit. rewrite Henabled. simpl.
  unfold try_catch, bind. rewrite getBlockInfo_healthy.
  unfold decision.
  destruct (Upstash.live t m bk) as [[vb [eb|]]|] eqn:Hb.
  - simpl. by rewrite ceil_div_1000_mul.
  - simpl. by rewrite (ceil_div_1000_mul (-1)).
  - cbv beta iota.
    destruct (incrementRateLimit_healthy (getClientIdentifier request) t m c x h)
      as [m' ->].
    unfold increment_outcome.
    destruct (Upstash.live t m rk) as [[vc ec]|] eqn:Hc.
    + destruct (Upstash.as_integer vc) as [n|]; [|done].
      cbv beta iota.
      assert (Hreset : exists reset,
                 (if n + 1 =? 1
                  then bind Date_now (fun t0 => ret (t0 + W * 1000))
                  else bind (RedisService.getRateLimitInfo (redisService this)
                               (getClientIdentifier request))
                         (fun info =>
                            bind Date_now
                              (fun t0 => ret (t0 + snd info * 1000))))
                   {| now := t; remote := {| kv := m'; outages := [] |};
                      completions := c; executions := x; responseHeaders := h |}
                 = Run [] (Ok reset)
                     {| now := t; remote := {| kv := m'; outages := [] |};
                        completions := c; executions := x;
                        responseHeaders := h |}).
      { destruct (n + 1 =? 1); [by eexists|].
        destruct (getRateLimitInfo_healthy (getClientIdentifier request)
                    t m' c x h) as [info Hinfo].
        unfold bind at 1. rewrite Hinfo. by eexists. }
      destruct Hreset as [reset Hreset]. unfold bind in Hreset. rewrite Hreset.
      cbv beta iota. simpl.
      destruct (n + 1 <=? N); simpl; [done|].
      rewrite setBlock_healthy. by destruct (B <=? 0).
    + cbv beta iota. simpl.
      destruct (1 <=? N); simpl; [done|].
      rewrite setBlock_healthy. by destruct (B <=? 0).
Qed.

Lemma serve_app ts1 ts2 w :
  serve this request (ts1 ++ ts2) w
  = let '(o1, w1) := serve this request ts1 w in
    let '(o2, w2) := serve this request ts2 w1 in
    (o1 ++ o2, w2).
Proof.
  revert w. induction ts1 as [|t ts1 IH]; intros w; simpl.
  - by destruct (serve this request ts2 w).
  - rewrite IH.
    destruct (serve this request ts1 _) as [o1 w1].
    by destruct (serve this request ts2 w1).
Qed.

(** While the count stays within the maximum, the requests of a window are
    admitted, each adds one to the counter, and the time to live of the
    counter stays the one it got first. *)
Lemma serve_counting ts : forall n e w,
  0 < B -> 1 <= n -> n + Z.of_nat (length ts) <= N ->
  healthy w ->
  Forall (fun t => Upstash.live t (kv (remote w)) bk = None) ts ->
  kv (remote w) !! rk = Some (RInt n, Some e) ->
  Forall (fun t => t < e) ts ->
  exists w',
    serve this request ts w = (replicate (length ts) (Ok true), w')
    /\ healthy w'
    /\ kv (remote w')
       = <[rk := (RInt (n + Z.of_nat (length ts)), Some e)]> (kv (remote w)).
Proof.
  induction ts as [|t ts IH]; intros n e w HB Hn Hle Hw Hbs Hc Hts.
  - exists w. simpl. split_and!; [done..|].
    rewrite Z.add_0_r. symmetry. by apply insert_id.
  - destruct w as [t0 [m o] c x h]. unfold healthy in Hw. simpl in *. subst o.
    apply Forall_cons in Hbs as [Hb Hbs]. apply Forall_cons in Hts as [Ht Hts].
    assert (Hlive : Upstash.live t m rk = Some (RInt n, Some e)).
    { unfold Upstash.live. rewrite Hc.
      destruct (e <=? t) eqn:E; [lia | done]. }
    unfold at_time; simpl.
    rewrite (canActivate_next t m c x h n e HB Hn Hb Hlive).
    destruct (n + 1 <=? N) eqn:E; [|lia]. simpl.
    destruct (IH (n + 1) e
                {| now := t;
                   remote := {| kv := <[rk := (RInt (n + 1), Some e)]> m;
                                outages := [] |};
                   completions := c; executions := x;
                   responseHeaders :=
                     admitted_headers this (n + 1) (t * 1000 + (e - t) * 1000) |})
      as (w' & Hs & Hw' & Hkv); simpl; try done; try lia.
    + eapply Forall_impl; [exact Hbs|]. simpl. intros t' Ht'.
      rewrite live_insert_ne; [done | apply rate_key_block_key].
    + by rewrite lookup_insert_eq.
    + exists w'. rewrite Hs. split_and!; [done..|].
      rewrite Hkv. simpl. rewrite insert_insert_eq. do 3 f_equal. lia.
Qed.

Lemma live_None_later t t' (m : gmap string (rval * option Z)) k :
  Upstash.live t m k = None -> t <= t' -> Upstash.live t' m k = None.
Proof.
  unfold Upstash.live. destruct (m !! k) as [[v [e|]]|]; try done.
  destruct (e <=? t) eqn:E; [|done]. intros _ Ht.
  destruct (e <=? t') eqn:E'; [done | lia].
Qed.

(** A window served from its first request to the request that exceeds the
    maximum: the outcomes, and what the server holds afterwards. *)
Lemma serve_window t1 tl times w0 :
  0 <= N -> 0 < W -> 0 < B ->
  healthy w0 ->
  Upstash.live t1 (kv (remote w0)) rk = None ->
  Upstash.live t1 (kv (remote w0)) bk = None ->
  head times = Some t1 -> last times = Some tl ->
  length times = S (Z.to_nat N) ->
  Forall (fun t => t1 <= t < t1 + W) times ->
  exists w',
    serve this request times w0
    = (replicate (Z.to_nat N) (Ok true) ++ [too_many B], w')
    /\ healthy w'
    /\ kv (remote w')
       = <[bk := (RStr "1", Some (tl + B))]>
           (<[rk := (RInt (N + 1), Some (t1 + W))]> (kv (remote w0))).
Proof.
  intros HN HW HB Hw Hc Hb Hhd Hlast Hlen Hts.
  destruct times as [|t rest]; [done|]. injection Hhd as ->.
  destruct w0 as [t0 [m o] c x h]. unfold healthy in Hw. simpl in *. subst o.
  unfold at_time; simpl.
  rewrite (canActivate_first t1 m c x h HW HB Hb Hc).
  apply Forall_cons in Hts as [_ Hts].
  destruct (1 <=? N) eqn:E1.
  - (* at least one request is admitted *)
    apply Z.leb_le in E1.
    destruct rest as [|t2 rest'] using rev_ind; [simpl in Hlen; lia|].
    clear IHrest'. rewrite last_cons, last_snoc in Hlast. injection Hlast as ->.
    rewrite length_app in Hlen. simpl in Hlen.
    apply Forall_app in Hts as [Hmid Hlast]. rewrite Forall_singleton in Hlast.
    simpl. rewrite serve_app.
    destruct (serve_counting rest' 1 (t1 + W)
                {| now := t1;
                   remote := {| kv := <[rk := (RInt 1, Some (t1 + W))]> m;
                                outages := [] |};
                   completions := c; executions := x;
                   responseHeaders :=
                     admitted_headers this 1 (t1 * 1000 + W * 1000) |})
      as (w1 & Hs & Hw1 & Hkv1); simpl; try done; try lia.
    + eapply Forall_impl; [exact Hmid|]. simpl. intros t' Ht'.
      rewrite live_insert_ne by apply rate_key_block_key.
      apply (live_None_later t1); [done | lia].
    + by rewrite lookup_insert_eq.
    + eapply Forall_impl; [exact Hmid|]. simpl. lia.
    + rewrite Hs. simpl in Hkv1. rewrite insert_insert_eq in Hkv1.
      destruct w1 as [t1' [m1 o1] c1 x1 h1]. unfold healthy in Hw1.
      simpl in *. subst o1 m1. unfold at_time; simpl.
      assert (Hn : 1 + Z.of_nat (length rest') = N) by lia.
      rewrite (canActivate_next tl _ c1 x1 h1 N (t1 + W) HB); try lia.
      * destruct (N + 1 <=? N) eqn:E; [lia|].
        eexists. split_and!.
        -- f_equal. replace (Z.to_nat N) with (S (length rest')) by lia.
           reflexivity.
        -- done.
        -- simpl. by rewrite insert_insert_eq.
      * rewrite live_insert_ne by apply rate_key_block_key.
        apply (live_None_later t1); [done | lia].
      * rewrite live_insert_eq, Hn.
        destruct (t1 + W <=? tl) eqn:E; [lia | done].
  - (* a maximum of zero: the first request is the one that is rejected *)
    apply Z.leb_gt in E1. assert (N = 0) as HN0 by lia.
    rewrite HN0 in *. simpl in Hlen.
    destruct rest; [|simpl in Hlen; lia]. simpl in Hlast. injection Hlast as ->.
    simpl. eexists. split_and!; done.
Qed.

End Guard.

(** C3, as the code has it.  With rate limiting enabled on a healthy,
    connected store, a maximum of [N] requests, a window of [W] seconds and
    a block of [B] seconds, for a client without a live counter or block:
    of [N + 1] requests made inside one window the first [N] are admitted
    and the last is rejected with the too-many-requests outcome, retry after
    [B]; the counter ends at [N + 1] with the time to live set by the first
    request only; a block of [B] seconds from the rejected request is
    established, under which the client is rejected with the seconds left;
    a request of another client is decided as it would have been before;
    and once the block and the window have both elapsed, the client is
    admitted again if [N] is at least one.  The server stays healthy; and
    while the counter is still live after the block has elapsed, the next
    request is counted (the counter goes to [N + 2], its time to live as it
    was), is rejected with retry after [B], and establishes a new block of
    [B] seconds from that request. *)
Theorem rate_admission (this : RateLimitGuard.t)
  (request : RateLimitGuard.Request) (w0 : World) (t1 tl : Z) (times : list Z) :
  RateLimitGuard.enabled this = true ->
  RedisService.off (RateLimitGuard.redisService this) = false ->
  0 <= RateLimitGuard.maxRequests this ->
  0 < RateLimitGuard.windowSeconds this ->
  0 < RateLimitGuard.blockDurationSeconds this ->
  healthy w0 ->
  Upstash.live t1 (kv (remote w0))
    (RedisService.rate_key (RateLimitGuard.getClientIdentifier request)) = None ->
  Upstash.live t1 (kv (remote w0))
    (RedisService.block_key (RateLimitGuard.getClientIdentifier request)) = None ->
  head times = Some t1 -> last times = Some tl ->
  length times = S (Z.to_nat (RateLimitGuard.maxRequests this)) ->
  Forall (fun t => t1 <= t < t1 + RateLimitGuard.windowSeconds this) times ->
  exists w',
    serve this request times w0
    = (replicate (Z.to_nat (RateLimitGuard.maxRequests this)) (Ok true)
       ++ [too_many (RateLimitGuard.blockDurationSeconds this)], w')
    /\ kv (remote w')
         !! RedisService.rate_key (RateLimitGuard.getClientIdentifier request)
       = Some (RInt (RateLimitGuard.maxRequests this + 1),
               Some (t1 + RateLimitGuard.windowSeconds this))
    /\ kv (remote w')
         !! RedisService.block_key (RateLimitGuard.getClientIdentifier request)
       = Some (RStr "1", Some (tl + RateLimitGuard.blockDurationSeconds this))
    /\ (forall t, t < tl + RateLimitGuard.blockDurationSeconds this ->
        outcome (RateLimitGuard.canActivate this request (at_time t w'))
        = too_many (tl + RateLimitGuard.blockDurationSeconds this - t))
    /\ (forall request2 t,
        RateLimitGuard.getClientIdentifier request2
        <> RateLimitGuard.getClientIdentifier request ->
        outcome (RateLimitGuard.canActivate this request2 (at_time t w'))
        = outcome (RateLimitGuard.canActivate this request2 (at_time t w0)))
    /\ (forall t, tl + RateLimitGuard.blockDurationSeconds this <= t ->
        t1 + RateLimitGuard.windowSeconds this <= t ->
        1 <= RateLimitGuard.maxRequests this ->
        outcome (RateLimitGuard.canActivate this request (at_time t w'))
        = Ok true)
    /\ healthy w'
    /\ (forall t, tl + RateLimitGuard.blockDurationSeconds this <= t ->
        t < t1 + RateLimitGuard.windowSeconds this ->
        exists w'',
          RateLimitGuard.canActivate this request (at_time t w')
          = Run [] (too_many (RateLimitGuard.blockDurationSeconds this)) w''
          /\ healthy w''
          /\ kv (remote w'')
               !! RedisService.rate_key
                    (RateLimitGuard.getClientIdentifier request)
             = Some (RInt (RateLimitGuard.maxRequests this + 2),
                     Some (t1 + RateLimitGuard.windowSeconds this))
          /\ kv (remote w'')
               !! RedisService.block_key
                    (RateLimitGuard.getClientIdentifier request)
             = Some (RStr "1",
                     Some (t + RateLimitGuard.blockDurationSeconds this))
          /\ responseHeaders w'' = responseHeaders w').
Proof.
  intros He Hon HN HW HB Hw Hc Hb Hhd Hlast Hlen Hts.
  destruct (serve_window this request He Hon t1 tl times w0)
    as (w' & Hs & Hw' & Hkv); try done.
  exists w'. split; [exact Hs|].
  destruct w' as [t' [m' o'] c' x' h']. unfold healthy in Hw'. simpl in *.
  subst o'.
  destruct w0 as [t0 [m0 o0] c0 x0 h0]. unfold healthy in Hw. simpl in *.
  subst o0.
  split_and!.
  - rewrite Hkv, lookup_insert_ne by (symmetry; apply rate_key_block_key).
    by rewrite lookup_insert_eq.
  - by rewrite Hkv, lookup_insert_eq.
  - intros t Ht. unfold at_time; simpl.
    rewrite (canActivate_decides this request He Hon), Hkv, live_insert_eq.
    unfold decision.
    destruct (tl + RateLimitGuard.blockDurationSeconds this <=? t) eqn:E;
      [lia | done].
  - intros request2 t Hne. unfold at_time; simpl.
    rewrite !(canActivate_decides this request2 He Hon), Hkv.
    by rewrite !live_insert_ne by distinct_keys.
  - intros t Ht1 Ht2 H1. unfold at_time; simpl.
    rewrite (canActivate_decides this request He Hon), Hkv.
    rewrite live_insert_eq.
    rewrite live_insert_ne by distinct_keys.
    rewrite live_insert_eq. unfold decision.
    destruct (tl + RateLimitGuard.blockDurationSeconds this <=? t) eqn:E; [|lia].
    destruct (t1 + RateLimitGuard.windowSeconds this <=? t) eqn:E'; [|lia].
    destruct (1 <=? RateLimitGuard.maxRequests this) eqn:E''; [done | lia].
  - done.
  - intros t Ht1 Ht2. unfold at_time; simpl.
    rewrite (canActivate_next this request He Hon t m' c' x' h'
               (RateLimitGuard.maxRequests this + 1)
               (t1 + RateLimitGuard.windowSeconds this) HB); [|lia|..].
    + destruct (RateLimitGuard.maxRequests this + 1 + 1
                <=? RateLimitGuard.maxRequests this) eqn:E; [lia|].
      eexists. split; [reflexivity|]. simpl. split_and!.
      * done.
      * rewrite lookup_insert_ne by (symmetry; apply rate_key_block_key).
        rewrite lookup_insert_eq. do 3 f_equal. lia.
      * by rewrite lookup_insert_eq.
      * done.
    + rewrite Hkv, live_insert_eq.
      by destruct (tl + RateLimitGuard.blockDurationSeconds this <=? t) eqn:E;
        [|lia].
    + rewrite Hkv, live_insert_ne by distinct_keys.
      rewrite live_insert_eq.
      by destruct (t1 + RateLimitGuard.windowSeconds this <=? t) eqn:E; [lia|].
Qed.


(** A maximum of two requests per five minutes, blocks of fifteen minutes:
    three requests at seconds 10, 20 and 30. *)
Lemma rate_admission_witness :
  exists w',
    serve (guard 2 300 900) (request_from "10.0.0.7") [10; 20; 30]
      (world_at 0 ∅ [])
    = (replicate (Z.to_nat 2) (Ok true) ++ [too_many 900], w')
    /\ kv (remote w')
         !! RedisService.rate_key
              (RateLimitGuard.getClientIdentifier (request_from "10.0.0.7"))
       = Some (RInt (2 + 1), Some (10 + 300))
    /\ kv (remote w')
         !! RedisService.block_key
              (RateLimitGuard.getClientIdentifier (request_from "10.0.0.7"))
       = Some (RStr "1", Some (30 + 900))
    /\ (forall t, t < 30 + 900 ->
        outcome (RateLimitGuard.canActivate (guard 2 300 900)
                   (request_from "10.0.0.7") (at_time t w'))
        = too_many (30 + 900 - t))
    /\ (forall request2 t,
        RateLimitGuard.getClientIdentifier request2
        <> RateLimitGuard.getClientIdentifier (request_from "10.0.0.7") ->
        outcome (RateLimitGuard.canActivate (guard 2 300 900) request2
                   (at_time t w'))
        = outcome (RateLimitGuard.canActivate (guard 2 300 900) request2
                     (at_time t (world_at 0 ∅ []))))
    /\ (forall t, 30 + 900 <= t -> 10 + 300 <= t -> 1 <= 2 ->
        outcome (RateLimitGuard.canActivate (guard 2 300 900)
                   (request_from "10.0.0.7") (at_time t w'))
        = Ok true)
    /\ healthy w'
    /\ (forall t, 30 + 900 <= t -> t < 10 + 300 ->
        exists w'',
          RateLimitGuard.canActivate (guard 2 300 900)
            (request_from "10.0.0.7") (at_time t w')
          = Run [] (too_many 900) w''
          /\ healthy w''
          /\ kv (remote w'')
               !! RedisService.rate_key
                    (RateLimitGuard.getClientIdentifier
                       (request_from "10.0.0.7"))
             = Some (RInt (2 + 2), Some (10 + 300))
          /\ kv (remote w'')
               !! RedisService.block_key
                    (RateLimitGuard.getClientIdentifier
                       (request_from "10.0.0.7"))
             = Some (RStr "1", Some (t + 900))
          /\ responseHeaders w'' = responseHeaders w').
Proof.
  apply (rate_admission (guard 2 300 900) (request_from "10.0.0.7")
           (world_at 0 ∅ []) 10 30 [10; 20; 30]);
    try reflexivity; try (simpl; lia).
  repeat constructor; simpl; lia.
Defined.

(** The same run, evaluated. *)
Example three_requests_of_two :
  fst (serve (guard 2 300 900) (request_from "10.0.0.7") [10; 20; 30]
         (world_at 0 ∅ []))
  = [Ok true; Ok true; too_many 900].
Proof. vm_compute. reflexivity. Qed.

(** C3 as stated fails when the window outlasts the block: with a maximum of
    one request per 100 seconds and blocks of 10 seconds, the second request
    (second 1) is rejected and blocks the client until second 11; at second
    11 the block has elapsed, yet the request is rejected again, because the
    counter of the window still stands. *)
Lemma block_elapsed_still_rejected :
  fst (serve (guard 1 100 10) (request_from "10.0.0.7") [0; 1]
         (world_at 0 ∅ []))
  = [Ok true; too_many 10]
  /\ Upstash.live 11
       (kv (remote (snd (serve (guard 1 100 10) (request_from "10.0.0.7")
                           [0; 1] (world_at 0 ∅ [])))))
       (RedisService.block_key
          (RateLimitGuard.getClientIdentifier (request_from "10.0.0.7")))
     = None
  /\ fst (serve (guard 1 100 10) (request_from "10.0.0.7") [0; 1; 11]
            (world_at 0 ∅ []))
     = [Ok true; too_many 10; too_many 10].
Proof. split; [|split]; vm_compute; reflexivity. Qed.

(** The same run with its second window: the request of second 11 is counted
    (the counter goes to three, still expiring at second 100) and sets a
    new block, until second 21. *)
Example block_elapsed_new_block :
  let w := snd (serve (guard 1 100 10) (request_from "10.0.0.7") [0; 1; 11]
                  (world_at 0 ∅ [])) in
  kv (remote w)
    !! RedisService.rate_key
         (RateLimitGuard.getClientIdentifier (request_from "10.0.0.7"))
  = Some (RInt 3, Some 100)
  /\ kv (remote w)
       !! RedisService.block_key
            (RateLimitGuard.getClientIdentifier (request_from "10.0.0.7"))
     = Some (RStr "1", Some 21).
Proof. split; vm_compute; reflexivity. Qed.


(* ================================================================== *)
(** * Store failures *)
(* ================================================================== *)

Lemma never_rejects_ret {A} (a : A) : never_rejects (ret a).
Proof. intros w s r. discriminate. Qed.

Lemma never_rejects_bind {A B} (m : M A) (f : A -> M B) :
  never_rejects m -> (forall a, never_rejects (f a)) -> never_rejects (bind m f).
Proof.
  intros Hm Hf w s r. unfold bind.
  specialize (Hm w s r). destruct (m w) as [ev [a|e] w1]; simpl in *.
  - specialize (Hf a w1 s r). destruct (f a w1) as [ev' o w2]. exact Hf.
  - intros [= ->]. by apply Hm.
Qed.

Lemma never_rejects_try_catch {A} (m : M A) (h : JsError -> M A) :
  (forall e, never_rejects (h e)) -> never_rejects (try_catch m h).
Proof.
  intros Hh w s r. unfold try_catch.
  destruct (m w) as [ev [a|e] w1]; simpl; [done|].
  specialize (Hh e w1 s r). destruct (h e w1) as [ev' o w2]. exact Hh.
Qed.

Lemma never_rejects_promise_all2 {A B} (a : M A) (b : M B) :
  never_rejects a -> never_rejects b -> never_rejects (promise_all2 a b).
Proof.
  intros Ha Hb w s r. unfold promise_all2.
  specialize (Ha w s r). destruct (a w) as [eva oa wa]; simpl in *.
  specialize (Hb wa s r). destruct (b wa) as [evb ob wb]; simpl in *.
  destruct oa, ob; congruence.
Qed.

(** A command fails with the error of the server or of the network, never
    with a rejection. *)
Lemma never_rejects_command {A}
  (f : Z -> gmap string (rval * option Z) ->
       result (A * gmap string (rval * option Z))) :
  (forall t m s r, f t m <> Throw (HttpException s r)) ->
  never_rejects (Upstash.command f).
Proof.
  intros Hf w s r. unfold Upstash.command.
  destruct (outages (remote w)) as [|[] o]; simpl;
    try discriminate;
    specialize (Hf (now w) (kv (remote w)) s r);
    destruct (f (now w) (kv (remote w))) as [[a m']|e]; simpl; congruence.
Qed.

Ltac never_rejects_command :=
  apply never_rejects_command; intros; repeat case_match; discriminate.

(** Decomposition of a computation built from the store commands. *)
Ltac never_rejects :=
  repeat first
    [ apply never_rejects_ret
    | apply never_rejects_bind; [|intros]
    | apply never_rejects_try_catch; intros
    | apply never_rejects_promise_all2
    | never_rejects_command
    | match goal with
      | |- never_rejects (if ?b then _ else _) => destruct b
      | |- never_rejects (let '(_, _) := ?p in _) => destruct p
      | |- never_rejects get_world => intros ? ? ?; discriminate
      end ].

Lemma never_rejects_checkRateLimit (g : RateLimitGuard.t) identifier :
  never_rejects (RateLimitGuard.checkRateLimit g identifier).
Proof.
  unfold RateLimitGuard.checkRateLimit, RedisService.getBlockInfo,
    RedisService.incrementRateLimit, RedisService.getRateLimitInfo,
    RateLimitGuard.Date_now, Upstash.exists_, Upstash.ttl, Upstash.get,
    Upstash.incr, Upstash.expire.
  never_rejects.
Qed.

Lemma never_rejects_setBlock rs identifier d :
  never_rejects (RedisService.setBlock rs identifier d).
Proof. unfold RedisService.setBlock, Upstash.setex. never_rejects. Qed.

(** Whatever the store does, the guard admits or rejects: an error of the
    store never comes out of it. *)
Lemma canActivate_admits_or_rejects (g : RateLimitGuard.t) request w :
  outcome (RateLimitGuard.canActivate g request w) = Ok true
  \/ exists retryAfter,
       outcome (RateLimitGuard.canActivate g request w) = too_many retryAfter.
Proof.
  unfold RateLimitGuard.canActivate.
  destruct (RateLimitGuard.enabled g); simpl; [|by left].
  rewrite try_catch_run, bind_run.
  pose proof (never_rejects_checkRateLimit g
                (RateLimitGuard.getClientIdentifier request) w) as Hc.
  destruct (RateLimitGuard.checkRateLimit g _ w) as [ev [res|e] w1]; simpl in *.
  - destruct (RateLimitGuard.blocked res); simpl.
    + right. eauto.
    + destruct (RateLimitGuard.allowed res); simpl.
      * by left.
      * rewrite bind_run.
        pose proof (never_rejects_setBlock (RateLimitGuard.redisService g)
                      (RateLimitGuard.getClientIdentifier request)
                      (RateLimitGuard.blockDurationSeconds g) w1) as Hs.
        destruct (RedisService.setBlock _ _ _ w1) as [ev' [u|e'] w2];
          simpl in *.
        -- right. eauto.
        -- destruct e'; simpl; try (by left). by specialize (Hs status retryAfter).
  - destruct e; simpl; try (by left). by specialize (Hc status retryAfter).
Qed.

(** With the store down for the whole check, the request is admitted. *)
Lemma canActivate_store_down (g : RateLimitGuard.t) request w rest :
  RedisService.off (RateLimitGuard.redisService g) = false ->
  outages (remote w) = true :: true :: true :: rest ->
  outcome (RateLimitGuard.canActivate g request w) = Ok true.
Proof.
  intros Hon Ho. destruct w as [t [m o] c x h]. simpl in Ho. subst o.
  unfold_guard. rewrite Hon. destruct (RateLimitGuard.enabled g); [|done].
  unfold_eff. reflexivity.
Qed.

(** Without a store, the guard admits every request and touches nothing. *)
Lemma canActivate_store_off (g : RateLimitGuard.t) request w :
  RedisService.off (RateLimitGuard.redisService g) = true ->
  0 <= RateLimitGuard.maxRequests g ->
  outcome (RateLimitGuard.canActivate g request w) = Ok true
  /\ remote (world (RateLimitGuard.canActivate g request w)) = remote w.
Proof.
  intros Hoff HN. unfold_guard. rewrite Hoff.
  destruct (RateLimitGuard.enabled g); [|done].
  unfold_eff. simpl.
  destruct (0 <=? RateLimitGuard.maxRequests g) eqn:E; [done | lia].
Qed.


(** The guard's own catch: whenever the check throws, the request is
    admitted. *)
Lemma canActivate_check_throws (g : RateLimitGuard.t) request w e :
  outcome (RateLimitGuard.checkRateLimit g
             (RateLimitGuard.getClientIdentifier request) w) = Throw e ->
  outcome (RateLimitGuard.canActivate g request w) = Ok true.
Proof.
  intros Hc. unfold RateLimitGuard.canActivate.
  destruct (RateLimitGuard.enabled g); simpl; [|done].
  rewrite try_catch_run, bind_run.
  pose proof (never_rejects_checkRateLimit g
                (RateLimitGuard.getClientIdentifier request) w) as Hn.
  destruct (RateLimitGuard.checkRateLimit g _ w) as [ev [res|e'] w1];
    simpl in *; [done|].
  destruct e'; simpl; try done. by specialize (Hn status retryAfter).
Qed.

(** And whenever the block of a client over its maximum cannot be written,
    the request is admitted. *)
Lemma canActivate_setBlock_throws (g : RateLimitGuard.t) request w res e :
  outcome (RateLimitGuard.checkRateLimit g
             (RateLimitGuard.getClientIdentifier request) w) = Ok res ->
  RateLimitGuard.blocked res = false ->
  RateLimitGuard.allowed res = false ->
  outcome (RedisService.setBlock (RateLimitGuard.redisService g)
             (RateLimitGuard.getClientIdentifier request)
             (RateLimitGuard.blockDurationSeconds g)
             (world (RateLimitGuard.checkRateLimit g
                       (RateLimitGuard.getClientIdentifier request) w)))
  = Throw e ->
  outcome (RateLimitGuard.canActivate g request w) = Ok true.
Proof.
  intros Hc Hb Ha Hs. unfold RateLimitGuard.canActivate.
  destruct (RateLimitGuard.enabled g); simpl; [|done].
  rewrite try_catch_run, bind_run.
  destruct (RateLimitGuard.checkRateLimit g _ w) as [ev [res'|e'] w1];
    simpl in *; [|done].
  injection Hc as ->. rewrite Hb, Ha. simpl. rewrite bind_run.
  pose proof (never_rejects_setBlock (RateLimitGuard.redisService g)
                (RateLimitGuard.getClientIdentifier request)
                (RateLimitGuard.blockDurationSeconds g) w1) as Hn.
  destruct (RedisService.setBlock _ _ _ w1) as [ev' [u|e'] w2];
    simpl in *; [done|].
  destruct e'; simpl; try done. by specialize (Hn status retryAfter).
Qed.

(** An error of one of the two commands that read the block state is
    caught by [getBlockInfo], which answers that the client is not blocked. *)
Lemma getBlockInfo_absorbs (rs : RedisService.t) identifier t m c x h o1 o2 rest :
  RedisService.off rs = false ->
  o1 || o2 = true ->
  RedisService.getBlockInfo rs identifier
    {| now := t; remote := {| kv := m; outages := o1 :: o2 :: rest |};
       completions := c; executions := x; responseHeaders := h |}
  = Run [] (Ok (false, 0))
      {| now := t; remote := {| kv := m; outages := rest |};
         completions := c; executions := x; responseHeaders := h |}.
Proof.
  intros Hon Ho. unfold RedisService.getBlockInfo. rewrite Hon. unfold_eff.
  destruct o1, o2; try discriminate; simpl; try reflexivity;
    destruct (Upstash.live t m (RedisService.block_key identifier))
      as [[v [e'|]]|]; reflexivity.
Qed.

(** The check then goes on as for a client that is not blocked. *)
Lemma canActivate_block_read_absorbed (g : RateLimitGuard.t) request
  t m c x h o1 o2 :
  RateLimitGuard.enabled g = true ->
  RedisService.off (RateLimitGuard.redisService g) = false ->
  o1 || o2 = true ->
  outcome (RateLimitGuard.canActivate g request
             {| now := t; remote := {| kv := m; outages := [o1; o2] |};
                completions := c; executions := x; responseHeaders := h |})
  = decision g t None
      (Upstash.live t m
         (RedisService.rate_key (RateLimitGuard.getClientIdentifier request))).
Proof.
  intros He Hon Ho.
  unfold RateLimitGuard.canActivate, RateLimitGuard.checkRateLimit.
  rewrite He. simpl. unfold try_catch, bind.
  rewrite (getBlockInfo_absorbs _ _ t m c x h o1 o2 [] Hon Ho).
  unfold decision. cbv beta iota.
  destruct (incrementRateLimit_healthy g Hon
              (RateLimitGuard.getClientIdentifier request) t m c x h)
    as [m' ->].
  unfold increment_outcome.
  destruct (Upstash.live t m _) as [[vc ec]|] eqn:Hc.
  - destruct (Upstash.as_integer vc) as [n|]; [|done].
    cbv beta iota.
    assert (Hreset : exists reset,
               (if n + 1 =? 1
                then bind (RateLimitGuard.Date_now)
                       (fun t0 => ret (t0 + RateLimitGuard.windowSeconds g * 1000))
                else bind (RedisService.getRateLimitInfo
                             (RateLimitGuard.redisService g)
                             (RateLimitGuard.getClientIdentifier request))
                       (fun info =>
                          bind (RateLimitGuard.Date_now)
                            (fun t0 => ret (t0 + snd info * 1000))))
                 {| now := t; remote := {| kv := m'; outages := [] |};
                    completions := c; executions := x; responseHeaders := h |}
               = Run [] (Ok reset)
                   {| now := t; remote := {| kv := m'; outages := [] |};
                      completions := c; executions := x;
                      responseHeaders := h |}).
    { destruct (n + 1 =? 1); [by eexists|].
      destruct (getRateLimitInfo_healthy g Hon
                  (RateLimitGuard.getClientIdentifier request)
                  t m' c x h) as [info Hinfo].
      unfold bind at 1. rewrite Hinfo. by eexists. }
    destruct Hreset as [reset Hreset]. unfold bind in Hreset. rewrite Hreset.
    cbv beta iota. simpl.
    destruct (n + 1 <=? RateLimitGuard.maxRequests g); simpl; [done|].
    rewrite (setBlock_healthy g Hon).
    by destruct (RateLimitGuard.blockDurationSeconds g <=? 0).
  - cbv beta iota. simpl.
    destruct (1 <=? RateLimitGuard.maxRequests g); simpl; [done|].
    rewrite (setBlock_healthy g Hon).
    by destruct (RateLimitGuard.blockDurationSeconds g <=? 0).
Qed.

(** One failing command after a healthy read of the block state of a client
    that is not blocked: the guard admits.  [served] commands are answered,
    the next one fails. *)
Section OneFailure.
Context (g : RateLimitGuard.t) (request : RateLimitGuard.Request).
Context (t : Z) (m : gmap string (rval * option Z)) (c : nat)
  (x : list (string * jsval)) (h : list (string * string)).
Hypothesis (Hon : RedisService.off (RateLimitGuard.redisService g) = false).
Hypothesis (Hb : Upstash.live t m
                   (RedisService.block_key
                      (RateLimitGuard.getClientIdentifier request)) = None).

#[local] Abbreviation at_outages o :=
  {| now := t; remote := {| kv := m; outages := o |};
     completions := c; executions := x; responseHeaders := h |}.

Lemma canActivate_incr_fails rest :
  outcome (RateLimitGuard.canActivate g request
             (at_outages (false :: false :: true :: rest))) = Ok true.
Proof.
  unfold_guard. rewrite Hon. destruct (RateLimitGuard.enabled g); [|done].
  unfold_eff. repeat (progress (simpl; rewrite ?Hb)). reflexivity.
Qed.

Lemma canActivate_expire_fails rest count :
  increment_outcome
    (Upstash.live t m
       (RedisService.rate_key (RateLimitGuard.getClientIdentifier request)))
  = Ok (count, true) ->
  outcome (RateLimitGuard.canActivate g request
             (at_outages (false :: false :: false :: true :: rest))) = Ok true.
Proof.
  intros Hi. unfold_guard. rewrite Hon.
  destruct (RateLimitGuard.enabled g); [|done].
  unfold_eff. unfold increment_outcome in Hi.
  repeat (progress (simpl; rewrite ?Hb)).
  destruct (Upstash.live t m (RedisService.rate_key _)) as [[v e]|] eqn:Hc;
    repeat (progress (simpl; rewrite ?Hc)).
  - destruct (Upstash.as_integer v) as [n|]; [|done].
    injection Hi as _ Hfirst. simpl. rewrite Hfirst. reflexivity.
  - reflexivity.
Qed.

Lemma canActivate_get_fails rest count o :
  increment_outcome
    (Upstash.live t m
       (RedisService.rate_key (RateLimitGuard.getClientIdentifier request)))
  = Ok (count, false) ->
  outcome (RateLimitGuard.canActivate g request
             (at_outages (false :: false :: false :: true :: o :: rest)))
  = Ok true.
Proof.
  intros Hi. unfold_guard. rewrite Hon.
  destruct (RateLimitGuard.enabled g); [|done].
  unfold_eff. unfold increment_outcome in Hi.
  repeat (progress (simpl; rewrite ?Hb)).
  destruct (Upstash.live t m (RedisService.rate_key _)) as [[v e]|] eqn:Hc;
    repeat (progress (simpl; rewrite ?Hc)); [|done].
  destruct (Upstash.as_integer v) as [n|]; [|done].
  injection Hi as _ Hfirst. simpl. rewrite Hfirst. simpl.
  destruct o; simpl; [reflexivity|].
  rewrite live_insert_eq.
  destruct e as [e'|]; simpl; [destruct (e' <=? t); simpl|]; reflexivity.
Qed.

Lemma canActivate_ttl_fails rest count :
  increment_outcome
    (Upstash.live t m
       (RedisService.rate_key (RateLimitGuard.getClientIdentifier request)))
  = Ok (count, false) ->
  outcome (RateLimitGuard.canActivate g request
             (at_outages (false :: false :: false :: false :: true :: rest)))
  = Ok true.
Proof.
  intros Hi. unfold_guard. rewrite Hon.
  destruct (RateLimitGuard.enabled g); [|done].
  unfold_eff. unfold increment_outcome in Hi.
  repeat (progress (simpl; rewrite ?Hb)).
  destruct (Upstash.live t m (RedisService.rate_key _)) as [[v e]|] eqn:Hc;
    repeat (progress (simpl; rewrite ?Hc)); [|done].
  destruct (Upstash.as_integer v) as [n|]; [|done].
  injection Hi as _ Hfirst. simpl. rewrite Hfirst. simpl.
  rewrite live_insert_eq.
  destruct e as [e'|]; simpl; [destruct (e' <=? t); simpl|]; reflexivity.
Qed.

Lemma canActivate_setex_fails rest count first :
  increment_outcome
    (Upstash.live t m
       (RedisService.rate_key (RateLimitGuard.getClientIdentifier request)))
  = Ok (count, first) ->
  RateLimitGuard.maxRequests g < count ->
  outcome (RateLimitGuard.canActivate g request
             (at_outages
                (false :: false :: false :: false
                 :: (if first then [] else [false]) ++ true :: rest)))
  = Ok true.
Proof.
  intros Hi Hover. unfold_guard. rewrite Hon.
  destruct (RateLimitGuard.enabled g); [|done].
  unfold_eff. unfold increment_outcome in Hi.
  repeat (progress (simpl; rewrite ?Hb)).
  destruct (Upstash.live t m (RedisService.rate_key _)) as [[v e]|] eqn:Hc;
    repeat (progress (simpl; rewrite ?Hc)).
  - destruct (Upstash.as_integer v) as [n|]; [|done].
    injection Hi as <- <-. simpl.
    destruct (n + 1 <=? RateLimitGuard.maxRequests g) eqn:E; [lia|].
    assert (He : match e with Some e' => (e' <=? t) = false | None => True end).
    { unfold Upstash.live in Hc.
      destruct (m !! RedisService.rate_key _) as [[v0 [e0|]]|]; try done.
      - destruct (e0 <=? t) eqn:E0; [done|]. by injection Hc as _ <-.
      - by injection Hc as _ <-. }
    destruct (n + 1 =? 1) eqn:E1; destruct e as [e'|];
      repeat (progress (simpl; rewrite ?live_insert_eq, ?He, ?E));
      try reflexivity;
      destruct (RateLimitGuard.windowSeconds g <=? 0);
      repeat (progress (simpl; rewrite ?live_insert_eq, ?He, ?E));
      reflexivity.
  - injection Hi as <- <-. simpl. rewrite live_insert_eq. simpl.
    destruct (RateLimitGuard.windowSeconds g <=? 0); simpl;
      (destruct (1 <=? RateLimitGuard.maxRequests g) eqn:E; [lia|]);
      reflexivity.
Qed.

End OneFailure.

Section StoreOff.
Context (JSON_parse : string -> option jsval).

(** C8, as the code has it.  An error of the store never comes out of the
    guard, which admits or rejects whatever the store does; when every
    command of a check fails, the request is admitted; and a service
    without a store (not configured, or not answering the ping of
    [onModuleInit]) answers every operation with its default, touching
    nothing: [get] gives [null], [incr] gives [0], [exists] gives [false],
    the caches miss and their writes do nothing, and the guard admits.
    The guard fails open on every error that reaches it: whenever
    [checkRateLimit] throws, and whenever [setBlock] throws for a client
    over its maximum, the request is admitted; so it is when, after a
    healthy read of the block state of a client that is not blocked, the
    one command that fails is INCR, EXPIRE, GET, TTL or SETEX.  An error
    confined to the read of the block state (EXISTS or TTL of
    [getBlockInfo]) is absorbed there as not blocked, and the check goes
    on: the outcome is the decision for an unblocked client holding the
    same counter. *)
Theorem store_failures_absorbed (g : RateLimitGuard.t)
  (request : RateLimitGuard.Request) (w : World) (rs : RedisService.t)
  (cfg : gmap string string) (key value toolName argsHash : string)
  (ttlSeconds : Z) (data : jsval) :
  (outcome (RateLimitGuard.canActivate g request w) = Ok true
   \/ exists retryAfter,
        outcome (RateLimitGuard.canActivate g request w) = too_many retryAfter)
  /\ (RedisService.off (RateLimitGuard.redisService g) = false ->
      (exists rest, outages (remote w) = true :: true :: true :: rest) ->
      outcome (RateLimitGuard.canActivate g request w) = Ok true)
  /\ (RedisService.off (RateLimitGuard.redisService g) = true ->
      0 <= RateLimitGuard.maxRequests g ->
      outcome (RateLimitGuard.canActivate g request w) = Ok true
      /\ remote (world (RateLimitGuard.canActivate g request w)) = remote w)
  /\ (RedisService.off rs = true ->
      RedisService.get rs key w = Run [] (Ok VNull) w
      /\ RedisService.incr rs key w = Run [] (Ok 0) w
      /\ RedisService.exists_ rs key w = Run [] (Ok false) w
      /\ RedisService.set rs key value (Some ttlSeconds) w = Run [] (Ok tt) w
      /\ RedisService.del rs key w = Run [] (Ok tt) w
      /\ RedisService.expire rs key ttlSeconds w = Run [] (Ok tt) w
      /\ RedisService.ttl rs key w = Run [] (Ok 0) w
      /\ RedisService.getCachedResponse JSON_parse rs key w
         = Run [] (Ok VNull) w
      /\ RedisService.setCachedResponse rs key data ttlSeconds w
         = Run [] (Ok tt) w
      /\ RedisService.getCachedToolResult JSON_parse rs toolName argsHash w
         = Run [] (Ok VNull) w
      /\ RedisService.setCachedToolResult rs toolName argsHash data ttlSeconds w
         = Run [] (Ok tt) w)
  /\ (opt_truthy (cfg !! "UPSTASH_REDIS_REST_URL") = false
      \/ opt_truthy (cfg !! "UPSTASH_REDIS_REST_TOKEN") = false ->
      exists rs',
        RedisService.onModuleInit cfg w = Run [] (Ok rs') w
        /\ RedisService.off rs' = true)
  /\ ((exists rest, outages (remote w) = true :: rest) ->
      exists rs',
        outcome (RedisService.onModuleInit cfg w) = Ok rs'
        /\ RedisService.off rs' = true)
  /\ (forall e,
      outcome (RateLimitGuard.checkRateLimit g
                 (RateLimitGuard.getClientIdentifier request) w) = Throw e ->
      outcome (RateLimitGuard.canActivate g request w) = Ok true)
  /\ (forall res e,
      outcome (RateLimitGuard.checkRateLimit g
                 (RateLimitGuard.getClientIdentifier request) w) = Ok res ->
      RateLimitGuard.blocked res = false ->
      RateLimitGuard.allowed res = false ->
      outcome (RedisService.setBlock (RateLimitGuard.redisService g)
                 (RateLimitGuard.getClientIdentifier request)
                 (RateLimitGuard.blockDurationSeconds g)
                 (world (RateLimitGuard.checkRateLimit g
                           (RateLimitGuard.getClientIdentifier request) w)))
      = Throw e ->
      outcome (RateLimitGuard.canActivate g request w) = Ok true)
  /\ (RateLimitGuard.enabled g = true ->
      RedisService.off (RateLimitGuard.redisService g) = false ->
      forall o1 o2,
        outages (remote w) = [o1; o2] -> o1 || o2 = true ->
        outcome (RateLimitGuard.canActivate g request w)
        = decision g (now w) None
            (Upstash.live (now w) (kv (remote w))
               (RedisService.rate_key
                  (RateLimitGuard.getClientIdentifier request))))
  /\ (RedisService.off (RateLimitGuard.redisService g) = false ->
      Upstash.live (now w) (kv (remote w))
        (RedisService.block_key (RateLimitGuard.getClientIdentifier request))
      = None ->
      forall rest,
        (* INCR *)
        (outages (remote w) = false :: false :: true :: rest ->
         outcome (RateLimitGuard.canActivate g request w) = Ok true)
        /\ (forall count first,
            increment_outcome
              (Upstash.live (now w) (kv (remote w))
                 (RedisService.rate_key
                    (RateLimitGuard.getClientIdentifier request)))
            = Ok (count, first) ->
            (* EXPIRE *)
            (first = true ->
             outages (remote w) = false :: false :: false :: true :: rest ->
             outcome (RateLimitGuard.canActivate g request w) = Ok true)
            (* GET *)
            /\ (first = false ->
                forall o,
                  outages (remote w)
                  = false :: false :: false :: true :: o :: rest ->
                  outcome (RateLimitGuard.canActivate g request w) = Ok true)
            (* TTL *)
            /\ (first = false ->
                outages (remote w)
                = false :: false :: false :: false :: true :: rest ->
                outcome (RateLimitGuard.canActivate g request w) = Ok true)
            (* SETEX *)
            /\ (RateLimitGuard.maxRequests g < count ->
                outages (remote w)
                = false :: false :: false :: false
                  :: (if first then [] else [false]) ++ true :: rest ->
                outcome (RateLimitGuard.canActivate g request w) = Ok true))).
Proof.
  split_and!.
  - apply canActivate_admits_or_rejects.
  - intros Hon [rest Ho]. by apply (canActivate_store_down g request w rest).
  - apply canActivate_store_off.
  - intros Hoff.
    unfold RedisService.get, RedisService.incr, RedisService.exists_,
      RedisService.set, RedisService.del, RedisService.expire, RedisService.ttl,
      RedisService.getCachedResponse, RedisService.setCachedResponse,
      RedisService.getCachedToolResult, RedisService.setCachedToolResult.
    rewrite Hoff. split_and!; reflexivity.
  - intros Hcfg. unfold RedisService.onModuleInit.
    exists {| RedisService.isEnabled := false; RedisService.redis := None |}.
    destruct Hcfg as [-> | ->]; simpl; rewrite ?orb_true_r; done.
  - intros [rest Ho]. unfold RedisService.onModuleInit.
    destruct (negb _ || negb _); [by eexists|].
    destruct w as [t [m o] c x h]. simpl in Ho. subst o.
    by eexists.
  - apply canActivate_check_throws.
  - apply canActivate_setBlock_throws.
  - intros He Hon o1 o2 Ho Hor.
    destruct w as [t [m o] c x h]. simpl in *. subst o.
    by apply canActivate_block_read_absorbed.
  - intros Hon Hb rest.
    destruct w as [t [m o] c x h]. simpl in *.
    split; [intros ->; by apply canActivate_incr_fails|].
    intros count first Hi. split_and!.
    + intros -> ->. by apply (canActivate_expire_fails g request) with count.
    + intros -> o' ->. by apply (canActivate_get_fails g request) with count.
    + intros -> ->. by apply (canActivate_ttl_fails g request) with count.
    + intros Hover ->.
      by apply (canActivate_setex_fails g request) with count.
Qed.

End StoreOff.

(** A store that fails every command, and a service without a store. *)
Example store_down_admits :
  outcome (RateLimitGuard.canActivate (guard 0 300 900)
             (request_from "10.0.0.7")
             (world_at 10 ∅ [true; true; true; true])) = Ok true.
Proof. reflexivity. Qed.

(** A client over its maximum of one request is rejected by a healthy
    store, and admitted when one command after the read of its block state
    fails: INCR, GET, TTL or SETEX here, EXPIRE for a first request under a
    maximum of zero. *)
Example one_failing_command_admits :
  let used := {[ RedisService.rate_key "ip:10.0.0.7" := (RInt 1, Some 300) ]} in
  let check g m o :=
    outcome (RateLimitGuard.canActivate g (request_from "10.0.0.7")
               (world_at 10 m o)) in
  check (guard 1 300 900) used [] = too_many 900
  /\ check (guard 1 300 900) used [false; false; true] = Ok true
  /\ check (guard 1 300 900) used [false; false; false; true] = Ok true
  /\ check (guard 1 300 900) used [false; false; false; false; true] = Ok true
  /\ check (guard 1 300 900) used [false; false; false; false; false; true]
     = Ok true
  /\ check (guard 0 300 900) ∅ [] = too_many 900
  /\ check (guard 0 300 900) ∅ [false; false; false; true] = Ok true
  /\ check (guard 0 300 900) ∅ [false; false; false; false; true] = Ok true.
Proof. split_and!; vm_compute; reflexivity. Qed.

(** A blocked client whose block state cannot be read is taken as not
    blocked: it is admitted while its count is within the maximum. *)
Example unreadable_block_is_not_blocked :
  let blocked :=
    {[ RedisService.block_key "ip:10.0.0.7" := (RStr "1", Some 900) ]} in
  outcome (RateLimitGuard.canActivate (guard 5 300 900)
             (request_from "10.0.0.7") (world_at 10 blocked []))
  = too_many 890
  /\ outcome (RateLimitGuard.canActivate (guard 5 300 900)
                (request_from "10.0.0.7") (world_at 10 blocked [false; true]))
     = Ok true.
Proof. split; vm_compute; reflexivity. Qed.

Example unconfigured_store_is_off :
  RedisService.onModuleInit ∅ (world_at 0 ∅ [])
  = Run [] (Ok redis_off) (world_at 0 ∅ []).
Proof. reflexivity. Qed.

(** C8 as stated fails when the error of the store is absorbed before it
    reaches the guard: the client has used its one request of the window;
    the read of its block state fails (the first command of the check
    raises) and is taken as not blocked; the counter then exceeds the maximum
    and the request is rejected. *)
Lemma transient_error_still_rejects :
  outcome (Upstash.exists_
             (RedisService.block_key
                (RateLimitGuard.getClientIdentifier (request_from "10.0.0.7")))
             (world_at 10
                {[ RedisService.rate_key "ip:10.0.0.7" := (RInt 1, Some 300) ]}
                [true]))
  = Throw (GenericError "fetch failed")
  /\ outcome (RateLimitGuard.canActivate (guard 1 300 900)
                (request_from "10.0.0.7")
                (world_at 10
                   {[ RedisService.rate_key "ip:10.0.0.7" := (RInt 1, Some 300) ]}
                   [true]))
     = too_many 900.
Proof. split; vm_compute; reflexivity. Qed.


(* ================================================================== *)
(** * The entry points without a credential *)
(* ================================================================== *)

Section NoCredential.
Context (JSON_parse : string -> option jsval)
        (replacePlaceholders : string -> option (list Memory.t) -> string)
        (generateSessionId : World -> string)
        (mockFile : option string)
        (durationText : string).

(** C4.  While the service has no client (no credential was configured),
    the buffered entry point returns the guidance message with
    [completed = true], the streaming entry point emits the guidance as a
    content event and then as the complete event, and the world is left as
    it was: no completion request is issued, no tool runs. *)
Theorem no_credential_guidance (this : AgentService.t)
  (request : AgentRequest.t) (w : World) :
  AgentService.openai this = None ->
  (exists sessionId,
      AgentService.processRequest JSON_parse replacePlaceholders
        generateSessionId this request w
      = Run []
          (Ok (AgentService.Fresh
                 {| AgentResponse.message := AgentService.GUIDANCE;
                    AgentResponse.conversationHistory :=
                      default [] (AgentRequest.conversationHistory request);
                    AgentResponse.sessionId := sessionId;
                    AgentResponse.toolCalls := None;
                    AgentResponse.completed := true |}))
          w)
  /\ AgentService.processRequestStream JSON_parse replacePlaceholders
       generateSessionId mockFile durationText this request w
     = Run [update k_content (VStr AgentService.GUIDANCE);
            update k_complete (VStr AgentService.GUIDANCE)]
         (Ok tt) w
  /\ completions
       (world (AgentService.processRequest JSON_parse replacePlaceholders
                 generateSessionId this request w)) = completions w
  /\ completions
       (world (AgentService.processRequestStream JSON_parse replacePlaceholders
                 generateSessionId mockFile durationText this request w))
     = completions w.
Proof.
  intros Hno.
  unfold AgentService.processRequest, AgentService.processRequestStream.
  rewrite Hno. unfold AgentService.session_of.
  destruct (opt_truthy (AgentRequest.sessionId request)); simpl;
    split_and!; eauto.
Qed.

End NoCredential.

(** The service of the examples without a client. *)
Lemma no_credential_guidance_witness :
  (exists sessionId,
      AgentService.processRequest Samples.JSON_parse Samples.replacePlaceholders
        Samples.generateSessionId (agent None ∅) (ask "Convert 100 USD to EUR")
        (world_at 0 ∅ [])
      = Run []
          (Ok (AgentService.Fresh
                 {| AgentResponse.message := AgentService.GUIDANCE;
                    AgentResponse.conversationHistory :=
                      default []
                        (AgentRequest.conversationHistory
                           (ask "Convert 100 USD to EUR"));
                    AgentResponse.sessionId := sessionId;
                    AgentResponse.toolCalls := None;
                    AgentResponse.completed := true |}))
          (world_at 0 ∅ []))
  /\ AgentService.processRequestStream Samples.JSON_parse
       Samples.replacePlaceholders Samples.generateSessionId None
       "a few seconds" (agent None ∅) (ask "Convert 100 USD to EUR")
       (world_at 0 ∅ [])
     = Run [update k_content (VStr AgentService.GUIDANCE);
            update k_complete (VStr AgentService.GUIDANCE)]
         (Ok tt) (world_at 0 ∅ [])
  /\ completions
       (world (AgentService.processRequest Samples.JSON_parse
                 Samples.replacePlaceholders Samples.generateSessionId
                 (agent None ∅) (ask "Convert 100 USD to EUR")
                 (world_at 0 ∅ []))) = completions (world_at 0 ∅ [])
  /\ completions
       (world (AgentService.processRequestStream Samples.JSON_parse
                 Samples.replacePlaceholders Samples.generateSessionId None
                 "a few seconds" (agent None ∅) (ask "Convert 100 USD to EUR")
                 (world_at 0 ∅ [])))
     = completions (world_at 0 ∅ []).
Proof.
  apply (no_credential_guidance Samples.JSON_parse Samples.replacePlaceholders
           Samples.generateSessionId None "a few seconds" (agent None ∅)
           (ask "Convert 100 USD to EUR") (world_at 0 ∅ [])).
  reflexivity.
Defined.


(* ================================================================== *)
(** * Calls to unknown tools *)
(* ================================================================== *)

Lemma assoc_assoc_set {A} k (v : A) fs : assoc k (assoc_set k v fs) = Some v.
Proof.
  induction fs as [|[k' v'] fs IH]; simpl.
  - by rewrite String.eqb_refl.
  - destruct (String.eqb k k') eqn:E; simpl; [by rewrite String.eqb_refl|].
    by rewrite E.
Qed.

Section UnknownTool.
Context (JSON_parse : string -> option jsval) (durationText : string).

(** C5.  A requested call whose function name the registry lacks is
    recorded, under its id, as exactly [{error: "Unknown tool: <name>"}],
    on the buffered path and on the streaming path (where the start and the
    failure of the call are announced); nothing is thrown and the world is
    untouched; the loop over the calls of the turn goes on with the calls
    that follow; and a turn whose only call is unknown is followed by the
    next turn, with the error in the transcript as the tool message.  The
    streaming loop goes on in the same way: after the two events of the
    unknown call, the loop over the calls of the streamed turn goes on with
    the entries that follow, and a streamed turn whose only call is unknown
    is followed by the next turn of [stream_loop], on the transcript with
    the assistant message and the error as the tool message; so is the
    first turn of the streaming operation as a whole. *)
Theorem unknown_tool_continues (this : AgentService.t)
  (userIp : option string) (toolCall : ToolCall.t) (rest : list ToolCall.t)
  (results : list (string * jsval)) (w : World) :
  AgentService.toolRegistry this !! ToolCall.name toolCall = None ->
  let recorded :=
    assoc_set (ToolCall.id toolCall)
      (AgentService.unknown_tool (ToolCall.name toolCall)) results in
  AgentService.executeToolCall JSON_parse this userIp toolCall results w
  = Run [] (Ok recorded) w
  /\ assoc (ToolCall.id toolCall) recorded
     = Some (VObj [("error",
                    VStr ("Unknown tool: " +:+ ToolCall.name toolCall))])
  /\ for_each (AgentService.executeToolCall JSON_parse this userIp)
       (toolCall :: rest) results w
     = for_each (AgentService.executeToolCall JSON_parse this userIp)
         rest recorded w
  /\ AgentService.streamToolCall JSON_parse this userIp (Some toolCall)
       results w
     = Run [tool_start (ToolCall.name toolCall) None;
            AgentService.tool_complete (ToolCall.name toolCall)
              ("Error: Unknown tool " +:+ ToolCall.name toolCall)
              (ToolCall.id toolCall)
              (AgentService.unknown_tool (ToolCall.name toolCall))]
         (Ok recorded) w
  /\ (forall client left messages toolResults content,
        OpenAI.create client (completions w) messages
        = Ok {| OpenAI.content := content;
                OpenAI.tool_calls := Some [toolCall] |} ->
        exists w',
          completions w' = S (completions w)
          /\ AgentService.conversation_loop JSON_parse this client userIp
               (S left) messages toolResults w
             = AgentService.conversation_loop JSON_parse this client userIp
                 left
                 (messages
                  ++ [{| Message.role := "assistant";
                         Message.content := content;
                         Message.tool_calls := Some [toolCall];
                         Message.tool_call_id := None |};
                      AgentService.tool_message
                        (JSON_stringify
                           (AgentService.unknown_tool (ToolCall.name toolCall)))
                        (ToolCall.id toolCall)])
                 (spread toolResults
                    [(ToolCall.id toolCall,
                      AgentService.unknown_tool (ToolCall.name toolCall))])
                 w')
  /\ (forall entries,
        let r := for_each (AgentService.streamToolCall JSON_parse this userIp)
                   entries recorded w in
        for_each (AgentService.streamToolCall JSON_parse this userIp)
          (Some toolCall :: entries) results w
        = Run ([tool_start (ToolCall.name toolCall) None;
                AgentService.tool_complete (ToolCall.name toolCall)
                  ("Error: Unknown tool " +:+ ToolCall.name toolCall)
                  (ToolCall.id toolCall)
                  (AgentService.unknown_tool (ToolCall.name toolCall))]
               ++ emitted r)
            (outcome r) (world r))
  /\ (forall client left messages stream turn events w1,
        OpenAI.create_stream client (completions w) messages = Ok stream ->
        OpenAI.failure stream = None ->
        for_each (AgentService.on_chunk durationText this)
          (OpenAI.chunks stream) AgentService.new_turn (after_completion w)
        = Run events (Ok turn) w1 ->
        AgentService.t_tool_calls turn = [Some toolCall] ->
        let r :=
          AgentService.stream_loop JSON_parse durationText this client userIp
            left
            (messages
             ++ [{| Message.role := "assistant";
                    Message.content :=
                      if str_truthy (AgentService.t_content turn)
                      then Some (AgentService.t_content turn) else None;
                    Message.tool_calls := Some [toolCall];
                    Message.tool_call_id := None |};
                 AgentService.tool_message
                   (JSON_stringify
                      (AgentService.unknown_tool (ToolCall.name toolCall)))
                   (ToolCall.id toolCall)])
            w1 in
        AgentService.stream_loop JSON_parse durationText this client userIp
          (S left) messages w
        = Run ((if AgentService.isReasoningModel this
                then [AgentService.reasoning_event this k_reasoning_start
                        "Thinking..." None]
                else [])
               ++ events
               ++ [tool_start (ToolCall.name toolCall) None;
                   AgentService.tool_complete (ToolCall.name toolCall)
                     ("Error: Unknown tool " +:+ ToolCall.name toolCall)
                     (ToolCall.id toolCall)
                     (AgentService.unknown_tool (ToolCall.name toolCall))]
               ++ emitted r)
            (outcome r) (world r))
  /\ (forall client left messages stream turn events w1,
        AgentService.openai this = Some client ->
        AgentService.turns_allowed (AgentService.maxIterations_stream this)
        = S left ->
        OpenAI.create_stream client (completions w) messages = Ok stream ->
        OpenAI.failure stream = None ->
        for_each (AgentService.on_chunk durationText this)
          (OpenAI.chunks stream) AgentService.new_turn (after_completion w)
        = Run events (Ok turn) w1 ->
        AgentService.t_tool_calls turn = [Some toolCall] ->
        let r :=
          AgentService.stream_loop JSON_parse durationText this client userIp
            left
            (messages
             ++ [{| Message.role := "assistant";
                    Message.content :=
                      if str_truthy (AgentService.t_content turn)
                      then Some (AgentService.t_content turn) else None;
                    Message.tool_calls := Some [toolCall];
                    Message.tool_call_id := None |};
                 AgentService.tool_message
                   (JSON_stringify
                      (AgentService.unknown_tool (ToolCall.name toolCall)))
                   (ToolCall.id toolCall)])
            w1 in
        AgentService.processConversationWithToolsStream JSON_parse durationText
          this messages userIp w
        = Run ((if AgentService.isReasoningModel this
                then [AgentService.reasoning_event this k_reasoning_start
                        "Thinking..." None]
                else [])
               ++ events
               ++ [tool_start (ToolCall.name toolCall) None;
                   AgentService.tool_complete (ToolCall.name toolCall)
                     ("Error: Unknown tool " +:+ ToolCall.name toolCall)
                     (ToolCall.id toolCall)
                     (AgentService.unknown_tool (ToolCall.name toolCall))]
               ++ emitted r)
            (outcome r) (world r)).
Proof.
  intros Hno recorded.
  assert (Hone : forall rs w0,
             AgentService.executeToolCall JSON_parse this userIp toolCall rs w0
             = Run [] (Ok (assoc_set (ToolCall.id toolCall)
                             (AgentService.unknown_tool (ToolCall.name toolCall))
                             rs)) w0).
  { intros rs w0. unfold AgentService.executeToolCall. by rewrite Hno. }
  assert (Hstream : forall rs w0,
             AgentService.streamToolCall JSON_parse this userIp (Some toolCall)
               rs w0
             = Run [tool_start (ToolCall.name toolCall) None;
                    AgentService.tool_complete (ToolCall.name toolCall)
                      ("Error: Unknown tool " +:+ ToolCall.name toolCall)
                      (ToolCall.id toolCall)
                      (AgentService.unknown_tool (ToolCall.name toolCall))]
                 (Ok (assoc_set (ToolCall.id toolCall)
                        (AgentService.unknown_tool (ToolCall.name toolCall))
                        rs)) w0).
  { intros rs w0. unfold AgentService.streamToolCall. rewrite Hno.
    reflexivity. }
  assert (Hloop : forall client left messages stream turn events w1,
             OpenAI.create_stream client (completions w) messages = Ok stream ->
             OpenAI.failure stream = None ->
             for_each (AgentService.on_chunk durationText this)
               (OpenAI.chunks stream) AgentService.new_turn
               (after_completion w)
             = Run events (Ok turn) w1 ->
             AgentService.t_tool_calls turn = [Some toolCall] ->
             let r :=
               AgentService.stream_loop JSON_parse durationText this client
                 userIp left
                 (messages
                  ++ [{| Message.role := "assistant";
                         Message.content :=
                           if str_truthy (AgentService.t_content turn)
                           then Some (AgentService.t_content turn) else None;
                         Message.tool_calls := Some [toolCall];
                         Message.tool_call_id := None |};
                      AgentService.tool_message
                        (JSON_stringify
                           (AgentService.unknown_tool (ToolCall.name toolCall)))
                        (ToolCall.id toolCall)])
                 w1 in
             AgentService.stream_loop JSON_parse durationText this client userIp
               (S left) messages w
             = Run ((if AgentService.isReasoningModel this
                     then [AgentService.reasoning_event this k_reasoning_start
                             "Thinking..." None]
                     else [])
                    ++ events
                    ++ [tool_start (ToolCall.name toolCall) None;
                        AgentService.tool_complete (ToolCall.name toolCall)
                          ("Error: Unknown tool " +:+ ToolCall.name toolCall)
                          (ToolCall.id toolCall)
                          (AgentService.unknown_tool (ToolCall.name toolCall))]
                    ++ emitted r)
                 (outcome r) (world r)).
  {
    intros client left messages stream turn events w1 Hcreate Hfail Hchunks
      Hcalls r.
    cbn [AgentService.stream_loop]. rewrite bind_run.
    assert (Hstart :
              (if AgentService.isReasoningModel this
               then yield (AgentService.reasoning_event this k_reasoning_start
                             "Thinking..." None)
               else ret tt) w
              = Run (if AgentService.isReasoningModel this
                     then [AgentService.reasoning_event this k_reasoning_start
                             "Thinking..." None]
                     else [])
                  (Ok tt) w).
    { by destruct (AgentService.isReasoningModel this). }
    rewrite Hstart. rewrite bind_run, request_completion_run, Hcreate.
    rewrite bind_run, Hchunks, Hfail, Hcalls.
    rewrite bind_run. cbn [for_each]. rewrite bind_run, Hstream.
    cbn [ret app]. unfold AgentService.tool_messages.
    change (omap (fun c => c) [Some toolCall]) with [toolCall].
    cbn [map assoc assoc_set ToolCall.id fst snd].
    rewrite String.eqb_refl. cbn [default].
    subst r.
    destruct (AgentService.stream_loop _ _ _ _ _ left _ w1) as [ev o w'].
    cbn [emitted outcome world]. reflexivity.
  }
  split_and!.
  - apply Hone.
  - apply assoc_assoc_set.
  - subst recorded. simpl. rewrite bind_run, Hone. simpl.
    by destruct (for_each _ rest _ w) as [ev o w'].
  - unfold AgentService.streamToolCall. rewrite Hno. reflexivity.
  - intros client left messages toolResults content Hcreate.
    exists (after_completion w). split; [done|].
    cbn [AgentService.conversation_loop].
    rewrite bind_run, request_completion_run, Hcreate.
    cbn [OpenAI.tool_calls OpenAI.content].
    rewrite bind_run. unfold AgentService.executeToolCalls.
    cbn [for_each]. rewrite bind_run, Hone. cbn [app ret].
    unfold AgentService.tool_messages.
    cbn [map assoc assoc_set ToolCall.id fst snd].
    rewrite String.eqb_refl. cbn [default].
    by destruct (AgentService.conversation_loop _ _ _ _ _ _ _ _)
      as [ev o w'].
  - intros entries r. cbn [for_each]. rewrite bind_run, Hstream.
    subst r recorded.
    by destruct (for_each _ entries _ w) as [ev o w'].
  - exact Hloop.
  - intros client left messages stream turn events w1 Hclient Hturns.
    unfold AgentService.processConversationWithToolsStream.
    rewrite Hclient, Hturns. apply Hloop.
Qed.

End UnknownTool.

(** A call to a tool that the registry of the examples lacks, followed by a
    call to one it has. *)
Lemma unknown_tool_continues_witness :
  let this := agent None ∅ in
  let toolCall := call "call_1" "get_weather" "{}" in
  let rest := [call "call_2" "convert_currency" "{}"] in
  let w := world_at 0 ∅ [] in
  let recorded :=
    assoc_set (ToolCall.id toolCall)
      (AgentService.unknown_tool (ToolCall.name toolCall)) [] in
  AgentService.executeToolCall Samples.JSON_parse this None toolCall [] w
  = Run [] (Ok recorded) w
  /\ assoc (ToolCall.id toolCall) recorded
     = Some (VObj [("error",
                    VStr ("Unknown tool: " +:+ ToolCall.name toolCall))])
  /\ for_each (AgentService.executeToolCall Samples.JSON_parse this None)
       (toolCall :: rest) [] w
     = for_each (AgentService.executeToolCall Samples.JSON_parse this None)
         rest recorded w
  /\ AgentService.streamToolCall Samples.JSON_parse this None (Some toolCall)
       [] w
     = Run [tool_start (ToolCall.name toolCall) None;
            AgentService.tool_complete (ToolCall.name toolCall)
              ("Error: Unknown tool " +:+ ToolCall.name toolCall)
              (ToolCall.id toolCall)
              (AgentService.unknown_tool (ToolCall.name toolCall))]
         (Ok recorded) w
  /\ (forall client left messages toolResults content,
        OpenAI.create client (completions w) messages
        = Ok {| OpenAI.content := content;
                OpenAI.tool_calls := Some [toolCall] |} ->
        exists w',
          completions w' = S (completions w)
          /\ AgentService.conversation_loop Samples.JSON_parse this client None
               (S left) messages toolResults w
             = AgentService.conversation_loop Samples.JSON_parse this client
                 None left
                 (messages
                  ++ [{| Message.role := "assistant";
                         Message.content := content;
                         Message.tool_calls := Some [toolCall];
                         Message.tool_call_id := None |};
                      AgentService.tool_message
                        (JSON_stringify
                           (AgentService.unknown_tool (ToolCall.name toolCall)))
                        (ToolCall.id toolCall)])
                 (spread toolResults
                    [(ToolCall.id toolCall,
                      AgentService.unknown_tool (ToolCall.name toolCall))])
                 w')
  /\ (forall entries,
        let r :=
          for_each (AgentService.streamToolCall Samples.JSON_parse this None)
            entries recorded w in
        for_each (AgentService.streamToolCall Samples.JSON_parse this None)
          (Some toolCall :: entries) [] w
        = Run ([tool_start (ToolCall.name toolCall) None;
                AgentService.tool_complete (ToolCall.name toolCall)
                  ("Error: Unknown tool " +:+ ToolCall.name toolCall)
                  (ToolCall.id toolCall)
                  (AgentService.unknown_tool (ToolCall.name toolCall))]
               ++ emitted r)
            (outcome r) (world r))
  /\ (forall client left messages stream turn events w1,
        OpenAI.create_stream client (completions w) messages = Ok stream ->
        OpenAI.failure stream = None ->
        for_each (AgentService.on_chunk "2 seconds" this)
          (OpenAI.chunks stream) AgentService.new_turn (after_completion w)
        = Run events (Ok turn) w1 ->
        AgentService.t_tool_calls turn = [Some toolCall] ->
        let r :=
          AgentService.stream_loop Samples.JSON_parse "2 seconds" this client
            None left
            (messages
             ++ [{| Message.role := "assistant";
                    Message.content :=
                      if str_truthy (AgentService.t_content turn)
                      then Some (AgentService.t_content turn) else None;
                    Message.tool_calls := Some [toolCall];
                    Message.tool_call_id := None |};
                 AgentService.tool_message
                   (JSON_stringify
                      (AgentService.unknown_tool (ToolCall.name toolCall)))
                   (ToolCall.id toolCall)])
            w1 in
        AgentService.stream_loop Samples.JSON_parse "2 seconds" this client
          None (S left) messages w
        = Run ((if AgentService.isReasoningModel this
                then [AgentService.reasoning_event this k_reasoning_start
                        "Thinking..." None]
                else [])
               ++ events
               ++ [tool_start (ToolCall.name toolCall) None;
                   AgentService.tool_complete (ToolCall.name toolCall)
                     ("Error: Unknown tool " +:+ ToolCall.name toolCall)
                     (ToolCall.id toolCall)
                     (AgentService.unknown_tool (ToolCall.name toolCall))]
               ++ emitted r)
            (outcome r) (world r))
  /\ (forall client left messages stream turn events w1,
        AgentService.openai this = Some client ->
        AgentService.turns_allowed (AgentService.maxIterations_stream this)
        = S left ->
        OpenAI.create_stream client (completions w) messages = Ok stream ->
        OpenAI.failure stream = None ->
        for_each (AgentService.on_chunk "2 seconds" this)
          (OpenAI.chunks stream) AgentService.new_turn (after_completion w)
        = Run events (Ok turn) w1 ->
        AgentService.t_tool_calls turn = [Some toolCall] ->
        let r :=
          AgentService.stream_loop Samples.JSON_parse "2 seconds" this client None
            left
            (messages
             ++ [{| Message.role := "assistant";
                    Message.content :=
                      if str_truthy (AgentService.t_content turn)
                      then Some (AgentService.t_content turn) else None;
                    Message.tool_calls := Some [toolCall];
                    Message.tool_call_id := None |};
                 AgentService.tool_message
                   (JSON_stringify
                      (AgentService.unknown_tool (ToolCall.name toolCall)))
                   (ToolCall.id toolCall)])
            w1 in
        AgentService.processConversationWithToolsStream Samples.JSON_parse "2 seconds"
          this messages None w
        = Run ((if AgentService.isReasoningModel this
                then [AgentService.reasoning_event this k_reasoning_start
                        "Thinking..." None]
                else [])
               ++ events
               ++ [tool_start (ToolCall.name toolCall) None;
                   AgentService.tool_complete (ToolCall.name toolCall)
                     ("Error: Unknown tool " +:+ ToolCall.name toolCall)
                     (ToolCall.id toolCall)
                     (AgentService.unknown_tool (ToolCall.name toolCall))]
               ++ emitted r)
            (outcome r) (world r)).
Proof.
  apply (unknown_tool_continues Samples.JSON_parse "2 seconds" (agent None ∅)
           None (call "call_1" "get_weather" "{}")
           [call "call_2" "convert_currency" "{}"] [] (world_at 0 ∅ [])).
  reflexivity.
Defined.

(** The streaming operation with a client that asks for an unknown tool at
    every turn: each of the five turns announces the call and its failure,
    the loop runs to its ceiling and nothing is thrown. *)
Example unknown_tool_stream_runs_on :
  let toolCall := call "call_1" "get_weather" "{}" in
  let r :=
    AgentService.processConversationWithToolsStream Samples.JSON_parse
      "2 seconds" (agent (Some (insistent None toolCall)) ∅)
      [AgentService.user_message "What is the weather?"] None
      (world_at 0 ∅ []) in
  outcome r = Ok tt
  /\ completions (world r) = 5%nat
  /\ emitted r
     = concat
         (replicate 5
            [tool_start "get_weather" None;
             AgentService.tool_complete "get_weather"
               "Error: Unknown tool get_weather" "call_1"
               (AgentService.unknown_tool "get_weather")])
       ++ [AgentService.final_content AgentService.MAX_TOOL_CALLS].
Proof. split_and!; vm_compute; reflexivity. Qed.


(* ================================================================== *)
(** * The events of a streamed request *)
(* ================================================================== *)

Lemma silent_ret {A} (a : A) : silent (ret a).
Proof. intros w. constructor. Qed.

Lemma silent_throw {A} e : silent (@throw A e).
Proof. intros w. constructor. Qed.

Lemma silent_lift_result {A} (r : result A) : silent (lift_result r).
Proof. destruct r; [apply silent_ret | apply silent_throw]. Qed.

Lemma silent_get_world : silent get_world.
Proof. intros w. constructor. Qed.

Lemma silent_modify f : silent (modify f).
Proof. intros w. constructor. Qed.

Lemma silent_yield u : StreamingUpdate.type u <> k_complete -> silent (yield u).
Proof. intros H w. repeat constructor. exact H. Qed.

Lemma silent_bind {A B} (m : M A) (f : A -> M B) :
  silent m -> (forall a, silent (f a)) -> silent (bind m f).
Proof.
  intros Hm Hf w. rewrite bind_run. specialize (Hm w).
  destruct (m w) as [ev [a|e] w1]; simpl in *; [|done].
  specialize (Hf a w1). destruct (f a w1) as [ev' o w2]; simpl in *.
  by apply Forall_app.
Qed.

Lemma silent_try_catch {A} (m : M A) (h : JsError -> M A) :
  silent m -> (forall e, silent (h e)) -> silent (try_catch m h).
Proof.
  intros Hm Hh w. rewrite try_catch_run. specialize (Hm w).
  destruct (m w) as [ev [a|e] w1]; simpl in *; [done|].
  specialize (Hh e w1). destruct (h e w1) as [ev' o w2]; simpl in *.
  by apply Forall_app.
Qed.

Lemma silent_promise_all2 {A B} (a : M A) (b : M B) :
  silent a -> silent b -> silent (promise_all2 a b).
Proof.
  intros Ha Hb w. unfold promise_all2. specialize (Ha w).
  destruct (a w) as [eva oa wa]; simpl in *.
  specialize (Hb wa). destruct (b wa) as [evb ob wb]; simpl in *.
  by apply Forall_app.
Qed.

Lemma silent_for_each {A S} (body : A -> S -> M S) xs :
  (forall x s, silent (body x s)) -> forall s, silent (for_each body xs s).
Proof.
  intros Hb. induction xs as [|x xs IH]; intros s; simpl.
  - apply silent_ret.
  - apply silent_bind; [apply Hb | apply IH].
Qed.

Lemma silent_command {A} f : silent (@Upstash.command A f).
Proof.
  intros w. unfold Upstash.command.
  destruct (outages (remote w)) as [|[] o]; simpl;
    try constructor; destruct (f _ _) as [[a m']|e]; constructor.
Qed.

(** Decomposition of a computation into its parts. *)
Ltac silent :=
  repeat first
    [ apply silent_ret
    | apply silent_throw
    | apply silent_lift_result
    | apply silent_get_world
    | apply silent_modify
    | apply silent_command
    | apply silent_yield; discriminate
    | apply silent_bind; [|intros]
    | apply silent_try_catch; [|intros]
    | apply silent_promise_all2
    | apply silent_for_each; intros
    | match goal with
      | |- silent (if ?b then _ else _) => destruct b
      | |- silent (match ?x with _ => _ end) => destruct x
      end ].

Section Stream.
Context (JSON_parse : string -> option jsval)
        (replacePlaceholders : string -> option (list Memory.t) -> string)
        (generateSessionId : World -> string)
        (mockFile : option string)
        (durationText : string).
Context (this : AgentService.t).

Lemma silent_read_cached key :
  silent (RedisService.read_cached JSON_parse key).
Proof.
  unfold RedisService.read_cached, Upstash.get, Upstash.del. silent.
Qed.

Lemma silent_lookup_tool_cache toolName toolArgs :
  silent (AgentService.lookup_tool_cache JSON_parse this toolName toolArgs).
Proof.
  unfold AgentService.lookup_tool_cache, RedisService.getCachedToolResult.
  silent; apply silent_read_cached.
Qed.

Lemma silent_store_tool_cache toolName toolArgs toolResult :
  silent (AgentService.store_tool_cache this toolName toolArgs toolResult).
Proof.
  unfold AgentService.store_tool_cache, RedisService.setCachedToolResult,
    RedisService.write_cached, Upstash.setex.
  silent.
Qed.

Lemma silent_run_tool tool toolName toolArgs userIp :
  silent (AgentService.run_tool tool toolName toolArgs userIp).
Proof. intros w. rewrite run_tool_run. constructor. Qed.

Lemma silent_request_completion {A} (f : nat -> list Message.t -> result A) ms :
  silent (AgentService.request_completion f ms).
Proof. intros w. rewrite request_completion_run. constructor. Qed.

Lemma silent_streamToolCall userIp entry results :
  silent (AgentService.streamToolCall JSON_parse this userIp entry results).
Proof.
  unfold AgentService.streamToolCall, AgentService.parse_json.
  destruct entry as [toolCall|]; [|apply silent_throw].
  apply silent_bind; [apply silent_yield; discriminate|]. intros _.
  destruct (AgentService.toolRegistry this !! ToolCall.name toolCall)
    as [tool|].
  - apply silent_try_catch.
    + apply silent_bind; [silent|]. intros toolArgs.
      apply silent_bind; [apply silent_lookup_tool_cache|]. intros cached.
      apply silent_bind.
      * destruct (truthy cached); [apply silent_ret|].
        apply silent_bind; [apply silent_run_tool|]. intros result.
        apply silent_bind; [apply silent_store_tool_cache | intros; apply silent_ret].
      * intros result. silent.
    + intros e. silent.
  - silent.
Qed.

Lemma silent_on_chunk chunk turn :
  silent (AgentService.on_chunk durationText this chunk turn).
Proof. unfold AgentService.on_chunk. silent. Qed.

Lemma silent_stream_loop client userIp left : forall messages,
  silent (AgentService.stream_loop JSON_parse durationText this client userIp
            left messages).
Proof.
  induction left as [|left IH]; intros messages; simpl.
  - apply silent_yield. discriminate.
  - apply silent_bind; [silent|]. intros _.
    apply silent_bind; [apply silent_request_completion|]. intros response.
    apply silent_bind;
      [apply silent_for_each; intros; apply silent_on_chunk|].
    intros assistantMessage.
    destruct (OpenAI.failure response); [apply silent_throw|].
    pose proof (silent_for_each
                  (AgentService.streamToolCall JSON_parse this userIp)
                  (AgentService.t_tool_calls assistantMessage)
                  (fun x s => silent_streamToolCall userIp x s) []) as Hcalls.
    destruct (AgentService.t_tool_calls assistantMessage) as [|c cs] eqn:E.
    + apply silent_yield. discriminate.
    + apply silent_bind; [exact Hcalls|].
      intros currentToolResults. apply IH.
Qed.

Lemma silent_processConversationWithToolsStream messages userIp :
  silent (AgentService.processConversationWithToolsStream JSON_parse
            durationText this messages userIp).
Proof.
  unfold AgentService.processConversationWithToolsStream.
  destruct (AgentService.openai this);
    [apply silent_stream_loop | apply silent_yield; discriminate].
Qed.

Lemma silent_mock_stream messages : forall first,
  silent (AgentService.mock_stream first messages).
Proof.
  induction messages as [|m ms IH]; intros first; simpl.
  - apply silent_ret.
  - apply silent_bind; [silent|]. intros _.
    apply silent_bind; [silent|]. intros _. apply IH.
Qed.

(** A silent computation followed by one [complete] event. *)
Lemma completes_after_silent {A} (m : M A) (u : StreamingUpdate.t) :
  silent m -> StreamingUpdate.type u = k_complete ->
  completes_or_throws (bind m (fun _ => yield u)).
Proof.
  intros Hm Hu w. rewrite bind_run. specialize (Hm w).
  destruct (m w) as [ev [a|e] w1]; simpl in *; [|done].
  exists ev, u. done.
Qed.

Lemma completes_processMockResponse request :
  completes_or_throws
    (AgentService.processMockResponse JSON_parse mockFile request).
Proof.
  unfold AgentService.processMockResponse.
  set (mockData := match mockFile with Some _ => _ | None => _ end).
  assert (Hthrow : forall e w, no_complete (emitted (@throw unit e w)))
    by (intros; constructor).
  assert (Hbody : forall acts : M (list jsval), silent acts ->
            completes_or_throws
              (bind acts (fun assistantMessages =>
                 bind (AgentService.mock_stream true
                         match rev assistantMessages with
                         | [] => [VStr AgentService.FALLBACK_MOCK]
                         | l => l
                         end)
                      (fun _ =>
                         yield (update k_complete
                                  (VStr "Mock conversation completed successfully")))))).
  { intros acts Hacts w. rewrite bind_run. specialize (Hacts w).
    destruct (acts w) as [ev [msgs|e] w1]; simpl in *; [|done].
    pose proof (completes_after_silent
                  (AgentService.mock_stream true
                     match rev msgs with
                     | [] => [VStr AgentService.FALLBACK_MOCK]
                     | l => l
                     end)
                  (update k_complete
                     (VStr "Mock conversation completed successfully"))
                  (silent_mock_stream _ true) eq_refl w1) as H.
    destruct (bind _ _ w1) as [ev' [u|e] w2]; simpl in *.
    - destruct H as (before & last & -> & Hl & Hb).
      exists (ev ++ before), last. rewrite app_assoc.
      split_and!; [done..|]. by apply Forall_app.
    - by apply Forall_app. }
  destruct mockData; try (intros w; apply Hthrow); apply Hbody; silent.
Qed.

(** The body of the [try] of [processRequestStream]. *)
Lemma completes_stream_body request :
  completes_or_throws
    (match AgentService.openai this with
     | None =>
         bind (yield (update k_content (VStr AgentService.GUIDANCE)))
           (fun _ => yield (update k_complete (VStr AgentService.GUIDANCE)))
     | Some _ =>
         if String.eqb
              (AgentService.config_get (AgentService.configService this)
                 "MOCK_RESPONSES_ENABLED" "false") "true"
         then AgentService.processMockResponse JSON_parse mockFile request
         else
           bind (AgentService.session_of generateSessionId request)
             (fun sessionId =>
                bind (lift_result
                        (AgentService.convertConversationToOpenAI
                           (AgentService.pushed_history request)))
                  (fun converted =>
                     bind (AgentService.processConversationWithToolsStream
                             JSON_parse durationText this
                             (AgentService.system_message
                                (replacePlaceholders
                                   (AgentService.systemPrompt this)
                                   (AgentRequest.memories request))
                              :: converted)
                             (AgentRequest.userIp request))
                       (fun _ =>
                          yield (update k_complete
                                   (VStr "Conversation completed successfully")))))
     end).
Proof.
  destruct (AgentService.openai this) as [client|].
  - destruct (String.eqb _ "true").
    + apply completes_processMockResponse.
    + intros w. rewrite bind_run.
      assert (Hs : silent (AgentService.session_of generateSessionId request))
        by (unfold AgentService.session_of; silent).
      specialize (Hs w).
      destruct (AgentService.session_of generateSessionId request w)
        as [ev [sessionId|e] w1]; simpl in *; [|done].
      rewrite bind_run.
      destruct (AgentService.convertConversationToOpenAI _) as [converted|e];
        simpl; [|by rewrite app_nil_r].
      pose proof (completes_after_silent
                    (AgentService.processConversationWithToolsStream
                       JSON_parse durationText this
                       (AgentService.system_message
                          (replacePlaceholders
                             (AgentService.systemPrompt this)
                             (AgentRequest.memories request))
                        :: converted)
                       (AgentRequest.userIp request))
                    (update k_complete
                       (VStr "Conversation completed successfully"))
                    (silent_processConversationWithToolsStream _ _)
                    eq_refl w1) as H.
      destruct (bind _ _ w1) as [ev' [u|e] w2]; simpl in *.
      * destruct H as (before & last & -> & Hl & Hb).
        exists (ev ++ before), last. rewrite ?app_nil_l, app_assoc.
        split_and!; [done..|]. by apply Forall_app.
      * rewrite ?app_nil_l. by apply Forall_app.
  - intros w. simpl.
    exists [update k_content (VStr AgentService.GUIDANCE)],
      (update k_complete (VStr AgentService.GUIDANCE)).
    split_and!; [done..|]. repeat constructor. discriminate.
Qed.

(** C9.  A streamed request returns, and the events it has emitted are
    some events none of which is a [complete] event, followed by one
    [complete] event: on the normal path, on the mock path, without a
    credential, and when anything throws. *)
Theorem stream_completes_once (request : AgentRequest.t) (w : World) :
  exists before last,
    emitted (AgentService.processRequestStream JSON_parse replacePlaceholders
               generateSessionId mockFile durationText this request w)
    = before ++ [last]
    /\ StreamingUpdate.type last = k_complete
    /\ no_complete before
    /\ outcome (AgentService.processRequestStream JSON_parse replacePlaceholders
                  generateSessionId mockFile durationText this request w)
       = Ok tt.
Proof.
  unfold AgentService.processRequestStream. rewrite try_catch_run.
  pose proof (completes_stream_body request w) as H.
  match goal with
  | H : match outcome (?m w) with _ => _ end |- _ =>
      destruct (m w) as [ev [[]|e] w1]; simpl in *
  end.
  - destruct H as (before & last & -> & Hl & Hb). by exists before, last.
  - eexists ev, _. split_and!; [reflexivity | done..].
Qed.

End Stream.


(* ================================================================== *)
(** * The iteration ceiling *)
(* ================================================================== *)

Lemma no_completion_ret {A} (a : A) : no_completion (ret a).
Proof. by intros w. Qed.

Lemma no_completion_throw {A} e : no_completion (@throw A e).
Proof. by intros w. Qed.

Lemma no_completion_lift_result {A} (r : result A) :
  no_completion (lift_result r).
Proof. by destruct r. Qed.

Lemma no_completion_yield u : no_completion (yield u).
Proof. by intros w. Qed.

Lemma no_completion_bind {A B} (m : M A) (f : A -> M B) :
  no_completion m -> (forall a, no_completion (f a)) ->
  no_completion (bind m f).
Proof.
  intros Hm Hf w. rewrite bind_run. specialize (Hm w).
  destruct (m w) as [ev [a|e] w1]; simpl in *; [|done].
  specialize (Hf a w1). destruct (f a w1) as [ev' o w2]; simpl in *.
  congruence.
Qed.

Lemma no_completion_try_catch {A} (m : M A) (h : JsError -> M A) :
  no_completion m -> (forall e, no_completion (h e)) ->
  no_completion (try_catch m h).
Proof.
  intros Hm Hh w. rewrite try_catch_run. specialize (Hm w).
  destruct (m w) as [ev [a|e] w1]; simpl in *; [done|].
  specialize (Hh e w1). destruct (h e w1) as [ev' o w2]; simpl in *.
  congruence.
Qed.

Lemma no_completion_for_each {A S} (body : A -> S -> M S) xs :
  (forall x s, no_completion (body x s)) ->
  forall s, no_completion (for_each body xs s).
Proof.
  intros Hb. induction xs as [|x xs IH]; intros s; simpl.
  - apply no_completion_ret.
  - apply no_completion_bind; [apply Hb | apply IH].
Qed.

Lemma no_completion_command {A} f : no_completion (@Upstash.command A f).
Proof.
  intros w. unfold Upstash.command.
  destruct (outages (remote w)) as [|[] o]; simpl;
    try done; by destruct (f _ _) as [[a m']|e].
Qed.

Ltac no_completion :=
  repeat first
    [ apply no_completion_ret
    | apply no_completion_throw
    | apply no_completion_lift_result
    | apply no_completion_command
    | apply no_completion_yield
    | apply no_completion_bind; [|intros]
    | apply no_completion_try_catch; [|intros]
    | apply no_completion_for_each; intros
    | match goal with
      | |- no_completion (if ?b then _ else _) => destruct b
      | |- no_completion (match ?x with _ => _ end) => destruct x
      end ].

Lemma returns_ret {A} (a : A) : returns (ret a).
Proof. intros w. by exists a. Qed.


Lemma returns_bind {A B} (m : M A) (f : A -> M B) :
  returns m -> (forall a, returns (f a)) -> returns (bind m f).
Proof.
  intros Hm Hf w. rewrite bind_run. destruct (Hm w) as [a Ha].
  destruct (m w) as [ev o w1]; simpl in *. subst o.
  destruct (Hf a w1) as [b Hb]. destruct (f a w1) as [ev' o w2]; simpl in *.
  eauto.
Qed.

(** A handler that returns makes the whole [try] return. *)
Lemma returns_try_catch {A} (m : M A) (h : JsError -> M A) :
  (forall e, returns (h e)) -> returns (try_catch m h).
Proof.
  intros Hh w. rewrite try_catch_run.
  destruct (m w) as [ev [a|e] w1]; simpl; [eauto|].
  destruct (Hh e w1) as [b Hb]. destruct (h e w1) as [ev' o w2]; simpl in *.
  eauto.
Qed.


Section Ceiling.
Context (JSON_parse : string -> option jsval)
        (durationText : string).
Context (this : AgentService.t).

Lemma no_completion_lookup_tool_cache toolName toolArgs :
  no_completion
    (AgentService.lookup_tool_cache JSON_parse this toolName toolArgs).
Proof.
  unfold AgentService.lookup_tool_cache, RedisService.getCachedToolResult,
    RedisService.read_cached, Upstash.get, Upstash.del.
  no_completion.
Qed.

Lemma no_completion_store_tool_cache toolName toolArgs toolResult :
  no_completion
    (AgentService.store_tool_cache this toolName toolArgs toolResult).
Proof.
  unfold AgentService.store_tool_cache, RedisService.setCachedToolResult,
    RedisService.write_cached, Upstash.setex.
  no_completion.
Qed.

Lemma no_completion_run_tool tool toolName toolArgs userIp :
  no_completion (AgentService.run_tool tool toolName toolArgs userIp).
Proof. intros w. by rewrite run_tool_run. Qed.

Lemma no_completion_tool_step toolName tool toolArgs userIp :
  no_completion
    (bind (AgentService.lookup_tool_cache JSON_parse this toolName toolArgs)
       (fun cached =>
          if truthy cached then ret cached
          else
            bind (AgentService.run_tool tool toolName toolArgs userIp)
              (fun result =>
                 bind (AgentService.store_tool_cache this toolName toolArgs
                         result)
                   (fun _ => ret result)))).
Proof.
  apply no_completion_bind; [apply no_completion_lookup_tool_cache|].
  intros cached. destruct (truthy cached); [apply no_completion_ret|].
  apply no_completion_bind; [apply no_completion_run_tool|]. intros result.
  apply no_completion_bind;
    [apply no_completion_store_tool_cache | intros; apply no_completion_ret].
Qed.
















End Ceiling.


Section CeilingClaim.
Context (JSON_parse : string -> option jsval)
        (durationText : string).


End CeilingClaim.


(** The clients of the examples do ask for tools at every turn. *)
Lemma insistent_always_calls_tools text c :
  always_calls_tools (insistent text c).
Proof. intros n messages. by eexists _, c, []. Qed.

Lemma insistent_always_streams_tools this text c :
  AgentService.isReasoningModel this = false ->
  always_streams_tools "a few seconds" this (insistent text c).
Proof.
  intros Hr n messages. eexists. split_and!; [reflexivity | reflexivity |].
  intros w. unfold AgentService.on_chunk. simpl. rewrite Hr. simpl.
  destruct (opt_truthy text) eqn:E; simpl; eexists; split_and!;
    try reflexivity; simpl; try done; repeat constructor; eauto.
Qed.

(** The streaming run of the witness, evaluated: five turns, and the fixed
    message as the last event. *)
Example stream_reaches_ceiling :
  let r :=
    AgentService.processConversationWithToolsStream Samples.JSON_parse
      "a few seconds"
      (agent (Some (insistent None (call "call_1" "convert_currency" "{}"))) ∅)
      [AgentService.user_message "Convert 100 USD to EUR"] None
      (world_at 0 ∅ []) in
  last (emitted r) = Some (AgentService.final_content AgentService.MAX_TOOL_CALLS)
  /\ completions (world r) = 5%nat.
Proof. split; vm_compute; reflexivity. Qed.


(** The buffered path does not read the configured ceiling: with
    [MAX_ITERATIONS] set to 3 it still issues five completion requests,
    where the streaming path issues three. *)
Example buffered_ignores_MAX_ITERATIONS :
  let this :=
    agent (Some (insistent None (call "call_1" "convert_currency" "{}")))
      {[ "MAX_ITERATIONS" := "3" ]} in
  completions
    (world (AgentService.processConversationWithTools Samples.JSON_parse this
              [AgentService.user_message "Convert 100 USD to EUR"] None
              (world_at 0 ∅ []))) = 5%nat
  /\ completions
       (world (AgentService.processConversationWithToolsStream
                 Samples.JSON_parse "a few seconds" this
                 [AgentService.user_message "Convert 100 USD to EUR"] None
                 (world_at 0 ∅ []))) = 3%nat.
Proof. split; vm_compute; reflexivity. Qed.

(** The transcript of that run when its fifth request is made: the user
    message and four turns of an assistant message and a tool message. *)
Example buffered_fifth_request :
  let client :=
    insistent (Some "Let me check the rate.")
      (call "call_1" "convert_currency" "{}") in
  exists ms w4,
    transcript_after Samples.JSON_parse (agent (Some client) ∅) client None 4
      [AgentService.user_message "Convert 100 USD to EUR"] (world_at 0 ∅ [])
    = Some (ms, w4)
    /\ length ms = 9%nat
    /\ completions w4 = 4%nat
    /\ OpenAI.create client 4 ms
       = Ok {| OpenAI.content := Some "Let me check the rate.";
               OpenAI.tool_calls :=
                 Some [call "call_1" "convert_currency" "{}"] |}.
Proof.
  eexists _, _. split; [vm_compute; reflexivity|].
  split_and!; reflexivity.
Qed.


(* ================================================================== *)
(** * The tool-result cache *)
(* ================================================================== *)

(** A serialized value does not begin with the letter [o]. *)
Lemma serialize_head K v s :
  serialize K v = Some s ->
  exists c rest, s = String c rest /\ c <> "o"%char.
Proof.
  destruct v as [| |[]|n|t|items|fields]; simpl; intros [= <-];
    try (eexists _, _; split; [reflexivity | discriminate]).
  unfold dec. destruct (Z.to_int n) as [d|d]; simpl.
  - destruct d; simpl; eexists _, _; (split; [reflexivity | discriminate]).
  - eexists _, _; split; [reflexivity | discriminate].
Qed.

(** The serialization of a result that qualifies for the cache is not one
    of the texts a cache read purges, and is not empty. *)
Lemma bracket_not_sentinel c u :
  c <> "o"%char ->
  sentinel (String "[" (String c u)) = false
  /\ str_truthy (String "[" (String c u)) = true.
Proof.
  intros Hc. unfold sentinel, RedisService.startsWith.
  cbn -[Ascii.ascii_dec Ascii.eqb].
  destruct (Ascii.eqb_spec c "o"); [done|].
  destruct (Ascii.ascii_dec "o" c); done.
Qed.

Lemma cacheable_not_sentinel r s :
  AgentService.cacheable r = true -> JSON_stringify r = Some s ->
  sentinel s = false /\ str_truthy s = true.
Proof.
  unfold AgentService.cacheable, JSON_stringify.
  rewrite !andb_true_iff.
  destruct r as [| |b|n|t|items|fields]; simpl;
    try (intros [[_ [=]] _]; fail).
  - intros [[[=] _] _].
  - intros _ [= <-].
    destruct items as [|i items]; [done|]. cbn [map].
    assert (exists c rest,
               match serialize None i with Some s => s | None => "null" end
               = String c rest /\ c <> "o"%char) as (c & rest & -> & Hc).
    { destruct (serialize None i) eqn:E.
      - by apply serialize_head in E.
      - eexists _, _; split; [reflexivity | discriminate]. }
    destruct items; by apply (bracket_not_sentinel c).
  - intros _ [= <-]. done.
Qed.

Section ToolCache.
Context (JSON_parse : string -> option jsval).

Lemma read_cached_miss key t m c x h :
  Upstash.live t m key = None ->
  RedisService.read_cached JSON_parse key
    {| now := t; remote := {| kv := m; outages := [] |}; completions := c;
       executions := x; responseHeaders := h |}
  = Run [] (Ok VNull)
      {| now := t; remote := {| kv := m; outages := [] |}; completions := c;
         executions := x; responseHeaders := h |}.
Proof.
  intros Hl. unfold RedisService.read_cached. unfold_eff. simpl.
  rewrite Hl. reflexivity.
Qed.

Lemma read_cached_hit key t m c x h s e v :
  Upstash.live t m key = Some (RStr s, e) ->
  str_truthy s = true -> sentinel s = false -> JSON_parse s = Some v ->
  RedisService.read_cached JSON_parse key
    {| now := t; remote := {| kv := m; outages := [] |}; completions := c;
       executions := x; responseHeaders := h |}
  = Run [] (Ok v)
      {| now := t; remote := {| kv := m; outages := [] |}; completions := c;
         executions := x; responseHeaders := h |}.
Proof.
  intros Hl Hs Hn Hp. unfold RedisService.read_cached. unfold_eff. simpl.
  rewrite Hl. simpl. rewrite Hs. simpl. unfold sentinel in Hn.
  rewrite Hn, Hp. reflexivity.
Qed.

Lemma write_cached_run key data ttl t m c x h s :
  JSON_stringify data = Some s -> sentinel s = false -> 0 < ttl ->
  RedisService.write_cached key data ttl
    {| now := t; remote := {| kv := m; outages := [] |}; completions := c;
       executions := x; responseHeaders := h |}
  = Run [] (Ok tt)
      {| now := t;
         remote := {| kv := <[key := (RStr s, Some (t + ttl))]> m;
                      outages := [] |};
         completions := c; executions := x; responseHeaders := h |}.
Proof.
  intros Hs Hn Ht. unfold RedisService.write_cached. rewrite Hs.
  unfold sentinel in Hn. apply orb_false_elim in Hn as [-> _].
  unfold_eff. simpl. destruct (ttl <=? 0) eqn:E; [lia | reflexivity].
Qed.

Context (this : AgentService.t).
Hypothesis (Hcache : AgentService.toolCacheEnabled this = true).
Hypothesis (Hon : RedisService.off (AgentService.redisService this) = false).

Lemma lookup_tool_cache_miss toolName toolArgs hash t m c x h :
  RedisService.generateToolCacheKey toolName toolArgs = Ok hash ->
  Upstash.live t m (RedisService.tool_key toolName hash) = None ->
  AgentService.lookup_tool_cache JSON_parse this toolName toolArgs
    {| now := t; remote := {| kv := m; outages := [] |}; completions := c;
       executions := x; responseHeaders := h |}
  = Run [] (Ok VNull)
      {| now := t; remote := {| kv := m; outages := [] |}; completions := c;
         executions := x; responseHeaders := h |}.
Proof.
  intros Hkey Hl. unfold AgentService.lookup_tool_cache.
  rewrite Hcache, try_catch_run, bind_run, Hkey. cbn [lift_result ret].
  unfold RedisService.getCachedToolResult. rewrite Hon.
  by rewrite (read_cached_miss _ _ _ _ _ _ Hl).
Qed.

Lemma lookup_tool_cache_hit toolName toolArgs hash t m c x h s e v :
  RedisService.generateToolCacheKey toolName toolArgs = Ok hash ->
  Upstash.live t m (RedisService.tool_key toolName hash) = Some (RStr s, e) ->
  str_truthy s = true -> sentinel s = false -> JSON_parse s = Some v ->
  AgentService.lookup_tool_cache JSON_parse this toolName toolArgs
    {| now := t; remote := {| kv := m; outages := [] |}; completions := c;
       executions := x; responseHeaders := h |}
  = Run [] (Ok v)
      {| now := t; remote := {| kv := m; outages := [] |}; completions := c;
         executions := x; responseHeaders := h |}.
Proof.
  intros Hkey Hl Hs Hn Hp. unfold AgentService.lookup_tool_cache.
  rewrite Hcache, try_catch_run, bind_run, Hkey. cbn [lift_result ret].
  unfold RedisService.getCachedToolResult. rewrite Hon.
  by rewrite (read_cached_hit _ _ _ _ _ _ _ _ _ Hl Hs Hn Hp).
Qed.

(** The write-through on a healthy store: the entry is written when the
    result qualifies and the lifetime is positive, and nothing else
    changes. *)
Lemma store_tool_cache_run toolName toolArgs hash r t m c x h :
  RedisService.generateToolCacheKey toolName toolArgs = Ok hash ->
  AgentService.store_tool_cache this toolName toolArgs r
    {| now := t; remote := {| kv := m; outages := [] |}; completions := c;
       executions := x; responseHeaders := h |}
  = Run [] (Ok tt)
      {| now := t;
         remote :=
           {| kv :=
                match JSON_stringify r with
                | Some s =>
                    if AgentService.cacheable r
                       && (0 <? AgentService.toolCacheTtlSeconds this)
                    then <[RedisService.tool_key toolName hash
                           := (RStr s,
                               Some (t + AgentService.toolCacheTtlSeconds this))]>
                           m
                    else m
                | None => m
                end;
              outages := [] |};
         completions := c; executions := x; responseHeaders := h |}.
Proof.
  intros Hkey. unfold AgentService.store_tool_cache. rewrite Hcache.
  cbn [andb].
  destruct (AgentService.cacheable r) eqn:Hc; cbn [andb];
    [|by destruct (JSON_stringify r)].
  rewrite try_catch_run, bind_run, Hkey. cbn [lift_result ret].
  unfold RedisService.setCachedToolResult. rewrite Hon.
  destruct (JSON_stringify r) as [s|] eqn:Hs.
  - destruct (cacheable_not_sentinel r s Hc Hs) as [Hn _].
    destruct (0 <? AgentService.toolCacheTtlSeconds this) eqn:Ht.
    + rewrite (write_cached_run _ _ _ _ _ _ _ _ _ Hs Hn); [done | lia].
    + unfold RedisService.write_cached. rewrite Hs.
      unfold sentinel in Hn. apply orb_false_elim in Hn as [-> _].
      unfold_eff. simpl.
      destruct (AgentService.toolCacheTtlSeconds this <=? 0) eqn:E;
        [done | lia].
  - unfold RedisService.write_cached. by rewrite Hs.
Qed.

(** A call that misses the cache on a healthy store runs the tool, and the
    result is written through as [store_tool_cache_run] says. *)
Lemma executeToolCall_miss userIp toolCall results tool toolArgs hash r
  t m c x h :
  AgentService.toolRegistry this !! ToolCall.name toolCall = Some tool ->
  JSON_parse (ToolCall.arguments toolCall) = Some toolArgs ->
  RedisService.generateToolCacheKey (ToolCall.name toolCall) toolArgs
  = Ok hash ->
  Upstash.live t m (RedisService.tool_key (ToolCall.name toolCall) hash)
  = None ->
  Tool.execute tool (length x) (tool_input toolArgs userIp) = Ok r ->
  let w' :=
    {| now := t;
       remote :=
         {| kv :=
              match JSON_stringify r with
              | Some s =>
                  if AgentService.cacheable r
                     && (0 <? AgentService.toolCacheTtlSeconds this)
                  then <[RedisService.tool_key (ToolCall.name toolCall) hash
                         := (RStr s,
                             Some (t + AgentService.toolCacheTtlSeconds this))]>
                         m
                  else m
              | None => m
              end;
            outages := [] |};
       completions := c;
       executions := (ToolCall.name toolCall, tool_input toolArgs userIp) :: x;
       responseHeaders := h |} in
  let w :=
    {| now := t; remote := {| kv := m; outages := [] |}; completions := c;
       executions := x; responseHeaders := h |} in
  AgentService.executeToolCall JSON_parse this userIp toolCall results w
  = Run [] (Ok (assoc_set (ToolCall.id toolCall) r results)) w'
  /\ AgentService.streamToolCall JSON_parse this userIp (Some toolCall)
       results w
     = Run [tool_start (ToolCall.name toolCall) (Some (Tool.description tool));
            AgentService.tool_complete (ToolCall.name toolCall)
              "Processing completed successfully." (ToolCall.id toolCall) r]
         (Ok (assoc_set (ToolCall.id toolCall) r results)) w'.
Proof.
  intros Hreg Hparse Hkey Hl Hexec w' w. split.
  - unfold AgentService.executeToolCall. rewrite Hreg.
    rewrite try_catch_run, bind_run. unfold AgentService.parse_json.
    rewrite Hparse. cbn [ret]. rewrite bind_run.
    subst w. rewrite (lookup_tool_cache_miss _ _ _ _ _ _ _ _ Hkey Hl).
    cbn [truthy]. rewrite bind_run, run_tool_run. cbn [executions].
    rewrite Hexec. unfold after_execution.
    cbn [now remote completions executions responseHeaders].
    rewrite bind_run, (store_tool_cache_run _ _ _ _ _ _ _ _ _ Hkey).
    reflexivity.
  - unfold AgentService.streamToolCall. rewrite Hreg.
    rewrite bind_run. cbn [yield option_map fmap].
    rewrite try_catch_run, bind_run. unfold AgentService.parse_json.
    rewrite Hparse. cbn [ret]. rewrite bind_run.
    subst w. rewrite (lookup_tool_cache_miss _ _ _ _ _ _ _ _ Hkey Hl).
    cbn [truthy]. rewrite bind_run, bind_run, run_tool_run. cbn [executions].
    rewrite Hexec. unfold after_execution.
    cbn [now remote completions executions responseHeaders].
    rewrite bind_run, (store_tool_cache_run _ _ _ _ _ _ _ _ _ Hkey).
    reflexivity.
Qed.

(** A call that hits the cache on a healthy store records the parsed entry
    and leaves the world as it was: the tool is not run. *)
Lemma executeToolCall_hit userIp toolCall results tool toolArgs hash s e v
  t m c x h :
  AgentService.toolRegistry this !! ToolCall.name toolCall = Some tool ->
  JSON_parse (ToolCall.arguments toolCall) = Some toolArgs ->
  RedisService.generateToolCacheKey (ToolCall.name toolCall) toolArgs
  = Ok hash ->
  Upstash.live t m (RedisService.tool_key (ToolCall.name toolCall) hash)
  = Some (RStr s, e) ->
  str_truthy s = true -> sentinel s = false ->
  JSON_parse s = Some v -> truthy v = true ->
  let w :=
    {| now := t; remote := {| kv := m; outages := [] |}; completions := c;
       executions := x; responseHeaders := h |} in
  AgentService.executeToolCall JSON_parse this userIp toolCall results w
  = Run [] (Ok (assoc_set (ToolCall.id toolCall) v results)) w
  /\ AgentService.streamToolCall JSON_parse this userIp (Some toolCall)
       results w
     = Run [tool_start (ToolCall.name toolCall) (Some (Tool.description tool));
            AgentService.tool_complete (ToolCall.name toolCall)
              "Processing completed successfully." (ToolCall.id toolCall) v]
         (Ok (assoc_set (ToolCall.id toolCall) v results)) w.
Proof.
  intros Hreg Hparse Hkey Hl Hs Hn Hp Hv w. split.
  - unfold AgentService.executeToolCall. rewrite Hreg.
    rewrite try_catch_run, bind_run. unfold AgentService.parse_json.
    rewrite Hparse. cbn [ret]. rewrite bind_run.
    subst w.
    rewrite (lookup_tool_cache_hit _ _ _ _ _ _ _ _ _ _ _ Hkey Hl Hs Hn Hp).
    rewrite Hv. reflexivity.
  - unfold AgentService.streamToolCall. rewrite Hreg.
    rewrite bind_run. cbn [yield option_map fmap].
    rewrite try_catch_run, bind_run. unfold AgentService.parse_json.
    rewrite Hparse. cbn [ret]. rewrite bind_run.
    subst w.
    rewrite (lookup_tool_cache_hit _ _ _ _ _ _ _ _ _ _ _ Hkey Hl Hs Hn Hp).
    rewrite Hv. reflexivity.
Qed.

End ToolCache.

Section ToolCacheClaim.
Context (JSON_parse : string -> option jsval).

(** C2 (amended).  With the tool cache enabled and the store connected and
    healthy, a call to a registered tool whose arguments parse, whose key
    can be derived and whose entry is absent runs the tool once and records
    its result, on the buffered path and on the streaming path alike.  The
    store is left as it was unless the result is a truthy object without a
    truthy [error] property; such a result is stored, serialized, under the
    key of the call for [toolCacheTtlSeconds] seconds when that is
    positive.  A second call with the same name and the same arguments text
    made before the entry expires (whatever its id and its user address)
    then records the value parsed from the stored text, when that value is
    truthy, and does not run the tool: the executions are those left by the
    first call. *)
Theorem tool_result_cached (this : AgentService.t)
  (userIp userIp' : option string) (first second : ToolCall.t)
  (results results' : list (string * jsval)) (tool : Tool.t)
  (toolArgs : jsval) (hash : string) (r : jsval) (w : World) :
  AgentService.toolCacheEnabled this = true ->
  RedisService.off (AgentService.redisService this) = false ->
  healthy w ->
  AgentService.toolRegistry this !! ToolCall.name first = Some tool ->
  ToolCall.name second = ToolCall.name first ->
  ToolCall.arguments second = ToolCall.arguments first ->
  JSON_parse (ToolCall.arguments first) = Some toolArgs ->
  RedisService.generateToolCacheKey (ToolCall.name first) toolArgs = Ok hash ->
  stored w (RedisService.tool_key (ToolCall.name first) hash) = None ->
  Tool.execute tool (length (executions w)) (tool_input toolArgs userIp)
  = Ok r ->
  let key := RedisService.tool_key (ToolCall.name first) hash in
  let ttl := AgentService.toolCacheTtlSeconds this in
  let run1 := AgentService.executeToolCall JSON_parse this userIp first
                results w in
  let stream1 := AgentService.streamToolCall JSON_parse this userIp
                   (Some first) results w in
  outcome run1 = Ok (assoc_set (ToolCall.id first) r results)
  /\ outcome stream1 = outcome run1 /\ world stream1 = world run1
  /\ executions (world run1)
     = (ToolCall.name first, tool_input toolArgs userIp) :: executions w
  /\ (AgentService.cacheable r = false ->
      kv (remote (world run1)) = kv (remote w))
  /\ (forall s v t,
        AgentService.cacheable r = true -> JSON_stringify r = Some s ->
        JSON_parse s = Some v -> truthy v = true ->
        now w <= t < now w + ttl ->
        let run2 := AgentService.executeToolCall JSON_parse this userIp'
                      second results' (at_time t (world run1)) in
        let stream2 := AgentService.streamToolCall JSON_parse this userIp'
                         (Some second) results' (at_time t (world run1)) in
        kv (remote (world run1)) !! key = Some (RStr s, Some (now w + ttl))
        /\ outcome run2 = Ok (assoc_set (ToolCall.id second) v results')
        /\ executions (world run2) = executions (world run1)
        /\ outcome stream2 = outcome run2
        /\ executions (world stream2) = executions (world run1)).
Proof.
  intros Hcache Hon Hw Hreg Hname Hargs Hparse Hkey Hmiss Hexec
    key ttl run1 stream1.
  destruct w as [t0 [m o] c x h]. unfold healthy in Hw. simpl in Hw.
  subst o. unfold stored in Hmiss. cbn [now remote kv] in Hmiss.
  assert (Hl : Upstash.live t0 m key = None).
  { subst key. by destruct (Upstash.live t0 m _) as [[]|]. }
  cbn [executions] in Hexec.
  destruct (executeToolCall_miss JSON_parse this Hcache Hon userIp first
              results tool toolArgs hash r t0 m c x h Hreg Hparse Hkey Hl
              Hexec) as [H1 H1s].
  cbv zeta in H1, H1s. fold key ttl in H1, H1s.
  subst run1 stream1. rewrite H1, H1s. cbn [outcome world executions remote kv now].
  split_and!; try done.
  - intros Hc. rewrite Hc. cbn [andb]. by destruct (JSON_stringify r).
  - intros s v t Hc Hs Hp Hv Ht. rewrite Hs, Hc. cbn [andb].
    assert ((0 <? ttl) = true) as -> by lia.
    destruct (cacheable_not_sentinel r s Hc Hs) as [Hn Hne].
    unfold at_time. cbn [now remote completions executions responseHeaders].
    assert (Hl2 : Upstash.live t (<[key := (RStr s, Some (t0 + ttl))]> m)
                    (RedisService.tool_key (ToolCall.name second) hash)
                  = Some (RStr s, Some (t0 + ttl))).
    { rewrite Hname. fold key. rewrite live_insert_eq.
      destruct (t0 + ttl <=? t) eqn:E; [lia | done]. }
    rewrite <- Hname in Hreg, Hkey. rewrite <- Hargs in Hparse.
    destruct (executeToolCall_hit JSON_parse this Hcache Hon userIp' second
                results' tool toolArgs hash s _ v t _ c
                ((ToolCall.name first, tool_input toolArgs userIp) :: x) h
                Hreg Hparse Hkey Hl2 Hne Hn Hp Hv) as [H2 H2s].
    cbv zeta in H2, H2s. rewrite H2, H2s.
    cbn [outcome world executions].
    split_and!; try done. by rewrite lookup_insert_eq.
Qed.

End ToolCacheClaim.

(** A conversion asked for twice, ten seconds apart, under a cache of ten
    minutes: the second call gets the quote of the first. *)
Lemma tool_result_cached_witness :
  let this := agent None ∅ in
  let first := call "call_1" "convert_currency" "{}" in
  let second := call "call_2" "convert_currency" "{}" in
  let w := world_at 100 ∅ [] in
  let r := VObj [("convertedAmount", VNum 92); ("quote", VNum 0)] in
  let run1 := AgentService.executeToolCall Samples.JSON_parse this None first
                [] w in
  let run2 := AgentService.executeToolCall Samples.JSON_parse this None
                second [] (at_time 110 (world run1)) in
  outcome run1 = Ok [("call_1", r)]
  /\ executions (world run1)
     = [("convert_currency", tool_input (VObj []) None)]
  /\ outcome run2 = Ok [("call_2", r)]
  /\ executions (world run2) = executions (world run1).
Proof.
  intros this first second w r run1 run2.
  pose proof (tool_result_cached Samples.JSON_parse this None None first
                second [] [] convert_currency (VObj []) "f62" r w) as T.
  assert (Hkey : RedisService.generateToolCacheKey (ToolCall.name first)
                   (VObj []) = Ok "f62") by (vm_compute; reflexivity).
  assert (Hparse : Samples.JSON_parse (ToolCall.arguments first)
                   = Some (VObj [])) by (vm_compute; reflexivity).
  specialize (T eq_refl eq_refl eq_refl eq_refl eq_refl eq_refl Hparse Hkey
                eq_refl eq_refl).
  destruct T as (T1 & _ & _ & T2 & _ & T3).
  split; [exact T1|]. split; [exact T2|].
  assert (Hs : JSON_stringify r
               = Some (String "{" (String dquote
                         ("convertedAmount" +:+ String dquote
                            (":92," +:+ String dquote
                               ("quote" +:+ String dquote ":0}"))))))
    by (vm_compute; reflexivity).
  assert (Hv : Samples.JSON_parse
                 (String "{" (String dquote
                    ("convertedAmount" +:+ String dquote
                       (":92," +:+ String dquote
                          ("quote" +:+ String dquote ":0}")))))
               = Some r) by (vm_compute; reflexivity).
  assert (Ht : now w <= 110 < now w + AgentService.toolCacheTtlSeconds this)
    by (vm_compute; split; [intros [=] | reflexivity]).
  destruct (T3 _ r 110 eq_refl Hs Hv eq_refl Ht) as (_ & A & B & _).
  split; [exact A | exact B].
Defined.

(** C2 as stated does not hold of a result that is not written through:
    a tool that answers with an error object is run again by an identical
    call made one second later. *)
Lemma error_result_executes_twice :
  let this := agent None ∅ in
  let first := call "call_1" "lookup_rate" "{}" in
  let second := call "call_2" "lookup_rate" "{}" in
  let run1 := AgentService.executeToolCall Samples.JSON_parse this None first
                [] (world_at 100 ∅ []) in
  let run2 := AgentService.executeToolCall Samples.JSON_parse this None
                second [] (at_time 101 (world run1)) in
  AgentService.toolCacheEnabled this = true
  /\ RedisService.off (AgentService.redisService this) = false
  /\ healthy (world_at 100 ∅ [])
  /\ ToolCall.name first = ToolCall.name second
  /\ ToolCall.arguments first = ToolCall.arguments second
  /\ 101 < 100 + AgentService.toolCacheTtlSeconds this
  /\ outcome run1 = Ok [("call_1", VObj [("error", VStr "rate unavailable")])]
  /\ length (executions (world run1)) = 1%nat
  /\ length (executions (world run2)) = 2%nat.
Proof.
  cbv zeta. split_and!; try reflexivity; vm_compute; reflexivity.
Qed.


(* ================================================================== *)
(** * Numbers and their decimal text *)
(* ================================================================== *)

Lemma digits_prefix_text (d : Decimal.uint) : forall a,
  digits_prefix 10 (Some a) (DecimalString.NilEmpty.string_of_uint d)
  = Some (digits_value a d).
Proof. induction d; intros a; simpl; try apply IHd; reflexivity. Qed.

Lemma digits_value_pos (d : Decimal.uint) : forall acc : positive,
  digits_value (Z.pos acc) d = Z.pos (Pos.of_uint_acc d acc).
Proof.
  induction d; intros acc; simpl; try reflexivity;
    (etransitivity; [|apply IHd]); f_equal; lia.
Qed.

Lemma digits_value_zero (d : Decimal.uint) :
  digits_value 0 d = Z.of_N (Pos.of_uint d).
Proof.
  induction d; simpl; try reflexivity; try apply IHd;
    apply (digits_value_pos d).
Qed.

(** Reading the digits of a positive number gives the number back. *)
Lemma digits_prefix_to_uint (p : positive) :
  digits_prefix 10 None (DecimalString.NilEmpty.string_of_uint (Pos.to_uint p))
  = Some (Z.pos p).
Proof.
  pose proof (DecimalPos.Unsigned.of_to p) as H.
  destruct (Pos.to_uint p) as [|d|d|d|d|d|d|d|d|d|d] eqn:E; simpl in *;
    try discriminate;
    match goal with
    | |- digits_prefix _ (Some ?a) _ = _ =>
        let a' := eval vm_compute in a in change a with a'
    end;
    rewrite digits_prefix_text; f_equal;
    first [ rewrite digits_value_zero; by rewrite H
          | rewrite (digits_value_pos d); by injection H as -> ].
Qed.

Lemma text_of_positive (p : positive) :
  exists c rest,
    DecimalString.NilZero.string_of_uint (Pos.to_uint p) = String c rest
    /\ DecimalString.NilEmpty.string_of_uint (Pos.to_uint p) = String c rest
    /\ is_ws c = false /\ c <> "-"%char /\ c <> "+"%char
    /\ (c = "0"%char -> forall r, rest <> String "x" r /\ rest <> String "X" r).
Proof.
  pose proof (DecimalPos.Unsigned.of_to p) as H.
  destruct (Pos.to_uint p) as [|d|d|d|d|d|d|d|d|d|d]; simpl in *;
    try discriminate;
    eexists _, _; (split; [reflexivity|]); (split; [reflexivity|]);
    split_and!; try done.
  intros _ r. destruct d; simpl; split; discriminate.
Qed.

(** [parseInt] reads back the decimal text of an integer, with radix 10
    and without a radix. *)
Lemma parseInt_dec (n : Z) (radix : option Z) :
  radix = None \/ radix = Some 10 -> parseInt (dec n) radix = Some n.
Proof.
  intros Hr. unfold dec. destruct n as [|p|p]; simpl.
  - by destruct Hr as [-> | ->].
  - destruct (text_of_positive p) as (c & rest & E0 & E & Hws & Hm & Hp & Hx).
    pose proof (digits_prefix_to_uint p) as Hd.
    rewrite E0. rewrite E in Hd. unfold parseInt. simpl. rewrite Hws.
    assert (Hsign : (match String c rest with
                     | String "-" r => (-1, r)
                     | String "+" r => (1, r)
                     | _ => (1, String c rest)
                     end) = (1, String c rest)).
    { destruct c as [[] [] [] [] [] [] [] []]; try done. }
    rewrite Hsign.
    assert (Hrad : (match radix, String c rest with
                    | None, String "0" (String "x" r) => (16, r)
                    | None, String "0" (String "X" r) => (16, r)
                    | None, _ => (10, String c rest)
                    | Some r, _ => (r, String c rest)
                    end) = (10, String c rest)).
    { destruct Hr as [-> | ->]; [|done].
      destruct c as [[] [] [] [] [] [] [] []]; try done.
      destruct rest as [|c' rest']; [done|].
      destruct c' as [[] [] [] [] [] [] [] []]; try done;
        destruct (Hx eq_refl rest') as [? ?]; done. }
    rewrite Hrad, Hd. f_equal; lia.
  - destruct (text_of_positive p) as (c & rest & E0 & E & Hws & Hm & Hp & Hx).
    pose proof (digits_prefix_to_uint p) as Hd.
    rewrite E0. rewrite E in Hd. unfold parseInt. simpl.
    assert (Hrad : (match radix, String c rest with
                    | None, String "0" (String "x" r) => (16, r)
                    | None, String "0" (String "X" r) => (16, r)
                    | None, _ => (10, String c rest)
                    | Some r, _ => (r, String c rest)
                    end) = (10, String c rest)).
    { destruct Hr as [-> | ->]; [|done].
      destruct c as [[] [] [] [] [] [] [] []]; try done.
      destruct rest as [|c' rest']; [done|].
      destruct c' as [[] [] [] [] [] [] [] []]; try done;
        destruct (Hx eq_refl rest') as [? ?]; done. }
    rewrite Hrad, Hd. f_equal; lia.
Qed.

(** ** Texts *)

Lemma string_app_nil_r (s : string) : s +:+ "" = s.
Proof.
  induction s as [|c s IH]; [done|].
  change (String c s +:+ "") with (String c (s +:+ "")). by rewrite IH.
Qed.

Lemma string_app_assoc (a b c : string) : (a +:+ b) +:+ c = a +:+ (b +:+ c).
Proof.
  induction a as [|x a IH]; [done|].
  change ((String x a +:+ b) +:+ c) with (String x ((a +:+ b) +:+ c)).
  by rewrite IH.
Qed.


(* ================================================================== *)
(** * The Redis adapter: writes, round trips, blocks *)
(* ================================================================== *)

(** A text that does not begin with a bracket is not one of the texts a
    cache read purges. *)
Lemma head_not_sentinel c u :
  c <> "["%char ->
  sentinel (String c u) = false /\ str_truthy (String c u) = true.
Proof.
  intros Hc. unfold sentinel, RedisService.startsWith.
  cbn -[Ascii.ascii_dec Ascii.eqb].
  destruct (Ascii.eqb_spec c "["); [done|].
  destruct (Ascii.ascii_dec "[" c); done.
Qed.

(** [JSON.stringify] never produces a text that a cache read purges as a
    sentinel, nor the empty text. *)
Lemma serialize_not_sentinel K v s :
  serialize K v = Some s -> sentinel s = false /\ str_truthy s = true.
Proof.
  destruct v as [| |[]|n|t|items|fields]; simpl; intros [= <-]; try done.
  - unfold dec. destruct (Z.to_int n) as [d|d]; simpl.
    + destruct d; by apply head_not_sentinel.
    + by apply head_not_sentinel.
  - destruct items as [|i items]; [done|]. cbn [map].
    assert (exists c rest,
               match serialize K i with Some s => s | None => "null" end
               = String c rest /\ c <> "o"%char) as (c & rest & -> & Hc).
    { destruct (serialize K i) eqn:E.
      - by apply serialize_head in E.
      - eexists _, _; split; [reflexivity | discriminate]. }
    destruct items; by apply (bracket_not_sentinel c).
Qed.

Section Adapter.
Context (JSON_parse : string -> option jsval).

(** The write path never throws, emits nothing, sends nothing to the store
    for a value without a serialization, and writes no key but its own. *)
Lemma write_cached_absorbs key data ttl w :
  outcome (RedisService.write_cached key data ttl w) = Ok tt
  /\ emitted (RedisService.write_cached key data ttl w) = []
  /\ (JSON_stringify data = None ->
      world (RedisService.write_cached key data ttl w) = w)
  /\ (forall k, k <> key ->
      kv (remote (world (RedisService.write_cached key data ttl w))) !! k
      = kv (remote w) !! k).
Proof.
  unfold RedisService.write_cached.
  destruct (JSON_stringify data) as [s|] eqn:Hs; [|done].
  destruct (String.eqb s "[object Object]"); [done|].
  rewrite try_catch_run. unfold Upstash.setex, Upstash.command.
  destruct w as [t [m o] c x h]. cbn [remote outages now kv].
  destruct o as [|[] o]; destruct (ttl <=? 0); cbn;
    split_and!; try done; intros k Hk; by rewrite ?lookup_insert_ne.
Qed.

(** X1.  The two cache writes, [setCachedResponse] and
    [setCachedToolResult], absorb every failure: whatever the service, the
    store, the value and the lifetime, they return without throwing and emit
    nothing; a value that [JSON.stringify] maps to [undefined] leaves the
    world as it was; and no key but the one written is changed. *)
Theorem cache_writes_never_throw (rs : RedisService.t)
  (cacheKey toolName argsHash : string) (data : jsval) (ttlSeconds : Z)
  (w : World) :
  let response :=
    RedisService.setCachedResponse rs cacheKey data ttlSeconds w in
  let tool :=
    RedisService.setCachedToolResult rs toolName argsHash data ttlSeconds w in
  outcome response = Ok tt /\ emitted response = []
  /\ outcome tool = Ok tt /\ emitted tool = []
  /\ (JSON_stringify data = None -> world response = w /\ world tool = w)
  /\ (forall k, k <> cacheKey ->
      kv (remote (world response)) !! k = kv (remote w) !! k)
  /\ (forall k, k <> RedisService.tool_key toolName argsHash ->
      kv (remote (world tool)) !! k = kv (remote w) !! k).
Proof.
  cbv zeta.
  unfold RedisService.setCachedResponse, RedisService.setCachedToolResult.
  destruct (RedisService.off rs); [done|].
  destruct (write_cached_absorbs cacheKey data ttlSeconds w)
    as (A1 & A2 & A3 & A4).
  destruct (write_cached_absorbs (RedisService.tool_key toolName argsHash)
              data ttlSeconds w) as (B1 & B2 & B3 & B4).
  split_and!; auto.
Qed.

(** X2.  What a cache write stores, a cache read gives back until it
    expires.  On a connected, healthy store, a value written with a positive
    lifetime is read back, at any instant before the lifetime has run out,
    as what [JSON.parse] makes of its serialization, and the read changes
    nothing; from the instant the lifetime has run out the read is a miss.
    This holds of the response cache and of the tool-result cache. *)
Theorem cache_round_trip (rs : RedisService.t)
  (cacheKey toolName argsHash : string) (data v : jsval) (s : string)
  (ttlSeconds t : Z) (w : World) :
  RedisService.off rs = false -> healthy w -> 0 < ttlSeconds ->
  JSON_stringify data = Some s -> JSON_parse s = Some v ->
  let w1 := at_time t (world (RedisService.setCachedResponse rs cacheKey data
                                ttlSeconds w)) in
  let w2 := at_time t (world (RedisService.setCachedToolResult rs toolName
                                argsHash data ttlSeconds w)) in
  (t < now w + ttlSeconds ->
   RedisService.getCachedResponse JSON_parse rs cacheKey w1 = Run [] (Ok v) w1
   /\ RedisService.getCachedToolResult JSON_parse rs toolName argsHash w2
      = Run [] (Ok v) w2)
  /\ (now w + ttlSeconds <= t ->
      RedisService.getCachedResponse JSON_parse rs cacheKey w1
      = Run [] (Ok VNull) w1
      /\ RedisService.getCachedToolResult JSON_parse rs toolName argsHash w2
         = Run [] (Ok VNull) w2).
Proof.
  intros Hon Hw Httl Hs Hp.
  destruct w as [t0 [m o] c x h]. unfold healthy in Hw. simpl in Hw. subst o.
  destruct (serialize_not_sentinel None data s Hs) as [Hn Hne].
  unfold RedisService.setCachedResponse, RedisService.setCachedToolResult,
    RedisService.getCachedResponse, RedisService.getCachedToolResult.
  rewrite Hon.
  rewrite !(write_cached_run _ _ _ _ _ _ _ _ _ Hs Hn Httl).
  unfold at_time. cbn [world now remote completions executions responseHeaders].
  split; intros Ht.
  - split; apply (read_cached_hit _ _ _ _ _ _ _ s (Some (t0 + ttlSeconds)));
      try done; rewrite live_insert_eq;
      destruct (t0 + ttlSeconds <=? t) eqn:E; try done; lia.
  - split; apply read_cached_miss; rewrite live_insert_eq;
      destruct (t0 + ttlSeconds <=? t) eqn:E; try done; lia.
Qed.

End Adapter.

(** A quote cached for five minutes, read after one minute and after
    five. *)
Lemma cache_round_trip_witness :
  let data := VObj [("rate", VNum 92)] in
  let w := world_at 100 ∅ [] in
  let w1 := at_time 160 (world (RedisService.setCachedResponse redis_on "k"
                                  data 300 w)) in
  let w1' := at_time 400 (world (RedisService.setCachedResponse redis_on "k"
                                   data 300 w)) in
  RedisService.getCachedResponse Samples.JSON_parse redis_on "k" w1
  = Run [] (Ok data) w1
  /\ RedisService.getCachedResponse Samples.JSON_parse redis_on "k" w1'
     = Run [] (Ok VNull) w1'.
Proof.
  intros data w w1 w1'.
  assert (Hs : JSON_stringify data
               = Some (String "{" (String dquote
                         ("rate" +:+ String dquote ":92}"))))
    by (vm_compute; reflexivity).
  assert (Hp : Samples.JSON_parse
                 (String "{" (String dquote ("rate" +:+ String dquote ":92}")))
               = Some data) by (vm_compute; reflexivity).
  split.
  - apply (cache_round_trip Samples.JSON_parse redis_on "k" "" "" data data _
             300 160 w eq_refl eq_refl eq_refl Hs Hp).
    reflexivity.
  - apply (cache_round_trip Samples.JSON_parse redis_on "k" "" "" data data _
             300 400 w eq_refl eq_refl eq_refl Hs Hp).
    intros [=].
Defined.

(** ** Blocks *)

(** X3.  [isBlocked] fails open and agrees with [getBlockInfo].  It never
    throws; with the service off it answers [false] without a command; when
    its command fails it answers [false]; and on a connected, healthy store
    it answers whether the block key of the identifier is live, as the
    first component of [getBlockInfo] does, and changes nothing. *)
Theorem isBlocked_fail_open (rs : RedisService.t) (identifier : string)
  (w : World) :
  (exists b, outcome (RedisService.isBlocked rs identifier w) = Ok b)
  /\ (RedisService.off rs = true ->
      RedisService.isBlocked rs identifier w = Run [] (Ok false) w)
  /\ (RedisService.off rs = false ->
      (exists rest, outages (remote w) = true :: rest) ->
      outcome (RedisService.isBlocked rs identifier w) = Ok false)
  /\ (RedisService.off rs = false -> healthy w ->
      RedisService.isBlocked rs identifier w
      = Run []
          (Ok (bool_decide
                 (is_Some (Upstash.live (now w) (kv (remote w))
                             (RedisService.block_key identifier)))))
          w
      /\ exists ttl,
           RedisService.getBlockInfo rs identifier w
           = Run []
               (Ok (bool_decide
                      (is_Some (Upstash.live (now w) (kv (remote w))
                                  (RedisService.block_key identifier))),
                    ttl))
               w).
Proof.
  unfold RedisService.isBlocked, RedisService.getBlockInfo.
  destruct (RedisService.off rs) eqn:Hoff.
  { split_and!; try done. by eexists. }
  destruct w as [t [m o] c x h]. unfold healthy. cbn [remote outages].
  split_and!; try done.
  - unfold_eff. cbn [remote outages now kv].
    destruct o as [|[] o]; cbn; try by eexists.
    all: destruct (Upstash.live t m _) as [[]|]; cbn; by eexists.
  - intros _ [rest ->]. reflexivity.
  - intros _ ->. unfold_eff. cbn [remote outages now kv].
    destruct (Upstash.live t m (RedisService.block_key identifier))
      as [[v [e|]]|] eqn:Hb; cbn; rewrite ?Hb; cbn; (split; [done|]);
      by eexists.
Qed.

(** X4.  A block lasts as long as it was set for.  On a connected, healthy
    store, after [setBlock] with a positive duration the identifier is
    blocked at every instant before the duration has run out, with the
    seconds left as [getBlockInfo] reports them, and is not blocked from
    then on; what [isBlocked] answers for another identifier is what it
    answered before. *)
Theorem setBlock_blocks_until_expiry (rs : RedisService.t)
  (identifier other : string) (durationSeconds t : Z) (w : World) :
  RedisService.off rs = false -> healthy w -> 0 < durationSeconds ->
  let w1 := at_time t (world (RedisService.setBlock rs identifier
                                durationSeconds w)) in
  outcome (RedisService.setBlock rs identifier durationSeconds w) = Ok tt
  /\ outcome (RedisService.isBlocked rs identifier w1)
     = Ok (bool_decide (t < now w + durationSeconds))
  /\ (t < now w + durationSeconds ->
      outcome (RedisService.getBlockInfo rs identifier w1)
      = Ok (true, now w + durationSeconds - t))
  /\ (other <> identifier ->
      outcome (RedisService.isBlocked rs other w1)
      = outcome (RedisService.isBlocked rs other (at_time t w))).
Proof.
  intros Hon Hw Hd.
  destruct w as [t0 [m o] c x h]. unfold healthy in Hw. simpl in Hw. subst o.
  unfold RedisService.setBlock, RedisService.isBlocked,
    RedisService.getBlockInfo.
  rewrite Hon. cbv zeta. unfold_eff. cbn [remote outages now kv].
  destruct (durationSeconds <=? 0) eqn:E; [lia|].
  unfold at_time. cbn [world outcome now remote kv outages completions
                         executions responseHeaders with_remote tail].
  rewrite !live_insert_eq.
  split_and!; try done.
  - destruct (t0 + durationSeconds <=? t) eqn:E2; cbn;
      f_equal; symmetry; [apply bool_decide_eq_false | apply bool_decide_eq_true];
      lia.
  - intros Ht. destruct (t0 + durationSeconds <=? t) eqn:E2; [lia|]. cbn.
    rewrite !live_insert_eq. rewrite E2. reflexivity.
  - intros Hne. rewrite live_insert_ne;
      [|intros Heq; apply block_key_inj in Heq; done].
    by destruct (Upstash.live t m _) as [[]|].
Qed.

(** A block of fifteen minutes, asked about after five. *)
Lemma setBlock_blocks_until_expiry_witness :
  let w := world_at 100 ∅ [] in
  let w1 := at_time 400 (world (RedisService.setBlock redis_on "ip:10.0.0.7"
                                  900 w)) in
  outcome (RedisService.isBlocked redis_on "ip:10.0.0.7" w1) = Ok true
  /\ outcome (RedisService.getBlockInfo redis_on "ip:10.0.0.7" w1)
     = Ok (true, 600).
Proof.
  intros w w1.
  destruct (setBlock_blocks_until_expiry redis_on "ip:10.0.0.7" "ip:10.0.0.8"
              900 400 w eq_refl eq_refl eq_refl) as (_ & A & B & _).
  split; [exact A | apply B; reflexivity].
Defined.

(** ** Plain keys *)

(** X5.  [set] and [get].  On a connected, healthy store: a value set
    without a lifetime, or with the lifetime [0] (which the method takes as
    none), is read back at every later instant and has no time to live; a
    value set with a positive lifetime is read back before the lifetime has
    run out and is gone from then on; a negative lifetime makes [set] throw
    and leaves the keys as they were; and after [del] the key does not
    exist. *)
Theorem set_get_round_trip (rs : RedisService.t) (key value : string)
  (ttlSeconds : option Z) (t : Z) (w : World) :
  RedisService.off rs = false -> healthy w ->
  let w1 := at_time t (world (RedisService.set rs key value ttlSeconds w)) in
  (ttlSeconds = None \/ ttlSeconds = Some 0 ->
   outcome (RedisService.get rs key w1) = Ok (VStr value)
   /\ outcome (RedisService.ttl rs key w1) = Ok (-1))
  /\ (forall n, ttlSeconds = Some n -> 0 < n ->
      outcome (RedisService.get rs key w1)
      = Ok (if t <? now w + n then VStr value else VNull)
      /\ outcome (RedisService.exists_ rs key w1)
         = Ok (t <? now w + n))
  /\ (forall n, ttlSeconds = Some n -> n < 0 ->
      (exists e, outcome (RedisService.set rs key value ttlSeconds w)
                 = Throw e)
      /\ remote w1 = remote w)
  /\ outcome (RedisService.exists_ rs key
                (world (RedisService.del rs key w1))) = Ok false.
Proof.
  intros Hon Hw.
  destruct w as [t0 [m o] c x h]. unfold healthy in Hw. simpl in Hw. subst o.
  unfold RedisService.set, RedisService.get, RedisService.ttl,
    RedisService.exists_, RedisService.del.
  rewrite Hon. cbv zeta. split_and!.
  - intros [-> | ->]; unfold_eff; cbn; rewrite !live_insert_eq; done.
  - intros n -> Hn. destruct (n =? 0) eqn:E0; [lia|].
    unfold_eff. cbn [remote outages now kv].
    destruct (n <=? 0) eqn:E; [lia|]. cbn.
    rewrite !live_insert_eq.
    destruct (t0 + n <=? t) eqn:E2; cbn;
      assert ((t <? t0 + n) = negb (t0 + n <=? t)) as -> by lia;
      rewrite E2; done.
  - intros n -> Hn. destruct (n =? 0) eqn:E0; [lia|].
    unfold_eff. cbn [remote outages now kv].
    destruct (n <=? 0) eqn:E; [|lia]. cbn. split; [by eexists | done].
  - destruct ttlSeconds as [n|]; [destruct (n =? 0)|]; unfold_eff;
      cbn [remote outages now kv];
      try destruct (n <=? 0); cbn;
      unfold Upstash.live; by rewrite lookup_delete_eq.
Qed.

(** A value set for a minute, read half a minute later. *)
Lemma set_get_round_trip_witness :
  let w1 := at_time 130 (world (RedisService.set redis_on "k" "v" (Some 60)
                                  (world_at 100 ∅ []))) in
  outcome (RedisService.get redis_on "k" w1) = Ok (VStr "v")
  /\ outcome (RedisService.exists_ redis_on "k" w1) = Ok true.
Proof.
  intros w1.
  destruct (set_get_round_trip redis_on "k" "v" (Some 60) 130
              (world_at 100 ∅ []) eq_refl eq_refl) as (_ & A & _).
  exact (A 60 eq_refl eq_refl).
Defined.

(** ** The hash of the cache keys *)

Lemma to_int32_offset (z : Z) : exists k, to_int32 z = z + k * 2 ^ 32.
Proof.
  unfold to_int32. exists (- ((z + 2 ^ 31) / 2 ^ 32)).
  pose proof (Z.div_mod (z + 2 ^ 31) (2 ^ 32)). lia.
Qed.

Lemma to_int32_congr (x y k : Z) : x = y + k * 2 ^ 32 -> to_int32 x = to_int32 y.
Proof.
  intros ->. unfold to_int32.
  replace (y + k * 2 ^ 32 + 2 ^ 31) with (y + 2 ^ 31 + k * 2 ^ 32) by lia.
  by rewrite Z.mod_add.
Qed.

Lemma to_int32_range (z : Z) : - 2 ^ 31 <= to_int32 z < 2 ^ 31.
Proof.
  unfold to_int32. pose proof (Z.mod_pos_bound (z + 2 ^ 31) (2 ^ 32)). lia.
Qed.

(** One turn of the loop of [simpleHash] multiplies by 31 and adds the code
    unit, modulo [2^32]. *)
Lemma hash_step_31 (a : Z) (c : ascii) :
  RedisService.hash_step (to_int32 a) c
  = to_int32 (31 * a + Z.of_N (N_of_ascii c)).
Proof.
  unfold RedisService.hash_step. rewrite Z.shiftl_mul_pow2 by lia.
  destruct (to_int32_offset a) as [k1 Hk1].
  destruct (to_int32_offset (to_int32 a * 2 ^ 5)) as [k2 Hk2].
  apply (to_int32_congr _ _ (31 * k1 + k2)). lia.
Qed.

Lemma fold_hash_step (cs : list ascii) : forall a,
  fold_left RedisService.hash_step cs (to_int32 a)
  = to_int32 (fold_left (fun acc c => 31 * acc + Z.of_N (N_of_ascii c)) cs a).
Proof.
  induction cs as [|c cs IH]; intros a; [done|].
  cbn [fold_left]. rewrite hash_step_31. apply IH.
Qed.

(** X6.  [simpleHash] is the polynomial hash in 31 of the code units,
    reduced to a signed 32-bit integer, in absolute value and in
    hexadecimal; the value printed lies between [0] and [2^31]; and the
    copy of the function in the agent service computes the same text as the
    one of the Redis adapter. *)
Theorem simpleHash_polynomial (str : string) :
  RedisService.simpleHash str = hex (Z.abs (to_int32 (polynomial_31 str)))
  /\ AgentService.simpleHash str = RedisService.simpleHash str
  /\ 0 <= Z.abs (to_int32 (polynomial_31 str)) <= 2 ^ 31.
Proof.
  unfold RedisService.simpleHash, AgentService.simpleHash, polynomial_31.
  change 0 with (to_int32 0) at 1. rewrite fold_hash_step.
  split_and!; try done.
  - lia.
  - pose proof (to_int32_range
                  (fold_left (fun acc c => 31 * acc + Z.of_N (N_of_ascii c))
                     (list_ascii_of_string str) 0)). lia.
Qed.

(** ** The counter of a window *)

Lemma dec_truthy (n : Z) : str_truthy (dec n) = true.
Proof.
  unfold dec. destruct n as [|p|p]; simpl; try done.
  by destruct (text_of_positive p) as (c & rest & -> & _).
Qed.

Lemma incrementRateLimit_first rs identifier W t m c x h :
  RedisService.off rs = false -> 0 < W ->
  Upstash.live t m (RedisService.rate_key identifier) = None ->
  RedisService.incrementRateLimit rs identifier W
    {| now := t; remote := {| kv := m; outages := [] |}; completions := c;
       executions := x; responseHeaders := h |}
  = Run [] (Ok (1, true))
      {| now := t;
         remote :=
           {| kv := <[RedisService.rate_key identifier
                      := (RInt 1, Some (t + W))]>
                      (<[RedisService.rate_key identifier := (RInt 1, None)]> m);
              outages := [] |};
         completions := c; executions := x; responseHeaders := h |}.
Proof.
  intros Hon HW Hl. unfold RedisService.incrementRateLimit. rewrite Hon.
  unfold_eff. cbn [remote outages now kv]. rewrite Hl. cbn.
  rewrite live_insert_eq. cbn.
  destruct (W <=? 0) eqn:E; [lia | done].
Qed.

Lemma incrementRateLimit_next rs identifier W t m c x h n e :
  RedisService.off rs = false -> 1 <= n ->
  Upstash.live t m (RedisService.rate_key identifier) = Some (RInt n, e) ->
  RedisService.incrementRateLimit rs identifier W
    {| now := t; remote := {| kv := m; outages := [] |}; completions := c;
       executions := x; responseHeaders := h |}
  = Run [] (Ok (n + 1, false))
      {| now := t;
         remote :=
           {| kv := <[RedisService.rate_key identifier := (RInt (n + 1), e)]> m;
              outages := [] |};
         completions := c; executions := x; responseHeaders := h |}.
Proof.
  intros Hon Hn Hl. unfold RedisService.incrementRateLimit. rewrite Hon.
  unfold_eff. cbn [remote outages now kv]. rewrite Hl. cbn.
  destruct (n + 1 =? 1) eqn:E; [lia | done].
Qed.

Lemma getRateLimitInfo_counter rs identifier t m c x h n e :
  RedisService.off rs = false ->
  Upstash.live t m (RedisService.rate_key identifier)
  = Some (RInt n, Some e) ->
  RedisService.getRateLimitInfo rs identifier
    {| now := t; remote := {| kv := m; outages := [] |}; completions := c;
       executions := x; responseHeaders := h |}
  = Run [] (Ok (Some n, e - t))
      {| now := t; remote := {| kv := m; outages := [] |}; completions := c;
         executions := x; responseHeaders := h |}.
Proof.
  intros Hon Hl. unfold RedisService.getRateLimitInfo. rewrite Hon.
  unfold_eff. cbn [remote outages now kv]. rewrite Hl.
  cbn -[parseInt dec]. rewrite Hl. cbn -[parseInt dec].
  rewrite dec_truthy, parseInt_dec by auto. done.
Qed.

Lemma getRateLimitInfo_absent rs identifier t m c x h :
  RedisService.off rs = false ->
  Upstash.live t m (RedisService.rate_key identifier) = None ->
  RedisService.getRateLimitInfo rs identifier
    {| now := t; remote := {| kv := m; outages := [] |}; completions := c;
       executions := x; responseHeaders := h |}
  = Run [] (Ok (Some 0, -2))
      {| now := t; remote := {| kv := m; outages := [] |}; completions := c;
         executions := x; responseHeaders := h |}.
Proof.
  intros Hon Hl. unfold RedisService.getRateLimitInfo. rewrite Hon.
  unfold_eff. cbn [remote outages now kv]. rewrite Hl. cbn. rewrite Hl.
  done.
Qed.

(** X7.  What [incrementRateLimit] counts, [getRateLimitInfo] reads back.
    On a connected, healthy store, for an identifier without a live counter
    and a positive window: the first increment returns [1] and marks the
    request as the first of its window; at any instant inside the window
    the information read back is the count [1] and the seconds the window
    has left; a second increment at such an instant returns [2], not first,
    and the information read after it is the count [2] with the same end of
    window; and once the window has run out the information is the count
    [0] with the time to live [-2] of a missing key. *)
Theorem counter_read_back (rs : RedisService.t) (identifier : string)
  (windowSeconds t : Z) (w : World) :
  RedisService.off rs = false -> healthy w -> 0 < windowSeconds ->
  Upstash.live (now w) (kv (remote w)) (RedisService.rate_key identifier)
  = None ->
  let first := RedisService.incrementRateLimit rs identifier windowSeconds w in
  let w1 := at_time t (world first) in
  let second :=
    RedisService.incrementRateLimit rs identifier windowSeconds w1 in
  outcome first = Ok (1, true)
  /\ (now w <= t < now w + windowSeconds ->
      RedisService.getRateLimitInfo rs identifier w1
      = Run [] (Ok (Some 1, now w + windowSeconds - t)) w1
      /\ outcome second = Ok (2, false)
      /\ RedisService.getRateLimitInfo rs identifier (world second)
         = Run [] (Ok (Some 2, now w + windowSeconds - t)) (world second))
  /\ (now w + windowSeconds <= t ->
      RedisService.getRateLimitInfo rs identifier w1
      = Run [] (Ok (Some 0, -2)) w1).
Proof.
  intros Hon Hw HW Hl.
  destruct w as [t0 [m o] c x h]. unfold healthy in Hw. simpl in Hw. subst o.
  cbn [now remote kv] in *. cbv zeta.
  rewrite (incrementRateLimit_first _ _ _ _ _ _ _ _ Hon HW Hl).
  unfold at_time. cbn [world outcome now remote completions executions
                         responseHeaders].
  split_and!; try done.
  - intros Ht.
    assert (Hl1 : Upstash.live t
                    (<[RedisService.rate_key identifier
                       := (RInt 1, Some (t0 + windowSeconds))]>
                       (<[RedisService.rate_key identifier
                          := (RInt 1, None)]> m))
                    (RedisService.rate_key identifier)
                  = Some (RInt 1, Some (t0 + windowSeconds))).
    { rewrite live_insert_eq.
      destruct (t0 + windowSeconds <=? t) eqn:E; [lia | done]. }
    rewrite (getRateLimitInfo_counter _ _ _ _ _ _ _ _ _ Hon Hl1).
    rewrite (incrementRateLimit_next _ _ _ _ _ _ _ _ _ _ Hon (Z.le_refl 1) Hl1).
    cbn [world outcome].
    split_and!; try done.
    apply getRateLimitInfo_counter; [done|].
    rewrite live_insert_eq.
    destruct (t0 + windowSeconds <=? t) eqn:E; [lia | done].
  - intros Ht. apply getRateLimitInfo_absent; [done|].
    rewrite live_insert_eq.
    destruct (t0 + windowSeconds <=? t) eqn:E; [done | lia].
Qed.

(** The first request of a window of five minutes, looked at after one
    minute. *)
Lemma counter_read_back_witness :
  let w := world_at 100 ∅ [] in
  let first := RedisService.incrementRateLimit redis_on "ip:10.0.0.7" 300 w in
  let w1 := at_time 160 (world first) in
  outcome first = Ok (1, true)
  /\ RedisService.getRateLimitInfo redis_on "ip:10.0.0.7" w1
     = Run [] (Ok (Some 1, 240)) w1.
Proof.
  intros w first w1.
  destruct (counter_read_back redis_on "ip:10.0.0.7" 300 160 w
              eq_refl eq_refl eq_refl eq_refl) as (A & B & _).
  split; [exact A|].
  apply B. vm_compute. split; [intros [=] | reflexivity].
Defined.


(* ================================================================== *)
(** * The guard: identifiers, headers, blocked clients *)
(* ================================================================== *)

Lemma before_comma_app (first rest : string) :
  Forall (fun c => c <> ","%char) (list_ascii_of_string first) ->
  RateLimitGuard.before_comma (first +:+ "," +:+ rest) = first.
Proof.
  induction first as [|c first IH]; intros Hf; [done|].
  cbn in Hf. apply Forall_cons in Hf as [Hc Hf].
  change (String c first +:+ "," +:+ rest)
    with (String c (first +:+ "," +:+ rest)).
  cbn [RateLimitGuard.before_comma].
  destruct (Ascii.eqb_spec c ","); [done|]. by rewrite IH.
Qed.

Lemma before_comma_no_comma (s : string) :
  Forall (fun c => c <> ","%char)
    (list_ascii_of_string (RateLimitGuard.before_comma s)).
Proof.
  induction s as [|c s IH]; cbn; [constructor|].
  destruct (Ascii.eqb_spec c ","); cbn; [constructor | by constructor].
Qed.

(** The guard reads nothing of a request but its identifier. *)
Lemma canActivate_identifier (g : RateLimitGuard.t)
  (r1 r2 : RateLimitGuard.Request) (w : World) :
  RateLimitGuard.getClientIdentifier r1 = RateLimitGuard.getClientIdentifier r2 ->
  RateLimitGuard.canActivate g r1 w = RateLimitGuard.canActivate g r2 w.
Proof. intros H. unfold RateLimitGuard.canActivate. by rewrite H. Qed.

(** X8.  The identifier of a client that sends an [x-forwarded-for] header
    is made from that header alone.  For a non-empty header text the
    identifier is [ip:] followed by the text before the first comma: the
    first address of a list, and the whole text when it has no comma.  Two
    requests with such headers have the same identifier exactly when their
    headers agree before the first comma, whatever their [x-real-ip] and
    socket addresses are; the guard then decides both alike, in every
    world. *)
Theorem identifier_from_forwarded_header (g : RateLimitGuard.t)
  (r1 r2 : RateLimitGuard.Request) (s1 s2 : string) (w : World) :
  RateLimitGuard.x_forwarded_for r1 = Some (RateLimitGuard.HStr s1) ->
  RateLimitGuard.x_forwarded_for r2 = Some (RateLimitGuard.HStr s2) ->
  s1 <> "" -> s2 <> "" ->
  RateLimitGuard.getClientIdentifier r1
  = "ip:" +:+ RateLimitGuard.before_comma s1
  /\ (forall first rest,
        Forall (fun c => c <> ","%char) (list_ascii_of_string first) ->
        s1 = first +:+ "," +:+ rest ->
        RateLimitGuard.getClientIdentifier r1 = "ip:" +:+ first)
  /\ (Forall (fun c => c <> ","%char) (list_ascii_of_string s1) ->
      RateLimitGuard.getClientIdentifier r1 = "ip:" +:+ s1)
  /\ (RateLimitGuard.getClientIdentifier r1
      = RateLimitGuard.getClientIdentifier r2
      <-> RateLimitGuard.before_comma s1 = RateLimitGuard.before_comma s2)
  /\ (RateLimitGuard.before_comma s1 = RateLimitGuard.before_comma s2 ->
      RateLimitGuard.canActivate g r1 w = RateLimitGuard.canActivate g r2 w).
Proof.
  intros H1 H2 Hs1 Hs2.
  assert (Hid : forall r s,
             RateLimitGuard.x_forwarded_for r = Some (RateLimitGuard.HStr s) ->
             s <> "" ->
             RateLimitGuard.getClientIdentifier r
             = "ip:" +:+ RateLimitGuard.before_comma s).
  { intros r s Hr Hs. unfold RateLimitGuard.getClientIdentifier.
    rewrite Hr. by destruct s. }
  rewrite (Hid r1 s1 H1 Hs1), (Hid r2 s2 H2 Hs2).
  split_and!.
  - done.
  - intros first rest Hf ->. by rewrite before_comma_app.
  - intros Hf. f_equal. clear -Hf.
    induction s1 as [|c s IH]; [done|].
    cbn in Hf. apply Forall_cons in Hf as [Hc Hf]. cbn.
    destruct (Ascii.eqb_spec c ","); [done|]. by rewrite IH.
  - split; [|by intros ->].
    intros Heq. by apply String.app_inj in Heq.
  - intros Heq. apply canActivate_identifier.
    by rewrite (Hid r1 s1 H1 Hs1), (Hid r2 s2 H2 Hs2), Heq.
Qed.

(** Two requests relayed for the same client through different proxies, from
    different sockets. *)
Lemma identifier_from_forwarded_header_witness :
  let r1 :=
    {| RateLimitGuard.x_forwarded_for :=
         Some (RateLimitGuard.HStr "203.0.113.9, 10.0.0.1");
       RateLimitGuard.x_real_ip := Some "10.0.0.1";
       RateLimitGuard.ip := Some "10.0.0.1";
       RateLimitGuard.remoteAddress := Some "10.0.0.1" |} in
  let r2 :=
    {| RateLimitGuard.x_forwarded_for := Some (RateLimitGuard.HStr "203.0.113.9");
       RateLimitGuard.x_real_ip := None;
       RateLimitGuard.ip := Some "10.0.0.2";
       RateLimitGuard.remoteAddress := Some "10.0.0.2" |} in
  RateLimitGuard.getClientIdentifier r1 = "ip:203.0.113.9"
  /\ RateLimitGuard.getClientIdentifier r1
     = RateLimitGuard.getClientIdentifier r2.
Proof.
  intros r1 r2.
  destruct (identifier_from_forwarded_header (guard 20 300 900) r1 r2
              "203.0.113.9, 10.0.0.1" "203.0.113.9" (world_at 0 ∅ [])
              eq_refl eq_refl)
    as (A & _ & _ & B & _); try discriminate.
  split; [exact A | by apply B].
Defined.

Section Headers.
Import RateLimitGuard.
Context (this : RateLimitGuard.t) (request : Request).

#[local] Abbreviation rk' :=
  (RedisService.rate_key (getClientIdentifier request)).
#[local] Abbreviation bk' :=
  (RedisService.block_key (getClientIdentifier request)).


(** X10.  A blocked client's requests change nothing.  With rate limiting
    enabled on a connected, healthy store, while the block of a client is
    live each of its requests is rejected with the seconds the block has
    left, and the store and the response headers stay as they were: the
    requests are not counted and do not extend the block. *)
Theorem blocked_requests_change_nothing (times : list Z) : forall (w : World)
  (v : rval) (e : Z),
  enabled this = true ->
  RedisService.off (redisService this) = false ->
  healthy w ->
  kv (remote w) !! bk' = Some (v, Some e) ->
  Forall (fun t => t < e) times ->
  fst (serve this request times w) = map (fun t => too_many (e - t)) times
  /\ remote (snd (serve this request times w)) = remote w
  /\ responseHeaders (snd (serve this request times w)) = responseHeaders w.
Proof.
  induction times as [|t times IH]; intros w v e Hen Hon Hw Hb Hts; [done|].
  apply Forall_cons in Hts as [Ht Hts].
  destruct w as [t0 [m o] c x h]. unfold healthy in Hw. simpl in Hw. subst o.
  cbn [remote kv] in Hb.
  assert (Hlive : Upstash.live t m bk' = Some (v, Some e)).
  { unfold Upstash.live. rewrite Hb. destruct (e <=? t) eqn:E; [lia | done]. }
  cbn [serve]. unfold at_time.
  cbn [now remote completions executions responseHeaders].
  rewrite (canActivate_blocked this request Hen Hon t m c x h v e Hlive).
  cbn [world outcome].
  specialize (IH {| now := t; remote := {| kv := m; outages := [] |};
                    completions := c; executions := x; responseHeaders := h |}
                v e Hen Hon eq_refl Hb Hts).
  destruct (serve this request times _) as [outs w'].
  cbn [fst snd] in *. destruct IH as (-> & -> & ->). done.
Qed.

End Headers.


(** A client blocked until second 900 asks three times. *)
Lemma blocked_requests_change_nothing_witness :
  let g := guard 5 300 900 in
  let request := request_from "10.0.0.7" in
  let w :=
    world_at 0 {[ RedisService.block_key "ip:10.0.0.7" := (RStr "1", Some 900) ]}
      [] in
  fst (serve g request [10; 20; 30] w)
  = [too_many 890; too_many 880; too_many 870]
  /\ remote (snd (serve g request [10; 20; 30] w)) = remote w.
Proof.
  intros g request w.
  destruct (blocked_requests_change_nothing g request [10; 20; 30] w
              (RStr "1") 900 eq_refl eq_refl eq_refl eq_refl) as (A & B & _).
  { repeat constructor. }
  split; [exact A | exact B].
Defined.


(* ================================================================== *)
(** * The agent service: requests *)
(* ================================================================== *)

Lemma returns_get_world : returns get_world.
Proof. intros w. by exists w. Qed.

Lemma returns_command_caught {A} f (a : A) :
  returns (try_catch (Upstash.command f) (fun _ => ret a)).
Proof. apply returns_try_catch. intros e. apply returns_ret. Qed.

Section Requests.
Context (JSON_parse : string -> option jsval)
        (replacePlaceholders : string -> option (list Memory.t) -> string)
        (generateSessionId : World -> string).
Context (this : AgentService.t).

Lemma session_of_run request w :
  AgentService.session_of generateSessionId request w
  = Run []
      (Ok (if opt_truthy (AgentRequest.sessionId request)
           then default "" (AgentRequest.sessionId request)
           else generateSessionId w))
      w.
Proof.
  unfold AgentService.session_of.
  by destruct (opt_truthy (AgentRequest.sessionId request)).
Qed.

Lemma returns_session_of request :
  returns (AgentService.session_of generateSessionId request).
Proof. intros w. rewrite session_of_run. by eexists. Qed.

Lemma returns_getCachedResponse rs key :
  returns (RedisService.getCachedResponse JSON_parse rs key).
Proof.
  unfold RedisService.getCachedResponse.
  destruct (RedisService.off rs); [apply returns_ret|].
  unfold RedisService.read_cached. apply returns_try_catch.
  intros e. apply returns_ret.
Qed.

(** X11.  [processRequest] always answers: whatever the service, the
    request, the client, the tools and the store do, the promise it returns
    is fulfilled with a reply, never rejected. *)
Theorem processRequest_always_answers (request : AgentRequest.t) (w : World) :
  exists reply,
    outcome (AgentService.processRequest JSON_parse replacePlaceholders
               generateSessionId this request w) = Ok reply.
Proof.
  revert w. change (returns (AgentService.processRequest JSON_parse
                               replacePlaceholders generateSessionId this
                               request)).
  unfold AgentService.processRequest.
  destruct (AgentService.openai this) as [client|].
  - apply returns_bind; [apply returns_session_of|]. intros sessionId.
    apply returns_bind.
    { destruct (AgentService.cacheEnabled this);
        [apply returns_getCachedResponse | apply returns_ret]. }
    intros cachedResponse.
    destruct (AgentService.cacheEnabled this && truthy cachedResponse);
      [apply returns_ret|].
    apply returns_try_catch. intros e.
    apply returns_bind; [apply returns_session_of|]. intros.
    apply returns_ret.
  - apply returns_bind; [apply returns_session_of|]. intros.
    apply returns_ret.
Qed.

(** X12.  The reply to a request that fails.  With a client configured and
    the response cache off: when a message of the history cannot be
    converted, or when the first completion request is rejected, the reply
    carries the text chosen from the error, [completed = false] and no tool
    calls; its history is the array the request carried, with the user
    message that was pushed onto it, and the empty array when the request
    carried none; its session is the one of the request, or a fresh one; a
    rejected conversion requests no completion, a rejected completion is
    the only one requested. *)
Theorem failed_request_reply (client : OpenAI.t) (request : AgentRequest.t)
  (w : World) :
  AgentService.openai this = Some client ->
  AgentService.cacheEnabled this = false ->
  let failure e w' :=
    AgentService.Fresh
      {| AgentResponse.message := AgentService.error_text e;
         AgentResponse.conversationHistory :=
           match AgentRequest.conversationHistory request with
           | Some h => h ++ [AgentService.user_message
                               (AgentRequest.message request)]
           | None => []
           end;
         AgentResponse.sessionId :=
           if opt_truthy (AgentRequest.sessionId request)
           then default "" (AgentRequest.sessionId request)
           else generateSessionId w';
         AgentResponse.toolCalls := None;
         AgentResponse.completed := false |} in
  let history :=
    default [] (AgentRequest.conversationHistory request)
    ++ [AgentService.user_message (AgentRequest.message request)] in
  (forall e,
     AgentService.convertConversationToOpenAI history = Throw e ->
     AgentService.processRequest JSON_parse replacePlaceholders
       generateSessionId this request w
     = Run [] (Ok (failure e w)) w)
  /\ (forall converted e,
        AgentService.convertConversationToOpenAI history = Ok converted ->
        OpenAI.create client (completions w)
          (AgentService.system_message
             (replacePlaceholders (AgentService.systemPrompt this)
                (AgentRequest.memories request)) :: converted)
        = Throw e ->
        AgentService.processRequest JSON_parse replacePlaceholders
          generateSessionId this request w
        = Run [] (Ok (failure e (after_completion w))) (after_completion w)).
Proof.
  intros Hclient Hoff failure history.
  unfold AgentService.processRequest. rewrite Hclient, Hoff.
  cbn [andb]. split.
  - intros e He. rewrite bind_run, session_of_run, bind_run. cbn [ret].
    rewrite try_catch_run, bind_run.
    unfold AgentService.pushed_history. fold history. rewrite He.
    cbn [lift_result throw]. rewrite bind_run, session_of_run. reflexivity.
  - intros converted e Hc He. rewrite bind_run, session_of_run, bind_run.
    cbn [ret]. rewrite try_catch_run, bind_run.
    unfold AgentService.pushed_history. fold history. rewrite Hc.
    cbn [lift_result ret]. rewrite bind_run.
    unfold AgentService.processConversationWithTools. rewrite Hclient.
    change (Z.to_nat 5) with 5%nat. cbn [AgentService.conversation_loop].
    rewrite bind_run, request_completion_run, He.
    rewrite bind_run, session_of_run. reflexivity.
Qed.

(** X13.  A cached response short-circuits the request.  With a client
    configured, the response cache on and the store connected and healthy:
    when the key of the request holds a text that is not a sentinel and
    that [JSON.parse] turns into a truthy value, the reply is that value
    spread into an object with its [sessionId] replaced by the session of
    the request; no completion is requested, no tool runs, and the world
    is left as it was. *)
Theorem cached_response_short_circuits (client : OpenAI.t)
  (request : AgentRequest.t) (s : string) (e : option Z) (v : jsval)
  (w : World) :
  AgentService.openai this = Some client ->
  AgentService.cacheEnabled this = true ->
  RedisService.off (AgentService.redisService this) = false ->
  healthy w ->
  Upstash.live (now w) (kv (remote w)) (AgentService.generateCacheKey request)
  = Some (RStr s, e) ->
  s <> "" -> sentinel s = false ->
  JSON_parse s = Some v -> truthy v = true ->
  AgentService.processRequest JSON_parse replacePlaceholders generateSessionId
    this request w
  = Run []
      (Ok (AgentService.FromCache
             (assoc_set "sessionId"
                (VStr (if opt_truthy (AgentRequest.sessionId request)
                       then default "" (AgentRequest.sessionId request)
                       else generateSessionId w))
                (AgentService.spread_val v))))
      w.
Proof.
  intros Hclient Hen Hon Hw Hl Hs Hn Hp Hv.
  destruct w as [t [m o] c x h]. unfold healthy in Hw. simpl in Hw. subst o.
  cbn [now remote kv] in Hl.
  unfold AgentService.processRequest. rewrite Hclient, Hen.
  rewrite bind_run, session_of_run, bind_run.
  unfold RedisService.getCachedResponse. rewrite Hon.
  rewrite (read_cached_hit JSON_parse _ t m c x h s e v Hl); try done.
  - rewrite Hv. reflexivity.
  - by destruct s.
Qed.

End Requests.

(** A request whose completion is rejected because the provider is
    overloaded. *)
Lemma failed_request_reply_witness :
  let e := APIError (Some "overloaded_error") (Some 529) "Overloaded" in
  let this := agent (Some (failing e)) ∅ in
  let w := world_at 0 ∅ [] in
  AgentService.processRequest Samples.JSON_parse Samples.replacePlaceholders
    Samples.generateSessionId this (ask "Convert 100 USD to EUR") w
  = Run []
      (Ok (AgentService.Fresh
             {| AgentResponse.message :=
                  "The service is currently overloaded. Please try again in a few moments.";
                AgentResponse.conversationHistory := [];
                AgentResponse.sessionId := "s1";
                AgentResponse.toolCalls := None;
                AgentResponse.completed := false |}))
      (after_completion w).
Proof.
  intros e this w.
  destruct (failed_request_reply Samples.JSON_parse Samples.replacePlaceholders
              Samples.generateSessionId this (failing e)
              (ask "Convert 100 USD to EUR") w eq_refl eq_refl) as [_ A].
  exact (A _ e eq_refl eq_refl).
Defined.

(** A request answered from the cache, with a client that would fail. *)
Lemma cached_response_short_circuits_witness :
  let this := caching_agent (Some (failing (GenericError "unreachable"))) in
  let request := ask "Convert 100 USD to EUR" in
  let s := String "{" (String dquote
             ("message" +:+ String dquote
                (":" +:+ String dquote ("92 EUR" +:+ String dquote "}")))) in
  let w :=
    world_at 0 {[ AgentService.generateCacheKey request := (RStr s, Some 300) ]}
      [] in
  AgentService.processRequest Samples.JSON_parse Samples.replacePlaceholders
    Samples.generateSessionId this request w
  = Run []
      (Ok (AgentService.FromCache
             [("message", VStr "92 EUR"); ("sessionId", VStr "s1")]))
      w.
Proof.
  intros this request s w.
  assert (Hl : Upstash.live (now w) (kv (remote w))
                 (AgentService.generateCacheKey request)
               = Some (RStr s, Some 300)) by (vm_compute; reflexivity).
  assert (Hp : Samples.JSON_parse s = Some (VObj [("message", VStr "92 EUR")]))
    by (vm_compute; reflexivity).
  exact (cached_response_short_circuits Samples.JSON_parse
           Samples.replacePlaceholders Samples.generateSessionId this
           (failing (GenericError "unreachable")) request s (Some 300)
           (VObj [("message", VStr "92 EUR")]) w eq_refl eq_refl eq_refl
           eq_refl Hl ltac:(discriminate) eq_refl Hp eq_refl).
Defined.


(* ================================================================== *)
(** * The agent service: conversion of the history *)
(* ================================================================== *)

Section ConversionClosed.
Import AgentService.

Lemma convert_cons m h :
  convertConversationToOpenAI (m :: h)
  = if keep (preprocess m) then
      match to_openai (preprocess m) with
      | Ok y =>
          match convertConversationToOpenAI h with
          | Ok ys => Ok (y :: ys)
          | Throw e => Throw e
          end
      | Throw e => Throw e
      end
    else convertConversationToOpenAI h.
Proof.
  unfold convertConversationToOpenAI. cbn [map List.filter].
  by destruct (keep (preprocess m)).
Qed.

(** What a kept message becomes is a message of the completion API that the
    conversion leaves as it is. *)
Lemma to_openai_fixed m y :
  keep (preprocess m) = true -> to_openai (preprocess m) = Ok y ->
  api_role (Message.role y) = true
  /\ preprocess y = y /\ keep y = true /\ to_openai y = Ok y.
Proof.
  unfold preprocess, keep, to_openai, api_role.
  destruct m as [role content calls call_id]. cbn [Message.role].
  destruct (String.eqb_spec role "data") as [->|Hd]; cbn.
  - intros Hk [= <-].
    destruct (opt_truthy content) eqn:E; cbn in *; rewrite ?E; cbn;
      rewrite ?Hk; done.
  - destruct (String.eqb_spec role "user") as [->|Hu]; cbn.
    { intros Hk [= <-]. cbn. by rewrite Hk. }
    destruct (String.eqb_spec role "assistant") as [->|Ha]; cbn.
    { intros Hk [= <-].
      destruct (opt_truthy content) eqn:E; cbn in *; rewrite ?E; cbn;
        rewrite ?Hk; done. }
    destruct (String.eqb_spec role "tool") as [->|Ht]; cbn.
    { intros Hk [= <-]. cbn. by rewrite Hk. }
    destruct (String.eqb_spec role "system") as [->|Hs]; cbn; [|done].
    intros _ [= <-]. done.
Qed.

(** A message is refused exactly when its role is not one the conversion
    takes; the filter never drops such a message. *)
Lemma to_openai_throws m :
  (exists e, to_openai (preprocess m) = Throw e)
  <-> convertible_role (Message.role m) = false.
Proof.
  unfold preprocess, to_openai, convertible_role, api_role.
  destruct m as [role content calls call_id]. cbn [Message.role].
  destruct (String.eqb_spec role "data") as [->|Hd]; cbn.
  { split; [by intros [? ?] | done]. }
  destruct (String.eqb_spec role "user"); cbn;
    [split; [by intros [? ?] | done]|].
  destruct (String.eqb_spec role "assistant"); cbn;
    [split; [by intros [? ?] | done]|].
  destruct (String.eqb_spec role "tool"); cbn;
    [split; [by intros [? ?] | done]|].
  destruct (String.eqb_spec role "system"); cbn;
    [split; [by intros [? ?] | done]|].
  split; [done | by eexists].
Qed.

Lemma keep_unconvertible m :
  convertible_role (Message.role m) = false -> keep (preprocess m) = true.
Proof.
  unfold preprocess, keep, convertible_role, api_role.
  destruct m as [role content calls call_id]. cbn [Message.role].
  destruct (String.eqb_spec role "data"); cbn;
    [by rewrite orb_true_r|].
  destruct (String.eqb_spec role "user"); cbn; [done|].
  destruct (String.eqb_spec role "assistant"); cbn; [done|].
  destruct (String.eqb_spec role "tool"); cbn; [done|]. done.
Qed.

(** X14.  The conversion of a history is closed and total on the roles it
    knows.  A converted history holds only messages with the roles [user],
    [assistant], [tool] and [system], is no longer than the history, and is
    left as it is by a second conversion; and the conversion throws exactly
    when some message of the history has a role other than those four and
    [data], wherever it stands and whatever its content. *)
Theorem conversion_closed (history : list Message.t) :
  (forall converted,
     convertConversationToOpenAI history = Ok converted ->
     Forall (fun m => api_role (Message.role m) = true) converted
     /\ (length converted <= length history)%nat
     /\ convertConversationToOpenAI converted = Ok converted)
  /\ ((exists e, convertConversationToOpenAI history = Throw e)
      <-> Exists (fun m => convertible_role (Message.role m) = false) history).
Proof.
  induction history as [|m h [IH1 IH2]].
  - split.
    + intros converted [= <-]. by split_and!.
    + split; [by intros [? ?] | by intros ?%Exists_nil].
  - rewrite convert_cons. split.
    + intros converted Hc.
      destruct (keep (preprocess m)) eqn:Hk.
      * destruct (to_openai (preprocess m)) as [y|] eqn:Hy; [|done].
        destruct (convertConversationToOpenAI h) as [ys|] eqn:Hys; [|done].
        injection Hc as <-.
        destruct (IH1 ys eq_refl) as (F & L & C).
        destruct (to_openai_fixed m y Hk Hy) as (R & P & K & T).
        split_and!.
        -- by constructor.
        -- cbn. lia.
        -- rewrite convert_cons, P, K, T, C. done.
      * destruct (IH1 converted Hc) as (F & L & C).
        split_and!; try done. cbn. lia.
    + rewrite Exists_cons, <- IH2, <- to_openai_throws.
      split.
      * intros [e He].
        destruct (keep (preprocess m)) eqn:Hk; [|right; by eexists].
        destruct (to_openai (preprocess m)) as [y|e'] eqn:Hy;
          [|left; by eexists].
        destruct (convertConversationToOpenAI h) as [ys|e'] eqn:Hys; [done|].
        right. by eexists.
      * intros [[e He] | [e He]].
        -- rewrite keep_unconvertible, He; [by eexists|].
           apply to_openai_throws. by eexists.
        -- destruct (keep (preprocess m)) eqn:Hk; [|by eexists].
           destruct (to_openai (preprocess m)) as [y|e'] eqn:Hy;
             [|by eexists].
           rewrite He. by eexists.
Qed.

End ConversionClosed.


(* ================================================================== *)
(** * The agent service: tool calls *)
(* ================================================================== *)

Lemma assoc_assoc_set_ne {A} (k k' : string) (v : A) fs :
  k <> k' -> assoc k (assoc_set k' v fs) = assoc k fs.
Proof.
  intros Hne. induction fs as [|[k0 v0] fs IH]; cbn.
  - destruct (String.eqb_spec k k'); done.
  - destruct (String.eqb_spec k' k0) as [->|Hk0]; cbn.
    + destruct (String.eqb_spec k k0); done.
    + destruct (String.eqb_spec k k0); done.
Qed.

Section ToolCalls.
Context (JSON_parse : string -> option jsval).
Context (this : AgentService.t).

(** X15.  Arguments that are not JSON are recorded as an error and the tool
    is not run.  For a call to a registered tool whose arguments text
    [JSON.parse] rejects, on the buffered path and on the streaming path:
    the result recorded under the id of the call is the error object
    [{error, toolName, toolCallId}] of the parse error, nothing is thrown,
    and the world is left as it was, so that neither the tool nor the cache
    has been used; the streaming path announces the start of the call and
    its failure. *)
Theorem unparseable_arguments_recorded (userIp : option string)
  (toolCall : ToolCall.t) (tool : Tool.t) (results : list (string * jsval))
  (w : World) :
  AgentService.toolRegistry this !! ToolCall.name toolCall = Some tool ->
  JSON_parse (ToolCall.arguments toolCall) = None ->
  exists e,
    let recorded :=
      AgentService.execution_error (ToolCall.name toolCall)
        (ToolCall.id toolCall) e in
    AgentService.executeToolCall JSON_parse this userIp toolCall results w
    = Run [] (Ok (assoc_set (ToolCall.id toolCall) recorded results)) w
    /\ AgentService.streamToolCall JSON_parse this userIp (Some toolCall)
         results w
       = Run [tool_start (ToolCall.name toolCall)
                (Some (Tool.description tool));
              AgentService.tool_complete (ToolCall.name toolCall)
                ("Error executing " +:+ ToolCall.name toolCall +:+ ": "
                 +:+ error_message e)
                (ToolCall.id toolCall) recorded]
           (Ok (assoc_set (ToolCall.id toolCall) recorded results)) w
    /\ get_prop recorded "toolName" = VStr (ToolCall.name toolCall)
    /\ get_prop recorded "toolCallId" = VStr (ToolCall.id toolCall)
    /\ AgentService.cacheable recorded = false.
Proof.
  intros Hreg Hparse. eexists. cbv zeta.
  unfold AgentService.executeToolCall, AgentService.streamToolCall.
  rewrite Hreg. unfold AgentService.parse_json. rewrite Hparse.
  split_and!; reflexivity.
Qed.

(** X16.  With the tool cache off a call always runs the tool and never
    touches the store.  For a call to a registered tool whose arguments
    parse, in every world: the tool is run once, on the arguments with the
    user address added; what it returns is recorded under the id of the
    call, and what it throws is recorded as the error object of the call;
    nothing is thrown; and the store is left as it was. *)
Theorem uncached_tool_call (userIp : option string) (toolCall : ToolCall.t)
  (tool : Tool.t) (toolArgs : jsval) (results : list (string * jsval))
  (w : World) :
  AgentService.toolCacheEnabled this = false ->
  AgentService.toolRegistry this !! ToolCall.name toolCall = Some tool ->
  JSON_parse (ToolCall.arguments toolCall) = Some toolArgs ->
  let recorded :=
    match Tool.execute tool (length (executions w))
            (tool_input toolArgs userIp) with
    | Ok r => r
    | Throw e =>
        AgentService.execution_error (ToolCall.name toolCall)
          (ToolCall.id toolCall) e
    end in
  let run := AgentService.executeToolCall JSON_parse this userIp toolCall
               results w in
  let stream := AgentService.streamToolCall JSON_parse this userIp
                  (Some toolCall) results w in
  run = Run [] (Ok (assoc_set (ToolCall.id toolCall) recorded results))
          (after_execution (ToolCall.name toolCall)
             (tool_input toolArgs userIp) w)
  /\ outcome stream = outcome run /\ world stream = world run
  /\ remote (world run) = remote w.
Proof.
  intros Hoff Hreg Hparse recorded run stream. subst run stream recorded.
  unfold AgentService.executeToolCall, AgentService.streamToolCall.
  rewrite Hreg. unfold AgentService.parse_json. rewrite Hparse.
  unfold AgentService.lookup_tool_cache, AgentService.store_tool_cache.
  rewrite Hoff. cbn [andb].
  repeat (progress (rewrite ?try_catch_run, ?bind_run, ?run_tool_run;
                    cbn [ret yield truthy])).
  destruct (Tool.execute tool (length (executions w))
              (tool_input toolArgs userIp)) as [r|e]; cbn; done.
Qed.

(** Every way out of a call records a value under its id. *)
Lemma executeToolCall_records userIp toolCall results w :
  exists v,
    outcome (AgentService.executeToolCall JSON_parse this userIp toolCall
               results w)
    = Ok (assoc_set (ToolCall.id toolCall) v results).
Proof.
  unfold AgentService.executeToolCall.
  destruct (AgentService.toolRegistry this !! ToolCall.name toolCall)
    as [tool|]; [|by eexists].
  rewrite try_catch_run, bind_run.
  destruct (AgentService.parse_json JSON_parse _ w) as [ev [toolArgs|e] w1];
    [|by eexists].
  rewrite bind_run.
  destruct (AgentService.lookup_tool_cache JSON_parse this _ toolArgs w1)
    as [ev1 [cached|e] w2]; [|by eexists].
  destruct (truthy cached); [by eexists|].
  rewrite bind_run.
  destruct (AgentService.run_tool tool _ toolArgs userIp w2)
    as [ev2 [toolResult|e] w3]; [|by eexists].
  rewrite bind_run.
  destruct (AgentService.store_tool_cache this _ toolArgs toolResult w3)
    as [ev3 [[]|e] w4]; by eexists.
Qed.

Lemma executeToolCalls_domain userIp toolCalls : forall results w,
  exists results',
    outcome (for_each (AgentService.executeToolCall JSON_parse this userIp)
               toolCalls results w) = Ok results'
    /\ forall k, is_Some (assoc k results')
                 <-> is_Some (assoc k results)
                     \/ k ∈ map ToolCall.id toolCalls.
Proof.
  induction toolCalls as [|c cs IH]; intros results w.
  - exists results. split; [done|]. intros k. cbn. split; [auto|].
    by intros [? | ?%elem_of_nil].
  - cbn [for_each]. rewrite bind_run.
    destruct (executeToolCall_records userIp c results w) as [v Hv].
    destruct (AgentService.executeToolCall JSON_parse this userIp c results w)
      as [ev o w1]. cbn in Hv. subst o.
    destruct (IH (assoc_set (ToolCall.id c) v results) w1)
      as (results' & Hout & Hdom).
    destruct (for_each _ cs _ w1) as [ev' o' w2]. cbn in Hout. subst o'.
    exists results'. split; [done|]. intros k. rewrite Hdom. cbn [map].
    rewrite elem_of_cons.
    destruct (String.eqb_spec k (ToolCall.id c)) as [->|Hne].
    + rewrite assoc_assoc_set. split; [auto|]. intros _. left. by eexists.
    + rewrite assoc_assoc_set_ne by done. tauto.
Qed.

(** X17.  Every call of a turn gets a result.  Whatever the calls, the
    tools, the client address and the world, [executeToolCalls] returns
    without throwing; and when no call has the id [__proto__], the name
    under which an assignment to a plain object sets the prototype instead
    of a property, the object it returns has a result under an id exactly
    when the id is that of one of the calls. *)
Theorem every_call_gets_a_result (toolCalls : list ToolCall.t)
  (userIp : option string) (w : World) :
  exists results,
    outcome (AgentService.executeToolCalls JSON_parse this toolCalls userIp w)
    = Ok results
    /\ (Forall (fun c => ToolCall.id c <> "__proto__") toolCalls ->
        forall call_id,
          is_Some (assoc call_id results)
          <-> call_id ∈ map ToolCall.id toolCalls).
Proof.
  unfold AgentService.executeToolCalls.
  destruct (executeToolCalls_domain userIp toolCalls [] w)
    as (results & Hout & Hdom).
  exists results. split; [done|]. intros _ k. rewrite Hdom. cbn.
  split; [|auto]. intros [[? [=]] | ?]; done.
Qed.

End ToolCalls.

(** A call whose arguments were cut short. *)
Lemma unparseable_arguments_recorded_witness :
  let this := agent None ∅ in
  let toolCall := call "call_1" "convert_currency" "{" in
  let w := world_at 0 ∅ [] in
  exists e,
    AgentService.executeToolCall Samples.JSON_parse this None toolCall [] w
    = Run []
        (Ok [("call_1",
              AgentService.execution_error "convert_currency" "call_1" e)])
        w.
Proof.
  intros this toolCall w.
  destruct (unparseable_arguments_recorded Samples.JSON_parse this None
              toolCall convert_currency [] w eq_refl eq_refl) as (e & A & _).
  exists e. exact A.
Defined.

(** A conversion asked of a service whose tool cache is off. *)
Lemma uncached_tool_call_witness :
  let this := caching_agent None in
  let toolCall := call "call_1" "convert_currency" "{}" in
  let w := world_at 0 ∅ [true] in
  let run := AgentService.executeToolCall Samples.JSON_parse this None
               toolCall [] w in
  outcome run
  = Ok [("call_1", VObj [("convertedAmount", VNum 92); ("quote", VNum 0)])]
  /\ remote (world run) = remote w.
Proof.
  intros this toolCall w run.
  destruct (uncached_tool_call Samples.JSON_parse this None toolCall
              convert_currency (VObj []) [] w eq_refl eq_refl eq_refl)
    as (A & _ & _ & B).
  split; [|exact B]. subst run. by rewrite A.
Defined.

(** Two calls of a turn, the first to a tool that the registry lacks: both
    ids, and no other, have a result. *)
Lemma every_call_gets_a_result_witness :
  let toolCalls :=
    [call "call_1" "get_weather" "{}"; call "call_2" "convert_currency" "{}"] in
  exists results,
    outcome (AgentService.executeToolCalls Samples.JSON_parse (agent None ∅)
               toolCalls None (world_at 0 ∅ [])) = Ok results
    /\ forall call_id,
         is_Some (assoc call_id results)
         <-> call_id ∈ ["call_1"; "call_2"].
Proof.
  intros toolCalls.
  destruct (every_call_gets_a_result Samples.JSON_parse (agent None ∅)
              toolCalls None (world_at 0 ∅ [])) as (results & A & B).
  exists results. split; [exact A|]. apply B.
  repeat constructor; discriminate.
Defined.


(* ================================================================== *)
(** * The agent service: the streaming path *)
(* ================================================================== *)

Section Streaming.
Context (JSON_parse : string -> option jsval) (durationText : string).
Context (this : AgentService.t).

Lemma or_else_empty (s : string) : or_else (Some s) "" = s.
Proof. by destruct s. Qed.

(** The fragments that follow the first delta of a call are appended to
    its arguments, in order; what else they carry is not read. *)
Lemma fragments_appended (fragments : list OpenAI.ToolCallDelta) :
  forall (calls : list (option ToolCall.t)) (c : ToolCall.t),
  Forall (fun d => OpenAI.index d = Some (length calls)) fragments ->
  fold_left AgentService.on_tool_call_delta fragments (calls ++ [Some c])
  = calls
    ++ [Some {| ToolCall.id := ToolCall.id c; ToolCall.name := ToolCall.name c;
                ToolCall.arguments :=
                  ToolCall.arguments c
                  +:+ foldr (fun d rest =>
                               default "" (OpenAI.fn_arguments d) +:+ rest)
                        "" fragments |}].
Proof.
  induction fragments as [|d ds IH]; intros calls c Hf.
  - cbn. destruct c. cbn. by rewrite string_app_nil_r.
  - apply Forall_cons in Hf as [Hd Hf]. cbn [fold_left foldr].
    unfold AgentService.on_tool_call_delta at 2. rewrite Hd.
    rewrite lookup_app_r by lia. rewrite Nat.sub_diag. cbn [lookup mjoin].
    cbn.
    destruct (OpenAI.fn_arguments d) as [a|] eqn:Ha; cbn.
    + destruct a as [|a0 a']; cbn.
      * by rewrite IH.
      * rewrite insert_app_r_alt by lia. rewrite Nat.sub_diag. cbn.
        rewrite IH by done. cbn. by rewrite string_app_assoc.
    + by rewrite IH.
Qed.

(** X18.  A streamed tool call is put together from its fragments.  When
    the deltas of a turn open a call at the next free index, with an id, a
    name and a first piece of arguments, and go on with fragments for that
    index, the array of calls gains one entry: the call with that id and
    that name, whose arguments are the pieces put end to end in the order
    they came; the ids and names that the later fragments carry are not
    read, and the entries before are unchanged. *)
Theorem streamed_call_assembled (calls : list (option ToolCall.t))
  (first : OpenAI.ToolCallDelta) (fragments : list OpenAI.ToolCallDelta)
  (call_id name arguments : string) :
  OpenAI.index first = Some (length calls) ->
  OpenAI.id first = Some call_id ->
  OpenAI.fn_name first = Some name ->
  OpenAI.fn_arguments first = Some arguments ->
  Forall (fun d => OpenAI.index d = Some (length calls)) fragments ->
  fold_left AgentService.on_tool_call_delta (first :: fragments) calls
  = calls
    ++ [Some {| ToolCall.id := call_id; ToolCall.name := name;
                ToolCall.arguments :=
                  arguments
                  +:+ foldr (fun d rest =>
                               default "" (OpenAI.fn_arguments d) +:+ rest)
                        "" fragments |}].
Proof.
  intros Hi Hid Hn Ha Hf. cbn [fold_left].
  unfold AgentService.on_tool_call_delta at 2. rewrite Hi.
  rewrite lookup_ge_None_2 by lia. cbn [mjoin].
  unfold AgentService.array_set.
  destruct (decide (length calls < length calls)%nat) as [?|_]; [lia|].
  rewrite Nat.sub_diag. cbn [replicate app].
  rewrite Hid, Hn, Ha, !or_else_empty. cbn [option_join mjoin].
  change (mjoin (@None (option ToolCall.t))) with (@None ToolCall.t).
  cbv beta iota.
  by rewrite (fragments_appended fragments calls).
Qed.

(** X19.  A ceiling that is not a positive number ends the streamed
    conversation before it starts.  With a client configured, when
    [MAX_ITERATIONS] is a text that [parseInt] does not read as a number,
    or reads as zero or less, the streaming operation requests no
    completion and runs no tool: it emits the closing content event with
    the fixed message about the maximum of tool calls, and returns.  When
    [MAX_ITERATIONS] is the decimal text of a number, that number is the
    ceiling. *)
Theorem stream_without_turns (client : OpenAI.t) (messages : list Message.t)
  (userIp : option string) (w : World) :
  AgentService.openai this = Some client ->
  (AgentService.maxIterations_stream this = None
   \/ (exists n, AgentService.maxIterations_stream this = Some n /\ n <= 0) ->
   AgentService.processConversationWithToolsStream JSON_parse durationText
     this messages userIp w
   = Run [AgentService.final_content AgentService.MAX_TOOL_CALLS] (Ok tt) w)
  /\ (forall n,
        AgentService.configService this !! "MAX_ITERATIONS" = Some (dec n) ->
        AgentService.maxIterations_stream this = Some n
        /\ AgentService.turns_allowed (AgentService.maxIterations_stream this)
           = Z.to_nat n).
Proof.
  intros Hclient. split.
  - intros Hm. unfold AgentService.processConversationWithToolsStream.
    rewrite Hclient.
    assert (AgentService.turns_allowed (AgentService.maxIterations_stream this)
            = O) as ->; [|done].
    destruct Hm as [-> | (n & -> & Hn)]; cbn; [done | lia].
  - intros n Hn. unfold AgentService.maxIterations_stream,
      AgentService.config_get. rewrite Hn.
    change (default "5" (Some (dec n))) with (dec n).
    rewrite parseInt_dec by auto. done.
Qed.

End Streaming.

(** A call streamed in three pieces. *)
Lemma streamed_call_assembled_witness :
  fold_left AgentService.on_tool_call_delta
    [{| OpenAI.index := Some O; OpenAI.id := Some "call_1";
        OpenAI.fn_name := Some "convert_currency";
        OpenAI.fn_arguments := Some "{" |};
     {| OpenAI.index := Some O; OpenAI.id := None; OpenAI.fn_name := None;
        OpenAI.fn_arguments := Some " " |};
     {| OpenAI.index := Some O; OpenAI.id := Some "ignored";
        OpenAI.fn_name := None; OpenAI.fn_arguments := Some "}" |}]
    []
  = [Some (call "call_1" "convert_currency" "{ }")].
Proof.
  exact (streamed_call_assembled []
           {| OpenAI.index := Some O; OpenAI.id := Some "call_1";
              OpenAI.fn_name := Some "convert_currency";
              OpenAI.fn_arguments := Some "{" |}
           [{| OpenAI.index := Some O; OpenAI.id := None;
               OpenAI.fn_name := None; OpenAI.fn_arguments := Some " " |};
            {| OpenAI.index := Some O; OpenAI.id := Some "ignored";
               OpenAI.fn_name := None; OpenAI.fn_arguments := Some "}" |}]
           "call_1" "convert_currency" "{" eq_refl eq_refl eq_refl eq_refl
           ltac:(repeat constructor)).
Defined.

(** A service whose ceiling was mistyped. *)
Lemma stream_without_turns_witness :
  let client := insistent None (call "call_1" "convert_currency" "{}") in
  let this := agent (Some client) {[ "MAX_ITERATIONS" := "five" ]} in
  let w := world_at 0 ∅ [] in
  AgentService.processConversationWithToolsStream Samples.JSON_parse
    "a few seconds" this [AgentService.user_message "Convert 100 USD to EUR"]
    None w
  = Run [AgentService.final_content AgentService.MAX_TOOL_CALLS] (Ok tt) w.
Proof.
  intros client this w.
  destruct (stream_without_turns Samples.JSON_parse "a few seconds" this
              client [AgentService.user_message "Convert 100 USD to EUR"]
              None w eq_refl) as [A _].
  apply A. left. reflexivity.
Defined.


(* ================================================================== *)
(** * The tool registry *)
(* ================================================================== *)

Section Registry.
Import ToolRegistry.

Lemma assoc_set_keys {A} (k : string) (v : A) fs :
  map fst (assoc_set k v fs)
  = if bool_decide (k ∈ map fst fs) then map fst fs else map fst fs ++ [k].
Proof.
  induction fs as [|[k0 v0] fs IH]; cbn; [done|].
  destruct (String.eqb_spec k k0) as [->|Hne]; cbn.
  - rewrite bool_decide_eq_true_2; [done | by left].
  - rewrite IH. destruct (bool_decide (k ∈ map fst fs)) eqn:E.
    + rewrite bool_decide_eq_true_2; [done|].
      right. by apply bool_decide_eq_true in E.
    + rewrite bool_decide_eq_false_2; [done|].
      apply bool_decide_eq_false in E. intros [?|?]%elem_of_cons; done.
Qed.

Lemma assoc_set_NoDup {A} (k : string) (v : A) fs :
  NoDup (map fst fs) -> NoDup (map fst (assoc_set k v fs)).
Proof.
  intros Hnd. rewrite assoc_set_keys.
  destruct (bool_decide (k ∈ map fst fs)) eqn:E; [done|].
  apply bool_decide_eq_false in E.
  apply NoDup_app. split_and!; [done | | apply NoDup_singleton].
  intros x Hx ->%list_elem_of_singleton. done.
Qed.

Lemma assoc_set_values {A} (k : string) (v : A) fs x :
  x ∈ map snd (assoc_set k v fs) -> x = v \/ x ∈ map snd fs.
Proof.
  induction fs as [|[k0 v0] fs IH]; cbn.
  - intros ->%list_elem_of_singleton. by left.
  - destruct (String.eqb_spec k k0); cbn; rewrite !elem_of_cons.
    + intros [-> | ?]; auto.
    + intros [-> | ?]; [auto|]. destruct IH as [-> | ?]; auto.
Qed.

Lemma assoc_set_fresh {A} (k : string) (v : A) fs :
  k ∉ map fst fs -> assoc_set k v fs = fs ++ [(k, v)].
Proof.
  induction fs as [|[k0 v0] fs IH]; cbn; [done|].
  rewrite not_elem_of_cons. intros [Hne Hnin].
  destruct (String.eqb_spec k k0); [done|]. by rewrite IH.
Qed.

(** What a lookup finds after a registration: the last tool registered
    under the name, and what was there before if there is none. *)
Lemma registerTools_lookup tools : forall this name,
  getTool (registerTools tools this) name
  = match last (List.filter (fun tool => String.eqb name (Tool.name tool))
                  tools) with
    | Some tool => Some tool
    | None => getTool this name
    end.
Proof.
  induction tools as [|tool tools IH]; intros this name; [done|].
  cbn [registerTools fold_left]. fold (registerTools tools).
  rewrite IH. cbn [List.filter].
  destruct (String.eqb_spec name (Tool.name tool)) as [->|Hne].
  - rewrite last_cons. destruct (last (List.filter _ tools)); [done|].
    unfold getTool. by rewrite assoc_assoc_set.
  - destruct (last (List.filter _ tools)); [done|].
    unfold getTool. by rewrite assoc_assoc_set_ne.
Qed.

Lemma registerTools_invariant tools : forall this,
  NoDup (map fst this) ->
  NoDup (map fst (registerTools tools this))
  /\ (forall tool, tool ∈ getAllTools (registerTools tools this) ->
        tool ∈ tools \/ tool ∈ getAllTools this).
Proof.
  induction tools as [|tool tools IH]; intros this Hnd.
  - split; [done|]. intros; by right.
  - cbn [registerTools fold_left]. fold (registerTools tools).
    destruct (IH (assoc_set (Tool.name tool) tool this)) as [N V].
    { by apply assoc_set_NoDup. }
    split; [done|]. intros t Ht.
    destruct (V t Ht) as [?|Hin]; [left; by right|].
    apply assoc_set_values in Hin as [-> | ?]; [left; by left | by right].
Qed.

Lemma registerTools_fresh tools : forall this,
  NoDup (map fst this ++ map Tool.name tools) ->
  registerTools tools this = this ++ map (fun tool => (Tool.name tool, tool)) tools.
Proof.
  induction tools as [|tool tools IH]; intros this Hnd.
  - cbn. by rewrite app_nil_r.
  - cbn [registerTools fold_left map]. fold (registerTools tools).
    cbn [map] in Hnd.
    assert (Hfresh : Tool.name tool ∉ map fst this).
    { apply NoDup_app in Hnd as (_ & Hd & _). intros Hin.
      apply (Hd _ Hin). by left. }
    rewrite assoc_set_fresh by done. rewrite IH.
    + by rewrite <- app_assoc.
    + rewrite map_app. cbn. rewrite <- app_assoc. exact Hnd.
Qed.

(** X20.  The registry keeps one tool per name, the last registered.
    After a row of tools has been registered in an empty registry:
    [getTool] finds under a name the last tool of the row that bears it,
    and nothing when no tool bears it; the tools [getAllTools] lists have
    names different from one another and all come from the row; and when
    the names of the row are different from one another, [getAllTools]
    lists the row itself, in its order. *)
Theorem registry_last_wins (tools : list Tool.t) (name : string) :
  getTool (registerTools tools []) name
  = last (List.filter (fun tool => String.eqb name (Tool.name tool)) tools)
  /\ NoDup (map Tool.name (getAllTools (registerTools tools [])))
  /\ (forall tool, tool ∈ getAllTools (registerTools tools []) -> tool ∈ tools)
  /\ (NoDup (map Tool.name tools) ->
      getAllTools (registerTools tools []) = tools).
Proof.
  split_and!.
  - rewrite registerTools_lookup. by destruct (last _).
  - destruct (registerTools_invariant tools []) as [N _]; [constructor|].
    assert (Hkeys : forall tools this,
               Forall (fun kv => fst kv = Tool.name (snd kv)) this ->
               Forall (fun kv => fst kv = Tool.name (snd kv))
                 (registerTools tools this)).
    { clear. induction tools as [|tool tools IH]; intros this Hf; [done|].
      cbn [registerTools fold_left]. apply IH. clear IH.
      induction this as [|[k0 v0] this IH']; cbn.
      - by constructor.
      - apply Forall_cons in Hf as [H0 Hf].
        destruct (String.eqb_spec (Tool.name tool) k0); constructor; auto. }
    specialize (Hkeys tools [] (Forall_nil_2 _)).
    unfold getAllTools. rewrite map_map.
    erewrite map_ext_Forall; [exact N|].
    eapply Forall_impl; [exact Hkeys|]. intros [k v] Hk. by cbn in *.
  - intros tool Ht.
    destruct (registerTools_invariant tools []) as [_ V]; [constructor|].
    destruct (V tool Ht) as [?|Hin]; [done|]. by apply elem_of_nil in Hin.
  - intros Hnd. rewrite registerTools_fresh by done.
    unfold getAllTools. cbn. rewrite map_map. cbn. by rewrite map_id.
Qed.

End Registry.

(* ================================================================== *)
(** * Reasoning models *)
(* ================================================================== *)

Section Reasoning.
Import ReasoningModels.

Lemma prefix_trans (p q s : string) :
  String.prefix p q = true -> String.prefix q s = true ->
  String.prefix p s = true.
Proof.
  revert p q. induction s as [|c s IH]; intros p q.
  - destruct q as [|b q]; [|by destruct p].
    destruct p; cbn; [done | discriminate].
  - destruct p as [|a p]; [done|].
    destruct q as [|b q]; [discriminate|].
    cbn -[Ascii.ascii_dec].
    destruct (Ascii.ascii_dec a b) as [->|]; [|done].
    destruct (Ascii.ascii_dec b c) as [->|]; [|done].
    apply IH.
Qed.

(** A text that includes a text includes its beginnings. *)
Lemma includes_prefix (s p q : string) :
  String.prefix p q = true -> includes s q = true -> includes s p = true.
Proof.
  intros Hp. induction s as [|c s IH]; cbn -[String.prefix].
  - rewrite !orb_false_r. by apply prefix_trans.
  - intros [Hq | Hq]%orb_true_iff; apply orb_true_iff.
    + left. by apply (prefix_trans p q).
    + right. by apply IH.
Qed.

Lemma includes_app_l (a s sub : string) :
  includes s sub = true -> includes (a +:+ s) sub = true.
Proof.
  intros H. induction a as [|c a IH]; [done|].
  change (String c a +:+ s) with (String c (a +:+ s)).
  cbn -[String.prefix]. rewrite IH. apply orb_true_r.
Qed.

Lemma prefix_app_r (p s b : string) :
  String.prefix p s = true -> String.prefix p (s +:+ b) = true.
Proof.
  revert p. induction s as [|c s IH]; intros p.
  - destruct p; [|discriminate]. intros _. by destruct b.
  - destruct p as [|a p]; [done|].
    change (String c s +:+ b) with (String c (s +:+ b)).
    cbn -[Ascii.ascii_dec].
    destruct (Ascii.ascii_dec a c); [apply IH | done].
Qed.

Lemma includes_app_r (s b sub : string) :
  includes s sub = true -> includes (s +:+ b) sub = true.
Proof.
  induction s as [|c s IH].
  - cbn -[String.prefix]. rewrite orb_false_r. destruct sub; [|done].
    intros _. destruct b; done.
  - change (String c s +:+ b) with (String c (s +:+ b)).
    cbn -[String.prefix].
    intros [H | H]%orb_true_iff; apply orb_true_iff.
    + left. by apply (prefix_app_r sub (String c s) b).
    + right. by apply IH.
Qed.

(** X21.  Which model names count as reasoning models.  A name is one
    exactly when it includes [o1], [o3] or [o4-mini]: the entries
    [o1-mini], [o1-preview] and [o3-mini] of the list add nothing.  A name
    that includes a reasoning name with anything before and after it is
    one too, and the default model [gpt-4o] is not. *)
Theorem reasoning_model_names (modelName before after : string) :
  isReasoningModelName modelName
  = includes modelName "o1" || includes modelName "o3"
    || includes modelName "o4-mini"
  /\ (isReasoningModelName modelName = true ->
      isReasoningModelName (before +:+ modelName +:+ after) = true)
  /\ isReasoningModel ∅ = false.
Proof.
  assert (Hred : forall m,
             isReasoningModelName m
             = includes m "o1" || includes m "o3" || includes m "o4-mini").
  { intros m. unfold isReasoningModelName, reasoningModels. cbn [existsb].
    rewrite orb_false_r.
    pose proof (includes_prefix m "o1" "o1-mini" eq_refl) as H1.
    pose proof (includes_prefix m "o1" "o1-preview" eq_refl) as H2.
    pose proof (includes_prefix m "o3" "o3-mini" eq_refl) as H3.
    destruct (includes m "o1"), (includes m "o1-mini"),
      (includes m "o1-preview"), (includes m "o3"), (includes m "o3-mini"),
      (includes m "o4-mini"); cbn in *; try done;
      try (by discriminate (H1 eq_refl)); try (by discriminate (H2 eq_refl));
      try (by discriminate (H3 eq_refl)). }
  split_and!.
  - apply Hred.
  - rewrite !Hred. intros H.
    assert (Hm : forall sub, includes modelName sub = true ->
                 includes (before +:+ modelName +:+ after) sub = true).
    { intros sub Hs. apply includes_app_l. by apply includes_app_r. }
    apply orb_true_iff in H as [H | H].
    + apply orb_true_iff in H as [H | H].
      * by rewrite (Hm "o1").
      * rewrite (Hm "o3") by done. by rewrite orb_true_r.
    + rewrite (Hm "o4-mini") by done. by rewrite orb_true_r.
  - reflexivity.
Qed.

End Reasoning.

(* ================================================================== *)
(** * The memory tool *)
(* ================================================================== *)

Section MemoryTool.
Import MemoryToolService.

Lemma get_prop_tool_input fields userIp k :
  k <> "userIp" ->
  get_prop (tool_input (VObj fields) userIp) k = get_prop (VObj fields) k.
Proof.
  intros Hk. unfold tool_input. cbn.
  by rewrite assoc_assoc_set_ne.
Qed.

(** X22.  The memory tool saves exactly when it is given a key and a
    value.  [execute] returns when the [key] and the [value] of its
    arguments are both truthy, and throws otherwise; what it returns
    echoes the key and the value, files the item under the category given
    or, without one, under [general], stamps it with the instant of the
    call, and is an object without an [error] property, so that it
    qualifies for the tool cache; and the user address that the
    orchestrator adds to the arguments is not read. *)
Theorem memory_tool_saves (timestamp : string) (args : jsval)
  (fields : list (string * jsval)) (userIp : option string) :
  ((exists saved, execute timestamp args = Ok saved)
   <-> truthy (get_prop args "key") = true
       /\ truthy (get_prop args "value") = true)
  /\ (forall saved, execute timestamp args = Ok saved ->
      AgentService.cacheable saved = true
      /\ get_prop saved "success" = VBool true
      /\ get_prop saved "message"
         = VStr ("Successfully saved to memory: "
                 +:+ to_string (get_prop args "key"))
      /\ get_prop saved "memoryItem"
         = VObj [("key", get_prop args "key");
                 ("value", get_prop args "value");
                 ("category",
                  if truthy (get_prop args "category")
                  then get_prop args "category" else VStr "general");
                 ("timestamp", VStr timestamp)])
  /\ execute timestamp (tool_input (VObj fields) userIp)
     = execute timestamp (VObj fields).
Proof.
  split_and!.
  - unfold execute.
    destruct args; cbn;
      try (split; [by intros [? ?] | by intros [? ?]]).
    destruct (truthy (get_prop (VObj fields0) "key")) eqn:Ek; cbn in *;
      rewrite ?Ek; cbn;
      [|split; [by intros [? ?] | by intros [? ?]]].
    destruct (truthy (match assoc "value" fields0 with
                      | Some x => x | None => VUndefined end)) eqn:Ev; cbn;
      [|split; [by intros [? ?] | by intros [? ?]]].
    split; [done | by eexists].
  - intros saved. unfold execute.
    destruct args; cbn; try done.
    destruct (truthy (match assoc "key" fields0 with
                      | Some x => x | None => VUndefined end)); cbn; [|done].
    destruct (truthy (match assoc "value" fields0 with
                      | Some x => x | None => VUndefined end)); cbn; [|done].
    intros [= <-]. done.
  - unfold execute.
    rewrite !get_prop_tool_input by done. reflexivity.
Qed.

End MemoryTool.

(* ================================================================== *)
(** * The filter of rate-limit rejections *)
(* ================================================================== *)

Section Filter.
Import RateLimitExceptionFilter.

(** X23.  A rejection of the guard is answered in the format of the agent.
    For a route behind the guard and the filter: when the guard rejects the
    request, the handler is not run and the reply has status 429, the
    message about high traffic, an empty history, [completed] and
    [rateLimited] set, and as [retryAfter], in the body and in the
    [Retry-After] header alike, the seconds the guard gave, or 300 when
    the guard gave [0]; when the guard admits the request and the handler
    returns, the reply is what the handler returned. *)
Theorem rejection_answered_in_agent_format {A} (g : RateLimitGuard.t)
  (request : RateLimitGuard.Request) (handler : M A) (w : World) :
  let check := RateLimitGuard.canActivate g request w in
  let served := guarded g request handler w in
  (forall retry, outcome check = too_many retry ->
     exists reply,
       outcome served = Ok (inr reply)
       /\ world served = world check
       /\ emitted served = emitted check
       /\ status reply = 429
       /\ headers reply
          = [("Retry-After", dec (if retry =? 0 then 300 else retry));
             ("Content-Type", "application/json")]
       /\ retryAfter (body reply) = (if retry =? 0 then 300 else retry)
       /\ message (body reply) = HIGH_TRAFFIC
       /\ conversationHistory (body reply) = []
       /\ completed (body reply) = true
       /\ rateLimited (body reply) = true)
  /\ (forall a, outcome check = Ok true ->
      outcome (handler (world check)) = Ok a ->
      outcome served = Ok (inl a)
      /\ world served = world (handler (world check))).
Proof.
  cbv zeta. unfold guarded. rewrite try_catch_run, bind_run.
  destruct (RateLimitGuard.canActivate g request w) as [ev o w1].
  cbn [outcome world emitted]. split.
  - intros retry ->. unfold too_many. cbn.
    eexists. split_and!; try reflexivity. by rewrite app_nil_r.
  - intros a -> Ha. rewrite bind_run.
    destruct (handler w1) as [ev' o' w2]. cbn in Ha. subst o'. done.
Qed.

(** The reply to a client blocked for another ten minutes. *)
Example blocked_client_reply :
  let w :=
    world_at 300
      {[ RedisService.block_key "ip:10.0.0.7" := (RStr "1", Some 900) ]} [] in
  exists reply,
    outcome (guarded (guard 5 300 900) (request_from "10.0.0.7")
               (ret "handled") w) = Ok (inr reply)
    /\ status reply = 429
    /\ headers reply
       = [("Retry-After", "600"); ("Content-Type", "application/json")]
    /\ retryAfter (body reply) = 600.
Proof. eexists. vm_compute. split_and!; reflexivity. Qed.

End Filter.


(* ================================================================== *)
(** * The rate cache of the currency service *)
(* ================================================================== *)

Section RateCache.
Import CurrencyService.

(** X24.  What [setCache] stores, [getFromCache] gives back while it is
    fresh.  An entry stored at an instant with a lifetime is given back,
    and the cache left as it is, at every instant up to and including the
    instant plus the lifetime; after that instant the read is [null] and
    removes the entry.  An entry stored with a lifetime that is not a
    number, which is what a configured [EXCHANGE_RATE_CACHE_TTL] that
    [parseInt] cannot read gives, never expires.  A read of another key
    gives what it gave before the entry was stored. *)
Theorem rate_cache_round_trip (cache : gmap string CacheEntry) (key other : string)
  (value : jsval) (stored now : Z) (lifetime : option Z) :
  let cache' := setCache stored lifetime cache key value in
  (forall l, lifetime = Some l -> now <= stored + l ->
     getFromCache now cache' key = (value, cache'))
  /\ (forall l, lifetime = Some l -> stored + l < now ->
      getFromCache now cache' key = (VNull, delete key cache))
  /\ (lifetime = None -> getFromCache now cache' key = (value, cache'))
  /\ (other <> key ->
      fst (getFromCache now cache' other) = fst (getFromCache now cache other))
  /\ (forall cfg text,
        cfg !! "EXCHANGE_RATE_CACHE_TTL" = Some text ->
        parseInt text None = None -> cacheTTL cfg = None)
  /\ cacheTTL ∅ = Some 3600000.
Proof.
  cbv zeta. unfold getFromCache, setCache, expired.
  rewrite lookup_insert_eq. cbn [ttl timestamp data].
  split_and!.
  - intros l -> Hl. destruct (stored + l <? now) eqn:E; [lia | done].
  - intros l -> Hl. destruct (stored + l <? now) eqn:E; [|lia].
    by rewrite delete_insert_eq.
  - by intros ->.
  - intros Hne. rewrite lookup_insert_ne by done.
    destruct (cache !! other) as [entry|]; [|done].
    by destruct (match ttl entry with
                 | Some l => timestamp entry + l <? now
                 | None => false
                 end).
  - intros cfg text Hc Hp. unfold cacheTTL, AgentService.config_get.
    by rewrite Hc.
  - reflexivity.
Qed.

(** X25.  [cleanupCache] is invisible to the reads.  After a cleanup at
    an instant, every entry left is an entry of the cache that has not
    expired at that instant; a read at that instant or later gives what it
    would have given without the cleanup; and a second cleanup at the same
    instant changes nothing. *)
Theorem cleanup_invisible (cache : gmap string CacheEntry) (key : string) (now later : Z) :
  (forall entry, cleanupCache now cache !! key = Some entry ->
     cache !! key = Some entry /\ expired now entry = false)
  /\ (now <= later ->
      fst (getFromCache later (cleanupCache now cache) key)
      = fst (getFromCache later cache key))
  /\ cleanupCache now (cleanupCache now cache) = cleanupCache now cache.
Proof.
  unfold cleanupCache. split_and!.
  - intros entry H. by apply map_lookup_filter_Some in H.
  - intros Hle. unfold getFromCache.
    destruct (cache !! key) as [entry|] eqn:Hc.
    + destruct (expired now entry) eqn:Ee.
      * rewrite (map_lookup_filter_None_2 _ cache key); cbn.
        -- assert (expired later entry = true) as ->; [|done].
           unfold expired in *. destruct (ttl entry); [|done].
           apply Z.ltb_lt in Ee. apply Z.ltb_lt. by eapply Z.lt_le_trans.
        -- right. intros x Hx. rewrite Hc in Hx. injection Hx as <-.
           cbn. by rewrite Ee.
      * rewrite (map_lookup_filter_Some_2 _ cache key entry Hc Ee).
        by destruct (expired later entry).
    + rewrite (map_lookup_filter_None_2 _ cache key); [done|]. by left.
  - apply map_filter_id. intros i x H.
    by apply map_lookup_filter_Some in H as [_ ?].
Qed.

(** X26.  A currency code is accepted exactly when it is three capital
    letters.  [validateCurrencyCode] returns for a text of three
    characters each of which is one of the letters [A] to [Z], and throws
    for every other text. *)
Theorem currency_code_accepted (code : string) :
  validateCurrencyCode code = Ok tt
  <-> exists a b c,
        code = String a (String b (String c ""))
        /\ is_upper a = true /\ is_upper b = true /\ is_upper c = true.
Proof.
  unfold validateCurrencyCode. split.
  - destruct code as [|a [|b [|c [|d code]]]]; cbn; try done.
    destruct (is_upper a) eqn:Ha, (is_upper b) eqn:Hb, (is_upper c) eqn:Hc;
      cbn; try done.
    intros _. by exists a, b, c.
  - intros (a & b & c & -> & Ha & Hb & Hc). cbn. by rewrite Ha, Hb, Hc.
Qed.

End RateCache.

(** A rate cached for an hour, read at the last instant of the hour and
    one millisecond later. *)
Lemma rate_cache_round_trip_witness :
  let cache' :=
    CurrencyService.setCache 1000 (Some 3600000) ∅ "USD_EUR" (VNum 92) in
  CurrencyService.getFromCache 3601000 cache' "USD_EUR" = (VNum 92, cache')
  /\ CurrencyService.getFromCache 3601001 cache' "USD_EUR" = (VNull, ∅).
Proof.
  intros cache'.
  destruct (rate_cache_round_trip ∅ "USD_EUR" "EUR_USD" (VNum 92) 1000
              3601000 (Some 3600000)) as (A & _).
  destruct (rate_cache_round_trip ∅ "USD_EUR" "EUR_USD" (VNum 92) 1000
              3601001 (Some 3600000)) as (_ & B & _).
  split.
  - apply (A 3600000); [reflexivity | intros [=]].
  - subst cache'. rewrite (B 3600000); [|reflexivity..].
    by rewrite delete_empty.
Defined.


(* ================================================================== *)
(** * The mock path *)
(* ================================================================== *)

Section Mock.
Context (JSON_parse : string -> option jsval).

Lemma events_text_app evs1 evs2 :
  events_text (evs1 ++ evs2) = events_text evs1 +:+ events_text evs2.
Proof.
  induction evs1 as [|u evs1 IH]; [done|].
  cbn [app]. unfold events_text in *. cbn [foldr]. rewrite IH.
  by rewrite string_app_assoc.
Qed.

(** A text is streamed one character at a time. *)
Lemma stream_characters (cs : list ascii) (w : World) :
  exists evs,
    for_each (fun char (_ : unit) => yield (update k_content_stream char))
      (map (fun c => VStr (String c "")) cs) tt w
    = Run evs (Ok tt) w
    /\ events_text evs = string_of_list_ascii cs
    /\ length evs = length cs
    /\ Forall (fun u => StreamingUpdate.type u = k_content_stream) evs.
Proof.
  induction cs as [|c cs (evs & E & T & L & F)].
  - exists []. by split_and!.
  - exists (update k_content_stream (VStr (String c "")) :: evs).
    cbn [map for_each]. rewrite bind_run. cbn [yield]. rewrite E.
    split_and!; try done.
    + unfold events_text in *. cbn. by rewrite T.
    + cbn. by rewrite L.
    + by constructor.
Qed.

Lemma mock_stream_spelled (texts : list string) : forall first w,
  exists evs,
    AgentService.mock_stream first (map VStr texts) w = Run evs (Ok tt) w
    /\ events_text evs = spelled first texts
    /\ Forall (fun u => StreamingUpdate.type u = k_content_stream) evs.
Proof.
  induction texts as [|text texts IH]; intros first w.
  - exists []. by split_and!.
  - cbn [map AgentService.mock_stream]. rewrite bind_run.
    destruct (stream_characters (list_ascii_of_string text) w)
      as (evs1 & E1 & T1 & _ & F1).
    destruct (IH false w) as (evs2 & E2 & T2 & F2).
    rewrite string_of_list_ascii_of_string in T1.
    destruct first.
    + exists (evs1 ++ evs2). cbn [ret]. rewrite bind_run.
      cbn [AgentService.pieces]. rewrite E1, E2.
      split_and!; [done | | by apply Forall_app].
      rewrite events_text_app, T1, T2. done.
    + exists (update k_content_stream (VStr SEPARATOR) :: evs1 ++ evs2).
      cbn [yield]. rewrite bind_run. cbn [AgentService.pieces].
      rewrite E1, E2.
      split_and!; [done | | constructor; [done | by apply Forall_app]].
      change (events_text (update k_content_stream (VStr SEPARATOR)
                           :: evs1 ++ evs2))
        with (SEPARATOR +:+ events_text (evs1 ++ evs2)).
      rewrite events_text_app, T1, T2. done.
Qed.

Lemma spelled_concat (texts : list string) :
  spelled true texts = String.concat SEPARATOR texts.
Proof.
  assert (H : forall texts text,
             text +:+ spelled false texts
             = String.concat SEPARATOR (text :: texts)).
  { clear. induction texts as [|t ts IH]; intros text.
    - cbn. apply string_app_nil_r.
    - cbn [spelled]. rewrite IH.
      change (String.concat SEPARATOR (text :: t :: ts))
        with (text +:+ SEPARATOR +:+ String.concat SEPARATOR (t :: ts)).
      done. }
  destruct texts as [|text texts]; [done|].
  cbn [spelled]. apply H.
Qed.

(** X27.  The mock path spells out its messages.  A row of texts is
    streamed as [content_stream] events whose contents, put end to end,
    are the texts joined by the separator; nothing is thrown and the world
    is left as it was.  When the mock file cannot be read, or is not
    JSON, the stream spells the fallback message, whatever the request,
    and ends with the [complete] event of the mock path. *)
Theorem mock_stream_spells (texts : list string) (mockFile : option string)
  (request : AgentRequest.t) (w : World) :
  (exists evs,
      AgentService.mock_stream true (map VStr texts) w = Run evs (Ok tt) w
      /\ events_text evs = String.concat SEPARATOR texts
      /\ Forall (fun u => StreamingUpdate.type u = k_content_stream) evs)
  /\ (mockFile = None
      \/ (exists text, mockFile = Some text /\ JSON_parse text = None) ->
      exists evs,
        AgentService.processMockResponse JSON_parse mockFile request w
        = Run (evs ++ [update k_complete
                         (VStr "Mock conversation completed successfully")])
            (Ok tt) w
        /\ events_text evs = AgentService.FALLBACK_MOCK
        /\ Forall (fun u => StreamingUpdate.type u = k_content_stream) evs).
Proof.
  split.
  - destruct (mock_stream_spelled texts true w) as (evs & E & T & F).
    exists evs. by rewrite <- spelled_concat.
  - intros Hm.
    destruct (mock_stream_spelled [AgentService.FALLBACK_MOCK] true w)
      as (evs & E & T & F).
    exists evs. split_and!; [|by rewrite T; cbn; rewrite string_app_nil_r | done].
    unfold AgentService.processMockResponse.
    assert (Hdata : match mockFile with
                    | Some text =>
                        match JSON_parse text with
                        | Some v => v
                        | None =>
                            VObj [("message", VStr AgentService.FALLBACK_MOCK)]
                        end
                    | None => VObj [("message", VStr AgentService.FALLBACK_MOCK)]
                    end
                    = VObj [("message", VStr AgentService.FALLBACK_MOCK)]).
    { destruct Hm as [-> | (text & -> & ->)]; done. }
    rewrite Hdata. cbn [get_prop assoc String.eqb Ascii.eqb Bool.eqb].
    cbn -[AgentService.mock_stream AgentService.FALLBACK_MOCK].
    rewrite bind_run. cbn [ret].
    cbn [map] in E. rewrite E. reflexivity.
Qed.

End Mock.


(* ================================================================== *)
(** * The agent service: a turn without tool calls, a rejected stream,
      the response cache *)
(* ================================================================== *)

Section Turns.
Context (JSON_parse : string -> option jsval)
        (replacePlaceholders : string -> option (list Memory.t) -> string)
        (generateSessionId : World -> string)
        (mockFile : option string) (durationText : string).
Context (this : AgentService.t).

(** A chunk without a piece of a tool call adds its text to the message
    and leaves the calls and the world as they are. *)
Lemma on_chunk_plain chunk turn w :
  plain chunk ->
  exists evs turn',
    AgentService.on_chunk durationText this chunk turn w
    = Run evs (Ok turn') w
    /\ AgentService.t_content turn'
       = AgentService.t_content turn +:+ chunk_text chunk
    /\ AgentService.t_tool_calls turn' = AgentService.t_tool_calls turn
    /\ no_complete evs.
Proof.
  intros Hp. unfold plain in Hp. unfold AgentService.on_chunk, chunk_text.
  rewrite Hp.
  set (c := d ← OpenAI.delta chunk; OpenAI.d_content d).
  set (rt := default 0 (u ← OpenAI.usage chunk; OpenAI.reasoning_tokens u)).
  rewrite !bind_run.
  destruct (AgentService.isReasoningModel this && negb (rt =? 0)
            && (AgentService.reasoningTokens turn <? rt)); cbn [ret yield];
    rewrite ?bind_run; cbn [ret yield];
    cbn [AgentService.t_content AgentService.t_tool_calls
         AgentService.reasoningTokens AgentService.reasoningComplete
         AgentService.completionTokens];
    destruct (AgentService.isReasoningModel this && opt_truthy c
              && negb (AgentService.reasoningComplete turn));
    cbn [ret yield]; rewrite ?bind_run; cbn [ret yield];
    cbn [AgentService.t_content AgentService.t_tool_calls
         AgentService.reasoningTokens AgentService.reasoningComplete
         AgentService.completionTokens];
    destruct (opt_truthy c) eqn:Ec; cbn [ret yield]; rewrite ?bind_run;
    cbn [ret yield];
    eexists _, _; (split; [reflexivity|]);
    cbn [AgentService.t_content AgentService.t_tool_calls];
    (split_and!; [| done | repeat constructor; done]);
    try done;
    destruct c as [[|]|]; cbn in *; try done; by rewrite string_app_nil_r.
Qed.

Lemma chunks_plain chunks : forall turn w,
  Forall plain chunks ->
  exists evs turn',
    for_each (AgentService.on_chunk durationText this) chunks turn w
    = Run evs (Ok turn') w
    /\ AgentService.t_content turn'
       = AgentService.t_content turn +:+ chunks_text chunks
    /\ AgentService.t_tool_calls turn' = AgentService.t_tool_calls turn
    /\ no_complete evs.
Proof.
  induction chunks as [|chunk chunks IH]; intros turn w Hp.
  - exists [], turn. split_and!; try done.
    + cbn. by rewrite string_app_nil_r.
    + constructor.
  - apply Forall_cons in Hp as [Hc Hp].
    destruct (on_chunk_plain chunk turn w Hc) as (evs1 & turn1 & E1 & T1 & C1 & N1).
    destruct (IH turn1 w Hp) as (evs2 & turn2 & E2 & T2 & C2 & N2).
    exists (evs1 ++ evs2), turn2. cbn [for_each]. rewrite bind_run, E1, E2.
    split_and!; try done.
    + rewrite T2, T1. cbn [chunks_text foldr]. by rewrite string_app_assoc.
    + congruence.
    + by apply Forall_app.
Qed.

(** X28.  A turn without tool calls ends the conversation.  With a client
    configured: when the completion of the first turn asks for no tool,
    the buffered operation returns its content, or the text about a
    request that could not be processed when it has none, with no tool
    results, after that one completion request.  When the streamed
    completion of the first turn delivers chunks without pieces of tool
    calls and ends without an error, and the ceiling allows a turn, the
    streaming operation ends, after that one request, with the closing
    content event that carries the texts of the chunks put end to end (or
    the same fallback text), before which no [complete] event is
    emitted. *)
Theorem plain_answer_ends_conversation (client : OpenAI.t)
  (messages : list Message.t) (userIp : option string) (w : World) :
  AgentService.openai this = Some client ->
  (forall completion,
     OpenAI.create client (completions w) messages = Ok completion ->
     OpenAI.tool_calls completion = None
     \/ OpenAI.tool_calls completion = Some [] ->
     AgentService.processConversationWithTools JSON_parse this messages
       userIp w
     = Run []
         (Ok {| AgentService.content :=
                  or_else (OpenAI.content completion)
                    "I couldn't process your request.";
                AgentService.toolResults := None |})
         (after_completion w))
  /\ (forall stream turns,
        AgentService.turns_allowed (AgentService.maxIterations_stream this)
        = S turns ->
        OpenAI.create_stream client (completions w) messages = Ok stream ->
        OpenAI.failure stream = None ->
        Forall plain (OpenAI.chunks stream) ->
        exists before,
          AgentService.processConversationWithToolsStream JSON_parse
            durationText this messages userIp w
          = Run (before
                 ++ [AgentService.final_content
                       (or_else (Some (chunks_text (OpenAI.chunks stream)))
                          "I couldn't process your request.")])
              (Ok tt) (after_completion w)
          /\ no_complete before).
Proof.
  intros Hclient. split.
  - intros completion Hc Hno.
    unfold AgentService.processConversationWithTools. rewrite Hclient.
    change (Z.to_nat 5) with 5%nat. cbn [AgentService.conversation_loop].
    rewrite bind_run, request_completion_run, Hc.
    by destruct Hno as [-> | ->].
  - intros stream turns Hturns Hs Hf Hp.
    unfold AgentService.processConversationWithToolsStream.
    rewrite Hclient, Hturns. cbn [AgentService.stream_loop].
    destruct (chunks_plain (OpenAI.chunks stream) AgentService.new_turn
                (after_completion w) Hp)
      as (evs & turn & E & T & C & N).
    cbn [AgentService.new_turn AgentService.t_content
         AgentService.t_tool_calls] in T, C.
    change ("" +:+ chunks_text (OpenAI.chunks stream))
      with (chunks_text (OpenAI.chunks stream)) in T.
    exists ((if AgentService.isReasoningModel this
             then [AgentService.reasoning_event this k_reasoning_start
                     "Thinking..." None]
             else []) ++ evs).
    split.
    + rewrite bind_run.
      destruct (AgentService.isReasoningModel this); cbn [yield ret];
        rewrite bind_run, request_completion_run, Hs, bind_run, E, Hf, C;
        cbn [yield app]; rewrite T; by rewrite <- ?app_assoc.
    + apply Forall_app. split; [|done].
      destruct (AgentService.isReasoningModel this); repeat constructor.
      done.
Qed.

(** X29.  A stream that cannot be opened ends with the error event alone.
    With a client configured and the mock path off: when a message of the
    history cannot be converted, the streaming entry point emits one
    event, the [complete] event that carries the text chosen from the
    error and the message of the error, and requests no completion; when
    the ceiling allows a turn and the first completion request is
    rejected, it emits that event, after the announcement of the
    reasoning if the model is a reasoning model, and that request is the
    only one made.  In both cases the generator returns. *)
Theorem rejected_stream_ends_with_error (client : OpenAI.t)
  (request : AgentRequest.t) (w : World) :
  AgentService.openai this = Some client ->
  AgentService.config_get (AgentService.configService this)
    "MOCK_RESPONSES_ENABLED" "false" <> "true" ->
  let history :=
    default [] (AgentRequest.conversationHistory request)
    ++ [AgentService.user_message (AgentRequest.message request)] in
  (forall e,
     AgentService.convertConversationToOpenAI history = Throw e ->
     AgentService.processRequestStream JSON_parse replacePlaceholders
       generateSessionId mockFile durationText this request w
     = Run [error_complete e] (Ok tt) w)
  /\ (forall converted e turns,
        AgentService.convertConversationToOpenAI history = Ok converted ->
        AgentService.turns_allowed (AgentService.maxIterations_stream this)
        = S turns ->
        OpenAI.create_stream client (completions w)
          (AgentService.system_message
             (replacePlaceholders (AgentService.systemPrompt this)
                (AgentRequest.memories request)) :: converted)
        = Throw e ->
        AgentService.processRequestStream JSON_parse replacePlaceholders
          generateSessionId mockFile durationText this request w
        = Run ((if AgentService.isReasoningModel this
                then [AgentService.reasoning_event this k_reasoning_start
                        "Thinking..." None]
                else [])
               ++ [error_complete e])
            (Ok tt) (after_completion w)).
Proof.
  intros Hclient Hmock history.
  unfold AgentService.processRequestStream. rewrite Hclient.
  destruct (String.eqb_spec
              (AgentService.config_get (AgentService.configService this)
                 "MOCK_RESPONSES_ENABLED" "false") "true") as [?|_]; [done|].
  split.
  - intros e He. rewrite try_catch_run, bind_run, session_of_run, bind_run.
    unfold AgentService.pushed_history. fold history. rewrite He.
    reflexivity.
  - intros converted e turns Hc Hturns He.
    rewrite try_catch_run, bind_run, session_of_run, bind_run.
    unfold AgentService.pushed_history. fold history. rewrite Hc.
    cbn [lift_result ret]. rewrite bind_run.
    unfold AgentService.processConversationWithToolsStream.
    rewrite Hclient, Hturns. cbn [AgentService.stream_loop].
    rewrite bind_run.
    destruct (AgentService.isReasoningModel this); cbn [yield ret];
      rewrite bind_run, request_completion_run, He; reflexivity.
Qed.

End Turns.

Section ResponseCache.
Context (JSON_parse : string -> option jsval)
        (replacePlaceholders : string -> option (list Memory.t) -> string)
        (generateSessionId : World -> string).
Context (this : AgentService.t).

(** X30.  A response is cached for the next request with the same message.
    With a client configured, the response cache on with a positive
    lifetime, and the store connected and healthy: a request without a
    history whose key is absent, and which the client answers at once with
    a text and no tool call, is answered with that text, after one
    completion request, and its response is stored, serialized, under the
    key of the request for the lifetime of the cache.  A request without a
    history and with the same message, made before the entry expires, is
    then answered with what [JSON.parse] makes of the stored text, when
    that is truthy, its session id replaced by the one of the new request;
    no completion is requested for it. *)
Theorem response_cached_for_next_request (client : OpenAI.t)
  (request request' : AgentRequest.t) (converted : list Message.t)
  (text s : string) (v : jsval) (t' : Z) (w : World) :
  AgentService.openai this = Some client ->
  AgentService.cacheEnabled this = true ->
  RedisService.off (AgentService.redisService this) = false ->
  healthy w ->
  0 < AgentService.cacheTtlSeconds this ->
  AgentRequest.conversationHistory request = None ->
  AgentRequest.conversationHistory request' = None ->
  AgentRequest.message request' = AgentRequest.message request ->
  Upstash.live (now w) (kv (remote w)) (AgentService.generateCacheKey request)
  = None ->
  AgentService.convertConversationToOpenAI
    [AgentService.user_message (AgentRequest.message request)]
  = Ok converted ->
  OpenAI.create client (completions w)
    (AgentService.system_message
       (replacePlaceholders (AgentService.systemPrompt this)
          (AgentRequest.memories request)) :: converted)
  = Ok {| OpenAI.content := Some text; OpenAI.tool_calls := None |} ->
  text <> "" ->
  let response :=
    {| AgentResponse.message := text;
       AgentResponse.conversationHistory :=
         [AgentService.user_message (AgentRequest.message request);
          {| Message.role := "assistant"; Message.content := Some text;
             Message.tool_calls := None; Message.tool_call_id := None |}];
       AgentResponse.sessionId :=
         if opt_truthy (AgentRequest.sessionId request)
         then default "" (AgentRequest.sessionId request)
         else generateSessionId w;
       AgentResponse.toolCalls := None;
       AgentResponse.completed := true |} in
  JSON_stringify (AgentService.response_js response) = Some s ->
  JSON_parse s = Some v -> truthy v = true ->
  now w <= t' < now w + AgentService.cacheTtlSeconds this ->
  let first :=
    AgentService.processRequest JSON_parse replacePlaceholders
      generateSessionId this request w in
  let second :=
    AgentService.processRequest JSON_parse replacePlaceholders
      generateSessionId this request' (at_time t' (world first)) in
  outcome first = Ok (AgentService.Fresh response)
  /\ completions (world first) = S (completions w)
  /\ kv (remote (world first)) !! AgentService.generateCacheKey request
     = Some (RStr s, Some (now w + AgentService.cacheTtlSeconds this))
  /\ outcome second
     = Ok (AgentService.FromCache
             (assoc_set "sessionId"
                (VStr (if opt_truthy (AgentRequest.sessionId request')
                       then default "" (AgentRequest.sessionId request')
                       else generateSessionId (at_time t' (world first))))
                (AgentService.spread_val v)))
  /\ completions (world second) = completions (world first).
Proof.
  intros Hclient Hen Hon Hw Httl Hh Hh' Hmsg Hmiss Hconv Hcreate Htext
    response Hs Hp Hv Ht first second.
  destruct w as [t [m o] c x h]. unfold healthy in Hw. simpl in Hw. subst o.
  cbn [now remote kv completions] in *.
  destruct (serialize_not_sentinel None _ s Hs) as [Hn Hne].
  assert (Hkey' : AgentService.generateCacheKey request'
                  = AgentService.generateCacheKey request).
  { unfold AgentService.generateCacheKey. by rewrite Hh, Hh', Hmsg. }
  assert (Hfirst :
            first
            = Run [] (Ok (AgentService.Fresh response))
                {| now := t;
                   remote :=
                     {| kv := <[AgentService.generateCacheKey request
                                := (RStr s,
                                    Some (t + AgentService.cacheTtlSeconds this))]>
                                m;
                        outages := [] |};
                   completions := S c; executions := x;
                   responseHeaders := h |}).
  { subst first. unfold AgentService.processRequest.
    rewrite Hclient, Hen.
    rewrite bind_run, session_of_run, bind_run.
    unfold RedisService.getCachedResponse. rewrite Hon.
    rewrite (read_cached_miss JSON_parse _ t m c x h Hmiss).
    cbn [truthy andb]. rewrite try_catch_run, bind_run.
    unfold AgentService.pushed_history. rewrite Hh. cbn [default app].
    rewrite Hconv. cbn [lift_result ret]. rewrite bind_run.
    unfold AgentService.processConversationWithTools. rewrite Hclient.
    change (Z.to_nat 5) with 5%nat. cbn [AgentService.conversation_loop].
    rewrite bind_run, request_completion_run. cbn [completions].
    rewrite Hcreate. cbn [OpenAI.tool_calls OpenAI.content ret].
    unfold after_completion.
    cbn [now remote completions executions responseHeaders
         AgentService.content AgentService.toolResults
         AgentService.nonempty_or_undefined].
    assert (Hor : forall d, or_else (Some text) d = text).
    { intros d. by destruct text. }
    rewrite !Hor, bind_run.
    unfold RedisService.setCachedResponse. rewrite Hon.
    unfold AgentService.request_after. rewrite Hh.
    cbn [app opt_truthy]. fold response.
    rewrite (write_cached_run _ _ _ t m (S c) x h s Hs Hn Httl).
    reflexivity. }
  rewrite Hfirst in *. subst second. rewrite Hfirst.
  cbn [outcome world completions remote kv].
  split_and!; try done.
  - by rewrite lookup_insert_eq.
  - unfold at_time. cbn [now remote completions executions responseHeaders].
    unfold AgentService.processRequest. rewrite Hclient, Hen.
    rewrite bind_run, session_of_run, bind_run.
    unfold RedisService.getCachedResponse. rewrite Hon, Hkey'.
    rewrite (read_cached_hit JSON_parse _ t' _ (S c) x h s
               (Some (t + AgentService.cacheTtlSeconds this)) v);
      try done.
    + by rewrite Hv.
    + rewrite live_insert_eq.
      destruct (t + AgentService.cacheTtlSeconds this <=? t') eqn:E;
        [lia | done].
  - unfold at_time. cbn [now remote completions executions responseHeaders].
    unfold AgentService.processRequest. rewrite Hclient, Hen.
    rewrite bind_run, session_of_run, bind_run.
    unfold RedisService.getCachedResponse. rewrite Hon, Hkey'.
    rewrite (read_cached_hit JSON_parse _ t' _ (S c) x h s
               (Some (t + AgentService.cacheTtlSeconds this)) v);
      try done.
    + by rewrite Hv.
    + rewrite live_insert_eq.
      destruct (t + AgentService.cacheTtlSeconds this <=? t') eqn:E;
        [lia | done].
Qed.

End ResponseCache.

(** A question answered at once, buffered and streamed in two chunks. *)
Lemma plain_answer_ends_conversation_witness :
  let client := answering "92 EUR" ["92"; " EUR"] in
  let this := agent (Some client) ∅ in
  let messages := [AgentService.user_message "Convert 100 USD to EUR"] in
  let w := world_at 0 ∅ [] in
  AgentService.processConversationWithTools Samples.JSON_parse this messages
    None w
  = Run []
      (Ok {| AgentService.content := "92 EUR";
             AgentService.toolResults := None |})
      (after_completion w)
  /\ exists before,
       AgentService.processConversationWithToolsStream Samples.JSON_parse
         "a few seconds" this messages None w
       = Run (before ++ [AgentService.final_content "92 EUR"]) (Ok tt)
           (after_completion w)
       /\ no_complete before.
Proof.
  intros client this messages w.
  destruct (plain_answer_ends_conversation Samples.JSON_parse "a few seconds"
              this client messages None w eq_refl) as [A B].
  split.
  - apply (A {| OpenAI.content := Some "92 EUR"; OpenAI.tool_calls := None |});
      [reflexivity | by left].
  - apply (B {| OpenAI.chunks :=
                  map (fun piece =>
                         {| OpenAI.delta :=
                              Some {| OpenAI.d_content := Some piece;
                                      OpenAI.d_tool_calls := None |};
                            OpenAI.usage := None |}) ["92"; " EUR"];
                OpenAI.failure := None |} 4%nat);
      try reflexivity.
    repeat constructor.
Defined.

(** A stream refused by an overloaded provider. *)
Lemma rejected_stream_ends_with_error_witness :
  let e := APIError (Some "overloaded_error") (Some 529) "Overloaded" in
  let this := agent (Some (failing e)) ∅ in
  let w := world_at 0 ∅ [] in
  AgentService.processRequestStream Samples.JSON_parse
    Samples.replacePlaceholders Samples.generateSessionId None
    "a few seconds" this (ask "Convert 100 USD to EUR") w
  = Run [error_complete e] (Ok tt) (after_completion w).
Proof.
  intros e this w.
  destruct (rejected_stream_ends_with_error Samples.JSON_parse
              Samples.replacePlaceholders Samples.generateSessionId None
              "a few seconds" this (failing e)
              (ask "Convert 100 USD to EUR") w eq_refl) as [_ A].
  { discriminate. }
  exact (A _ e 4%nat eq_refl eq_refl eq_refl).
Defined.

(** The same question asked twice, a minute apart, by two sessions. *)
Lemma response_cached_for_next_request_witness :
  let this := caching_agent (Some (answering "92 EUR" [])) in
  let request := ask "Convert 100 USD to EUR" in
  let request' :=
    {| AgentRequest.message := "Convert 100 USD to EUR";
       AgentRequest.conversationHistory := None;
       AgentRequest.sessionId := Some "s2"; AgentRequest.userIp := None;
       AgentRequest.memories := None |} in
  let w := world_at 100 ∅ [] in
  let first :=
    AgentService.processRequest Samples.JSON_parse Samples.replacePlaceholders
      Samples.generateSessionId this request w in
  let second :=
    AgentService.processRequest Samples.JSON_parse Samples.replacePlaceholders
      Samples.generateSessionId this request' (at_time 160 (world first)) in
  completions (world first) = 1%nat
  /\ completions (world second) = 1%nat
  /\ exists fields,
       outcome second = Ok (AgentService.FromCache fields)
       /\ assoc "message" fields = Some (VStr "92 EUR")
       /\ assoc "sessionId" fields = Some (VStr "s2").
Proof.
  intros this request request' w first second.
  pose (response :=
          {| AgentResponse.message := "92 EUR";
             AgentResponse.conversationHistory :=
               [AgentService.user_message "Convert 100 USD to EUR";
                {| Message.role := "assistant"; Message.content := Some "92 EUR";
                   Message.tool_calls := None; Message.tool_call_id := None |}];
             AgentResponse.sessionId := "s1";
             AgentResponse.toolCalls := None;
             AgentResponse.completed := true |}).
  destruct (JSON_stringify (AgentService.response_js response)) as [s|] eqn:Hs;
    [|vm_compute in Hs; discriminate].
  destruct (Samples.JSON_parse s) as [v|] eqn:Hp;
    [|vm_compute in Hs; injection Hs as <-; vm_compute in Hp; discriminate].
  assert (Hv : truthy v = true).
  { vm_compute in Hs. injection Hs as <-. vm_compute in Hp.
    injection Hp as <-. reflexivity. }
  destruct (response_cached_for_next_request Samples.JSON_parse
              Samples.replacePlaceholders Samples.generateSessionId this
              (answering "92 EUR" []) request request'
              [AgentService.user_message "Convert 100 USD to EUR"]
              "92 EUR" s v 160 w eq_refl eq_refl eq_refl eq_refl eq_refl
              eq_refl eq_refl eq_refl eq_refl eq_refl eq_refl
              ltac:(discriminate) Hs Hp Hv)
    as (_ & A & _ & B & C).
  { vm_compute. split; [intros [=] | reflexivity]. }
  split; [exact A|]. split; [exact (eq_trans C A)|].
  eexists. split; [exact B|].
  vm_compute in Hs. injection Hs as <-. vm_compute in Hp.
  injection Hp as <-. split; reflexivity.
Defined.
